(** * FAQ scraper (app.py): URL frontier, text filters, extraction and crawl

    A shallow embedding of the [FAQScraper] class of [app.py] and the proofs
    of its frontier, deduplication and orchestration properties.

    Python strings are sequences of Unicode code points, so a string is a
    list of code points ([N]); [len] is [length].  Sets ([visited_urls],
    [seen_questions]) are [gset]s, lists are lists, and a method that
    mutates [self] is a function from scraper state to scraper state.  A
    call that can raise returns an [option]. *)

From Stdlib Require Import ZArith NArith Lia Bool Ascii.
From stdpp Require Import base list gmap strings.
From Equations Require Import Equations.

Local Open Scope N_scope.

(** Proofs see only the section variables their statements name. *)
#[local] Set Proof Using Clear Unused.

(** ** Python [str] *)

Abbreviation char := N.
Abbreviation pystr := (list N).

Definition ch (a : ascii) : char := N_of_ascii a.

(** A literal: the code points of an ASCII Rocq string. *)
Definition py (s : string) : pystr := map ch (String.list_ascii_of_string s).

Arguments ch : simpl never.
Arguments py : simpl never.

Definition is_ascii (c : char) : bool := c <? 128.
Definition is_ascii_upper (c : char) : bool := (65 <=? c) && (c <=? 90).
Definition is_ascii_lower (c : char) : bool := (97 <=? c) && (c <=? 122).
(** [c.isascii() and c.isalpha()] *)
Definition is_ascii_alpha (c : char) : bool := is_ascii_upper c || is_ascii_lower c.
Definition is_ascii_digit (c : char) : bool := (48 <=? c) && (c <=? 57).

Definition ascii_lower_char (c : char) : char :=
  if is_ascii_upper c then c + 32 else c.

(** [str.lower] on a string of ASCII characters. *)
Definition ascii_lower (s : pystr) : pystr := map ascii_lower_char s.

(** [str.isspace] for one character, which is also [\s] of [re] on [str]
    patterns. *)
Definition is_space (c : char) : bool :=
  ((9 <=? c) && (c <=? 13)) || ((28 <=? c) && (c <=? 32))
  || (c =? 133) || (c =? 160) || (c =? 5760)
  || ((8192 <=? c) && (c <=? 8202))
  || (c =? 8232) || (c =? 8233) || (c =? 8239) || (c =? 8287) || (c =? 12288).

(** Membership of a character in a string used as a character set. *)
Definition char_in (cs : pystr) (c : char) : bool := existsb (N.eqb c) cs.

Fixpoint drop_while {A} (p : A -> bool) (l : list A) : list A :=
  match l with
  | [] => []
  | x :: l' => if p x then drop_while p l' else l
  end.

Fixpoint take_while {A} (p : A -> bool) (l : list A) : list A :=
  match l with
  | [] => []
  | x :: l' => if p x then x :: take_while p l' else []
  end.

Definition lstrip (p : char -> bool) (s : pystr) : pystr := drop_while p s.
Definition rstrip (p : char -> bool) (s : pystr) : pystr :=
  rev (drop_while p (rev s)).
(** [s.strip(chars)]; [s.strip()] is [strip is_space s]. *)
Definition strip (p : char -> bool) (s : pystr) : pystr := rstrip p (lstrip p s).

(** Prefix test under a character comparison [eqc pattern_char text_char]. *)
Fixpoint startswith_by (eqc : char -> char -> bool) (pre s : pystr) : bool :=
  match pre, s with
  | [], _ => true
  | p :: pre', c :: s' => eqc p c && startswith_by eqc pre' s'
  | _ :: _, [] => false
  end.

(** Index of the first occurrence of [pat] in [s] under [eqc]. *)
Fixpoint find_by (eqc : char -> char -> bool) (pat s : pystr) : option nat :=
  if startswith_by eqc pat s then Some 0%nat
  else match s with
       | [] => None
       | _ :: s' => S <$> find_by eqc pat s'
       end.

Definition startswith (pre s : pystr) : bool := startswith_by N.eqb pre s.
Definition endswith (suf s : pystr) : bool := startswith (rev suf) (rev s).
(** [s.find(pat)], with [None] for [-1]. *)
Definition find (pat s : pystr) : option nat := find_by N.eqb pat s.
(** [pat in s] *)
Definition contains (pat s : pystr) : bool := bool_decide (is_Some (find pat s)).

(** [s.find(c, start)] for a one-character [c]. *)
Definition find_from (c : char) (start : nat) (s : pystr) : option nat :=
  (fun i => (start + i)%nat) <$> find [c] (drop start s).

(** [s.rfind(c)] for a one-character [c]. *)
Definition rfind (c : char) (s : pystr) : option nat :=
  (fun i => (length s - 1 - i)%nat) <$> find [c] (rev s).

(** [s.split(sep)] for a one-character separator: never empty. *)
Fixpoint split_on (sep : char) (s : pystr) : list pystr :=
  match s with
  | [] => [[]]
  | c :: s' =>
      let r := split_on sep s' in
      if c =? sep then [] :: r else (c :: hd [] r) :: tl r
  end.

(** [sep.join(l)] *)
Fixpoint join (sep : pystr) (l : list pystr) : pystr :=
  match l with
  | [] => []
  | [x] => x
  | x :: l' => x ++ sep ++ join sep l'
  end.

(** [s.split(c, 1)] when [c in s]: the text before and after the first [c]. *)
Definition split_first (c : char) (s : pystr) : pystr * pystr :=
  (take_while (fun x => negb (x =? c)) s,
   drop 1 (drop_while (fun x => negb (x =? c)) s)).

(** ** [urllib.parse] (CPython 3.11): [urlparse], [urlunparse], [urljoin] *)

Module Urllib.

Record ParseResult := {
  scheme : pystr;
  netloc : pystr;
  path : pystr;
  params : pystr;
  query : pystr;
  fragment : pystr
}.

Definition uses_relative : list pystr :=
  map py [""; "ftp"; "http"; "gopher"; "nntp"; "imap"; "wais"; "file";
          "https"; "shttp"; "mms"; "prospero"; "rtsp"; "rtspu"; "sftp";
          "svn"; "svn+ssh"; "ws"; "wss"].

Definition uses_netloc : list pystr :=
  map py [""; "ftp"; "http"; "gopher"; "nntp"; "telnet"; "imap"; "wais";
          "file"; "mms"; "https"; "shttp"; "snews"; "prospero"; "rtsp";
          "rtspu"; "rsync"; "svn"; "svn+ssh"; "sftp"; "nfs"; "git";
          "git+ssh"; "ws"; "wss"].

Definition uses_params : list pystr :=
  map py [""; "ftp"; "hdl"; "prospero"; "http"; "imap"; "https"; "shttp";
          "rtsp"; "rtspu"; "sip"; "sips"; "mms"; "sftp"; "tel"].

Definition scheme_char (c : char) : bool :=
  is_ascii_alpha c || is_ascii_digit c || char_in (py "+-.") c.

(** [_WHATWG_C0_CONTROL_OR_SPACE] and [_UNSAFE_URL_BYTES_TO_REMOVE] *)
Definition c0_control_or_space (c : char) : bool := c <=? 32.
Definition unsafe_url_byte (c : char) : bool := char_in [9; 13; 10] c.

(** The scheme step of [urlsplit]: a leading [scheme:] made of scheme
    characters, the first an ASCII letter, is split off and lower-cased. *)
Definition split_scheme (dflt url : pystr) : pystr * pystr :=
  match find [ch ":"] url with
  | Some (S i) =>
      if is_ascii_alpha (hd 0 url) && forallb scheme_char (take (S i) url)
      then (ascii_lower (take (S i) url), drop (S (S i)) url)
      else (dflt, url)
  | _ => (dflt, url)
  end.

Definition netloc_delim (c : char) : bool := char_in (py "/?#") c.

(** [_splitnetloc(url, 2)] *)
Definition _splitnetloc (url : pystr) : pystr * pystr :=
  (take_while (fun c => negb (netloc_delim c)) (drop 2 url),
   drop_while (fun c => negb (netloc_delim c)) (drop 2 url)).

(** [_splitparams]; the last case is [url.find(';') == -1], which
    [urlparse] excludes. *)
Definition _splitparams (url : pystr) : pystr * pystr :=
  if contains [ch "/"] url then
    match find_from (ch ";") (default 0%nat (rfind (ch "/") url)) url with
    | None => (url, [])
    | Some i => (take i url, drop (S i) url)
    end
  else
    match find [ch ";"] url with
    | Some i => (take i url, drop (S i) url)
    | None => (removelast url, url)
    end.

Section Parse.
(** The host validation of [urlsplit]: [false] where it raises
    [ValueError] (bracket mismatch, [_check_bracketed_netloc],
    [_checknetloc] with its NFKC table).  It only sees a non-empty
    network location. *)
Variable netloc_ok : pystr -> bool.

(** [urlparse(url, scheme)]; [None] is [ValueError]. *)
Definition urlparse_with (dflt url : pystr) : option ParseResult :=
  let url := filter (fun c => negb (unsafe_url_byte c))
               (lstrip c0_control_or_space url) in
  let dflt := filter (fun c => negb (unsafe_url_byte c))
                (strip c0_control_or_space dflt) in
  let '(sch, url) := split_scheme dflt url in
  let '(net, url) :=
    if startswith (py "//") url then _splitnetloc url else ([], url) in
  let '(url, frag) :=
    if contains [ch "#"] url then split_first (ch "#") url else (url, []) in
  let '(url, qry) :=
    if contains [ch "?"] url then split_first (ch "?") url else (url, []) in
  let '(url, prm) :=
    if bool_decide (sch ∈ uses_params) && contains [ch ";"] url
    then _splitparams url else (url, []) in
  if bool_decide (net = []) || netloc_ok net
  then Some {| scheme := sch; netloc := net; path := url;
               params := prm; query := qry; fragment := frag |}
  else None.

Definition urlparse (url : pystr) : option ParseResult :=
  urlparse_with [] url.

Definition urlunsplit (sch net url qry frag : pystr) : pystr :=
  let url :=
    if negb (bool_decide (net = []))
       || (negb (bool_decide (sch = [])) && bool_decide (sch ∈ uses_netloc)
           && negb (startswith (py "//") url))
    then py "//" ++ net
         ++ (if negb (bool_decide (url = [])) && negb (startswith (py "/") url)
             then py "/" ++ url else url)
    else url in
  let url := if bool_decide (sch = []) then url else sch ++ py ":" ++ url in
  let url := if bool_decide (qry = []) then url else url ++ py "?" ++ qry in
  if bool_decide (frag = []) then url else url ++ py "#" ++ frag.

Definition urlunparse (sch net url prm qry frag : pystr) : pystr :=
  urlunsplit sch net
    (if bool_decide (prm = []) then url else url ++ py ";" ++ prm) qry frag.

(** The dot-segment loop of [urljoin]. *)
Definition resolve_segments (segments : list pystr) : list pystr :=
  fold_left (fun resolved seg =>
               if bool_decide (seg = py "..") then removelast resolved
               else if bool_decide (seg = py ".") then resolved
               else resolved ++ [seg])
            segments [].

(** [segments[1:-1] = filter(None, segments[1:-1])] *)
Definition drop_inner_empty (segments : list pystr) : list pystr :=
  match segments with
  | x :: (_ :: _) as rest =>
      x :: filter (fun s => s ≠ []) (removelast rest) ++ [List.last rest []]
  | _ => segments
  end.

Definition urljoin (base url : pystr) : option pystr :=
  if bool_decide (base = []) then Some url
  else if bool_decide (url = []) then Some base
  else
    b ← urlparse base;
    u ← urlparse_with (scheme b) url;
    if negb (bool_decide (scheme u = scheme b))
       || negb (bool_decide (scheme u ∈ uses_relative))
    then Some url
    else if bool_decide (scheme u ∈ uses_netloc)
            && negb (bool_decide (netloc u = []))
    then Some (urlunparse (scheme u) (netloc u) (path u) (params u)
                 (query u) (fragment u))
    else
      let net := if bool_decide (scheme u ∈ uses_netloc)
                 then netloc b else netloc u in
      if bool_decide (path u = []) && bool_decide (params u = [])
      then Some (urlunparse (scheme u) net (path b) (params b)
                   (if bool_decide (query u = []) then query b else query u)
                   (fragment u))
      else
        let base_parts :=
          let parts := split_on (ch "/") (path b) in
          if bool_decide (List.last parts [] = []) then parts
          else removelast parts in
        let segments :=
          if startswith (py "/") (path u) then split_on (ch "/") (path u)
          else drop_inner_empty (base_parts ++ split_on (ch "/") (path u)) in
        let resolved :=
          resolve_segments segments
          ++ (if bool_decide (List.last segments [] ∈ [py "."; py ".."])
              then [[]] else []) in
        let joined := join (py "/") resolved in
        Some (urlunparse (scheme u) net
                (if bool_decide (joined = []) then py "/" else joined)
                (params u) (query u) (fragment u)).
End Parse.

End Urllib.

(** ** [re] on the literal patterns of the scraper *)

(** [re.IGNORECASE]: does the pattern character [p] (ASCII, or caseless)
    match the text character [c]?  Besides the two ASCII cases, [i]
    matches U+0130 and U+0131, [s] matches U+017F and [k] matches U+212A. *)
Definition re_ieq (p c : char) : bool :=
  (ascii_lower_char p =? ascii_lower_char c)
  || ((ascii_lower_char p =? ch "i") && ((c =? 304) || (c =? 305)))
  || ((ascii_lower_char p =? ch "s") && (c =? 383))
  || ((ascii_lower_char p =? ch "k") && (c =? 8490)).

Definition startswith_ci (lit s : pystr) : bool := startswith_by re_ieq lit s.
Definition contains_ci (lit s : pystr) : bool :=
  bool_decide (is_Some (find_by re_ieq lit s)).
Definition endswith_ci (lit s : pystr) : bool :=
  startswith_by re_ieq (rev lit) (rev s).

(** Index of the first suffix of [s] accepted by [m]: where a pattern whose
    matches are decided by [m] first matches. *)
Fixpoint find_match (m : pystr -> bool) (s : pystr) : option nat :=
  if m s then Some 0%nat
  else match s with
       | [] => None
       | _ :: s' => S <$> find_match m s'
       end.

(** [re.sub(pattern, '', s)] for a pattern that, once it matches, runs to
    the end of [s]: [s] is cut at the first match. *)
Definition re_sub_to_end (m : pystr -> bool) (s : pystr) : pystr :=
  match find_match m s with
  | Some i => take i s
  | None => s
  end.

(** [re.sub(r'\s+', ' ', s)] *)
Fixpoint collapse_whitespace (s : pystr) : pystr :=
  match s with
  | [] => []
  | c :: s' =>
      if is_space c then
        match s' with
        | c' :: _ => if is_space c' then collapse_whitespace s'
                     else 32 :: collapse_whitespace s'
        | [] => [32]
        end
      else c :: collapse_whitespace s'
  end.

(** ** Data *)

(** One entry of [all_faqs]. *)
Record faq := {
  question : pystr;
  answer : pystr;
  sourceUrl : pystr
}.

#[global] Instance faq_eq_dec : EqDecision faq.
Proof. solve_decision. Defined.

(** A crawl target: normalized URL and lower-cased anchor text. *)
Abbreviation link := (pystr * pystr)%type.

(** The instance state of [FAQScraper].  [crawl_log] is not a Python
    attribute: it records, in order, the URLs announced on the console by
    the [Crawling: ...] lines, which are exactly the URLs handed to
    [_fetch_page_sync]. *)
Record scraper := {
  base_url : pystr;
  domain : pystr;
  max_pages : Z;
  visited_urls : gset pystr;
  all_faqs : list faq;
  seen_questions : gset pystr;
  faq_page_found : bool;
  crawl_log : list pystr
}.

Definition set_visited_urls (v : gset pystr) (st : scraper) : scraper :=
  {| base_url := base_url st; domain := domain st; max_pages := max_pages st;
     visited_urls := v; all_faqs := all_faqs st;
     seen_questions := seen_questions st;
     faq_page_found := faq_page_found st; crawl_log := crawl_log st |}.

Definition set_faqs (seen : gset pystr) (faqs : list faq) (st : scraper)
  : scraper :=
  {| base_url := base_url st; domain := domain st; max_pages := max_pages st;
     visited_urls := visited_urls st; all_faqs := faqs;
     seen_questions := seen;
     faq_page_found := faq_page_found st; crawl_log := crawl_log st |}.

Definition set_faq_page_found (b : bool) (st : scraper) : scraper :=
  {| base_url := base_url st; domain := domain st; max_pages := max_pages st;
     visited_urls := visited_urls st; all_faqs := all_faqs st;
     seen_questions := seen_questions st;
     faq_page_found := b; crawl_log := crawl_log st |}.

Definition log_crawl (url : pystr) (st : scraper) : scraper :=
  {| base_url := base_url st; domain := domain st; max_pages := max_pages st;
     visited_urls := visited_urls st; all_faqs := all_faqs st;
     seen_questions := seen_questions st;
     faq_page_found := faq_page_found st;
     crawl_log := crawl_log st ++ [url] |}.

(** The state built by [__init__] once [base_url] and [domain] are known. *)
Definition new_scraper (base dom : pystr) (max : Z) : scraper :=
  {| base_url := base; domain := dom; max_pages := max;
     visited_urls := ∅; all_faqs := []; seen_questions := ∅;
     faq_page_found := false; crawl_log := [] |}.

(** The dictionary returned by [scrape_sync], without the [extractedAt]
    time stamp. *)
Record CrawlResult := {
  website : pystr;
  faqs : list faq;
  pagesProcessed : nat;
  totalFaqsFound : nat;
  faqPageFound : bool
}.

(** ** Parsed documents

    BeautifulSoup is not modelled: a document is given by what the
    scraper's queries return on it, in document order.  Every text below is
    the [get_text(strip=True)] of its node. *)

(** A [details] element: the text of its [summary] if it has one, and the
    texts of the children that are not the summary. *)
Record details_view := {
  d_summary : option pystr;
  d_children : list pystr
}.

(** A class-matched Q/A container: the texts of the first descendant whose
    class matches the question words and of the first whose class matches
    the answer words. *)
Record container_view := {
  c_question : option pystr;
  c_answer : option pystr
}.

(** A sub-heading (h3 to h6): its text and its following siblings, each
    with its tag name and text. *)
Record heading_view := {
  h_text : pystr;
  h_siblings : list (pystr * pystr)
}.

(** A [dl] element: the texts of its [dt] and of its [dd] descendants. *)
Record dl_view := {
  dl_dts : list pystr;
  dl_dds : list pystr
}.

(** An element handed to [_extract_from_faq_element].  [e_md_questions]
    and [e_md_answers] are the [re.findall] results of the two marker
    patterns on [elem.get_text()]. *)
Record element := {
  e_details : list details_view;
  e_containers : list container_view;
  e_headings : list heading_view;
  e_dls : list dl_view;
  e_md_questions : list pystr;
  e_md_answers : list pystr;
  e_paragraphs : list pystr
}.

(** A content node of an FAQ section: a [p] element or any other element. *)
Inductive content :=
| Paragraph (text : pystr)
| Element (e : element).

(** An entry of [mainEntity] in a JSON-LD [FAQPage] block: a [Question]
    with its [name] and [acceptedAnswer.text] (missing ones are empty),
    an entry of another type, or one whose handling raises. *)
Inductive ld_item :=
| LdQuestion (name text : pystr)
| LdOther
| LdRaise.

(** A parsed page: its [a] elements with an [href] (the attribute and the
    text), the [mainEntity] lists of its JSON-LD [FAQPage] scripts, and the
    content lists of the sections [_find_faq_sections] locates. *)
Record document := {
  doc_anchors : list (pystr * pystr);
  doc_ld_json : list (list ld_item);
  doc_sections : list (list content)
}.

(** [for element in soup(["script", "style", "noscript", "iframe"]):
    element.decompose()]: a JSON-LD block is a [script] element, so none
    is left; the other views are those of the remaining tree. *)
Definition decompose_scripts (doc : document) : document :=
  {| doc_anchors := doc_anchors doc; doc_ld_json := [];
     doc_sections := doc_sections doc |}.

(** ** Well-founded orders for the loops *)

Definition inspect {A} (x : A) : {y : A | x = y} := exist _ x eq_refl.

(** Unfolds an accessibility proof [2 ^ n] times without looking at it, so
    that loops over it evaluate. *)
Fixpoint wf_guard {A} {R : A -> A -> Prop} (n : nat) (wf : well_founded R)
  : well_founded R :=
  match n with
  | O => wf
  | S n' => fun x => Acc_intro x (fun y _ => wf_guard n' (wf_guard n' wf) y)
  end.

(** The order under which the full-crawl loop decreases: pages still
    allowed, then frontier length. *)
Definition crawl_order : relation (nat * nat) :=
  Subterm.lexprod nat nat lt lt.

#[local] Instance crawl_order_wf : WellFounded crawl_order :=
  wf_guard 32 (Subterm.wf_lexprod nat nat lt lt lt_wf lt_wf).
#[local] Opaque crawl_order_wf.

(** ** A reference runtime and sample sites

    The scraper below is stated over the interpreter's tables.  The
    examples at the end run it on ASCII data, where [str.lower] is
    [ascii_lower], the decimal digits are [0] to [9], and the hosts are
    plain names. *)

(** The hosts [urlsplit] accepts without a further check: ASCII, no
    bracket.  As a host validation it refuses every other host. *)
Definition plain_netloc (net : pystr) : bool :=
  forallb is_ascii net && negb (existsb (char_in (py "[]")) net).

Definition no_element : element :=
  {| e_details := []; e_containers := []; e_headings := []; e_dls := [];
     e_md_questions := []; e_md_answers := []; e_paragraphs := [] |}.

(** A page whose FAQ section holds one accordion:
    [<details><summary>question</summary><p>answer</p></details>]. *)
Definition accordion_page (question answer : string) : document :=
  {| doc_anchors := []; doc_ld_json := [];
     doc_sections :=
       [[Element
           {| e_details := [{| d_summary := Some (py question);
                               d_children := [py answer] |}];
              e_containers := []; e_headings := []; e_dls := [];
              e_md_questions := []; e_md_answers := [];
              e_paragraphs := [py answer] |}]] |}.

(** A page with links only. *)
Definition link_page (anchors : list (string * string)) : document :=
  {| doc_anchors := map (fun a => (py a.1, py a.2)) anchors;
     doc_ld_json := []; doc_sections := [] |}.

Definition example_base : pystr := py "https://example.com".

(** A site given by its pages; any other URL answers with an error. *)
Definition site (pages : list (string * document)) (url : pystr)
  : option document :=
  snd <$> List.find (fun page => bool_decide (py page.1 = url)) pages.

(** Two homepage links are FAQ links (one by its text, one by its URL);
    a third is not. *)
Definition site_two_faq_links : pystr -> option document :=
  site [("https://example.com",
         link_page [("/faq", "FAQ"); ("/questions", "Ask us");
                    ("/about", "About")]);
        ("https://example.com/faq",
         accordion_page "Do you ship abroad?" "Yes.");
        ("https://example.com/questions",
         accordion_page "Where are you based?" "In Lisbon.");
        ("https://example.com/about", link_page [])].

(** One FAQ link, whose page has a record. *)
Definition site_one_faq_link : pystr -> option document :=
  site [("https://example.com",
         link_page [("/faq", "FAQ"); ("/about", "About")]);
        ("https://example.com/faq",
         accordion_page "Do you ship abroad?" "Yes.");
        ("https://example.com/about", link_page [])].

(** One FAQ link, whose page answers with an error. *)
Definition site_broken_faq_link : pystr -> option document :=
  site [("https://example.com", link_page [("/faq", "FAQ")])].

(** The homepage has a record itself and no FAQ link. *)
Definition site_faq_on_homepage : pystr -> option document :=
  site [("https://example.com",
         {| doc_anchors := [(py "/about", py "About"); (py "/team", py "Team")];
            doc_ld_json := [];
            doc_sections :=
              doc_sections (accordion_page "Do you ship abroad?" "Yes.") |});
        ("https://example.com/about", link_page []);
        ("https://example.com/team", link_page [])].

(** An element with an accordion, a class-based container and a
    definition list, each with a short answer. *)
Definition short_answers_element : element :=
  {| e_details := [{| d_summary := Some (py "Do you ship abroad?");
                      d_children := [py "Yes."] |}];
     e_containers := [{| c_question := Some (py "Where are you based?");
                         c_answer := Some (py "In Lisbon.") |}];
     e_headings := [];
     e_dls := [{| dl_dts := [py "When do you open?"];
                  dl_dds := [py "At nine."] |}];
     e_md_questions := []; e_md_answers := []; e_paragraphs := [] |}.

(** Two accordions with the same summary and different answers. *)
Definition twin_accordions : element :=
  {| e_details := [{| d_summary := Some (py "Do you ship abroad?");
                      d_children := [py "Yes, to every country."] |};
                   {| d_summary := Some (py "Do you ship abroad?");
                      d_children := [py "No, not at the moment."] |}];
     e_containers := []; e_headings := []; e_dls := [];
     e_md_questions := []; e_md_answers := []; e_paragraphs := [] |}.

(** A homepage with an FAQ accordion and one anchor whose [href] has a
    bracket that is never closed. *)
Definition site_bad_link : pystr -> option document :=
  site [("https://example.com",
         {| doc_anchors := [(py "http://[", py "Broken")];
            doc_ld_json := [];
            doc_sections :=
              doc_sections (accordion_page "Do you ship abroad?" "Yes.") |})].

(** No page answers. *)
Definition site_down : pystr -> option document := site [].

(** The homepage links to itself. *)
Definition site_self_link : pystr -> option document :=
  site [("https://example.com", link_page [("/", "Home")]);
        ("https://example.com/", link_page [("/", "Home")])].

(** The homepage links to [/support], whose page has the relative link
    [billing]. *)
Definition site_nested_link : pystr -> option document :=
  site [("https://example.com", link_page [("/support", "Support")]);
        ("https://example.com/support", link_page [("billing", "Billing")]);
        ("https://example.com/billing", link_page [])].

(** A page with the anchors [anchors] and one accordion in its FAQ
    section. *)
Definition linked_accordion_page (anchors : list (string * string))
  (question answer : string) : document :=
  {| doc_anchors := doc_anchors (link_page anchors);
     doc_ld_json := [];
     doc_sections := doc_sections (accordion_page question answer) |}.

(** The homepage has two anchors to [/help]: the first with the text
    [Help], the second with the text [FAQ]. *)
Definition site_shadowed_faq_anchor : pystr -> option document :=
  site [("https://example.com",
         link_page [("/help", "Help"); ("/help", "FAQ"); ("/about", "About")]);
        ("https://example.com/help",
         accordion_page "Do you ship abroad?" "Yes.");
        ("https://example.com/about", link_page [])].

(** The crawl starts at [/faq], a page that holds an accordion and an
    anchor with the text [FAQ] to itself. *)
Definition site_faq_start_page : pystr -> option document :=
  site [("https://example.com/faq",
         linked_accordion_page [("/faq", "FAQ"); ("/about", "About")]
           "Do you ship abroad?" "Yes.");
        ("https://example.com/about", link_page [])].

(** A page whose only FAQ is a JSON-LD [FAQPage] block. *)
Definition schema_page : document :=
  {| doc_anchors := [];
     doc_ld_json := [[LdQuestion (py "Do you ship abroad?")
                        (py "Yes, to every country.")]];
     doc_sections := [] |}.

Definition site_with_schema : pystr -> option document :=
  site [("https://example.com", schema_page)].

(** ** The scraper *)

Section Scraper.

(** [str.lower], from the interpreter's Unicode tables. *)
Variable str_lower : pystr -> pystr.
(** [\d] of [re] on [str] patterns: Unicode category Nd. *)
Variable is_decimal : char -> bool.
(** The host validation of [urlsplit] (see [Urllib]). *)
Variable netloc_ok : pystr -> bool.
(** The site as [requests.get] and [BeautifulSoup(html, "html.parser")]
    show it: the parsed page behind a URL, or [None] when the status is 400
    or more or the request raises.  A crawl requests a URL at most once. *)
Variable web : pystr -> option document.

Local Abbreviation urlparse := (Urllib.urlparse netloc_ok).
Local Abbreviation urljoin := (Urllib.urljoin netloc_ok).

(** *** URL validator and normalizer *)

(** A pattern of [skip_patterns]: a literal, alone or followed by [$]. *)
Inductive url_pattern :=
| Anywhere (lit : pystr)
| AtEnd (lit : pystr).

Definition url_skip_patterns : list url_pattern :=
  map Anywhere (map py ["utm_"; "fbclid"; "gclid"; "#"; "javascript:";
                        "mailto:"; "tel:"])
  ++ map AtEnd (map py [".pdf"; ".jpg"; ".png"; ".gif"; ".svg"; ".css";
                        ".js"; ".zip"; ".mp4"; ".mp3"; ".doc"; ".xls"]).

(** [re.search(pattern, url, re.IGNORECASE)]; [$] matches at the end and
    before a line break that ends the string. *)
Definition re_search_ci (p : url_pattern) (url : pystr) : bool :=
  match p with
  | Anywhere lit => contains_ci lit url
  | AtEnd lit => endswith_ci lit url || endswith_ci (lit ++ [10]) url
  end.

(** The depth rule of [_is_valid_internal_url]: [false] when the path,
    stripped of slashes, splits into more than one part. *)
Definition path_depth_ok (path : pystr) : bool :=
  let path := strip (N.eqb (ch "/")) path in
  if bool_decide (path = []) then true
  else negb (1 <? length (split_on (ch "/") path))%nat.

Definition _is_valid_internal_url (self : scraper) (url : pystr)
  : option bool :=
  if bool_decide (url = []) then Some false
  else
    parsed ← urlparse url;
    if negb (bool_decide (Urllib.scheme parsed = []))
       && negb (bool_decide (Urllib.scheme parsed ∈ [py "http"; py "https"]))
    then Some false
    else if existsb (fun p => re_search_ci p url) url_skip_patterns
    then Some false
    else if negb (bool_decide (Urllib.netloc parsed = []))
            && negb (bool_decide (Urllib.netloc parsed = domain self))
    then Some false
    else if negb (path_depth_ok (Urllib.path parsed))
    then Some false
    else Some true.

(** Starts with [http://] or [https://]. *)
Definition is_http_url (url : pystr) : bool :=
  startswith (py "http://") url || startswith (py "https://") url.

(** The first step of [_normalize_url]: a URL that is not an absolute
    http(s) URL is joined to the base URL. *)
Definition absolute_url (self : scraper) (url : pystr) : option pystr :=
  if is_http_url url then Some url else urljoin (base_url self) url.

Definition _normalize_url (self : scraper) (url : pystr) : option pystr :=
  url ← absolute_url self url;
  parsed ← urlparse url;
  let path := rstrip (N.eqb (ch "/")) (Urllib.path parsed) in
  let path := if bool_decide (path = []) then py "/" else path in
  Some (Urllib.scheme parsed ++ py "://" ++ Urllib.netloc parsed ++ path).

(** *** Link extractor *)

(** The first loop of [_extract_links_with_text]. *)
Fixpoint collect_links (self : scraper) (anchors : list (pystr * pystr))
  : option (list link) :=
  match anchors with
  | [] => Some []
  | (href, text) :: rest =>
      full_url ← _normalize_url self href;
      valid ← _is_valid_internal_url self full_url;
      links ← collect_links self rest;
      Some (if valid && negb (bool_decide (full_url ∈ visited_urls self))
            then (full_url, str_lower text) :: links
            else links)
  end.

(** The second loop: the first link of each URL is kept. *)
Fixpoint unique_links (seen : gset pystr) (links : list link) : list link :=
  match links with
  | [] => []
  | (url, text) :: rest =>
      if bool_decide (url ∈ seen) then unique_links seen rest
      else (url, text) :: unique_links ({[url]} ∪ seen) rest
  end.

Definition _extract_links_with_text (self : scraper) (soup : document)
  : option (list link) :=
  unique_links ∅ <$> collect_links self (doc_anchors soup).

(** *** FAQ signal detector *)

Definition faq_url_patterns : list pystr :=
  map py ["/faq"; "/faqs"; "/frequently-asked"; "/help/faq"; "/support/faq";
          "faq."; "/questions"; "/q-and-a"; "/qa"].

Definition faq_text_patterns : list pystr :=
  map py ["faq"; "frequently asked"; "questions"; "q&a"; "help center"].

Definition _is_faq_link (url link_text : pystr) : bool :=
  existsb (fun p => contains p (str_lower url)) faq_url_patterns
  || existsb (fun p => contains p (str_lower link_text)) faq_text_patterns.

Definition faq_heading_patterns : list pystr :=
  map py ["faq"; "faqs"; "f.a.q"; "f.a.q.s"; "frequently asked questions";
          "frequently asked"; "common questions"; "questions & answers";
          "questions and answers"; "q&a"; "q & a"; "have questions";
          "got questions"].

Definition _is_faq_heading (text : pystr) : bool :=
  existsb (fun p => contains p (strip is_space (str_lower text)))
          faq_heading_patterns.

(** *** Text cleaning *)

(** The characters of [text.strip('•·-–—*#')]. *)
Definition decoration (c : char) : bool :=
  char_in [8226; 183; 45; 8211; 8212; 42; 35] c.

(** [noise_patterns], each as the test "the pattern matches here".  The
    text has no line break left when they run, so [.*$] reaches its end and
    [$] is its end. *)
Definition noise_patterns : list (pystr -> bool) :=
  [ startswith_ci (py "Subscribe Newsletter");
    startswith_ci (py "Sign up to get");
    (fun t => match t with
              | c :: sp :: d1 :: d2 :: d3 :: d4 :: _ =>
                  (c =? 169) && (sp =? 32) && is_decimal d1 && is_decimal d2
                  && is_decimal d3 && is_decimal d4
              | _ => false
              end);
    startswith_ci (py "All Rights Reserved");
    (fun t => startswith_ci (py "Privacy Policy") t
              && contains_ci (py "Terms") (drop 14 t));
    (fun t => startswith_ci (py "To Top") t && (length t =? 6)%nat) ].

Definition _normalize_text (text : pystr) : pystr :=
  if bool_decide (text = []) then []
  else
    let text := strip is_space (collapse_whitespace text) in
    let text := strip decoration text in
    let text := fold_left (fun t m => re_sub_to_end m t) noise_patterns text in
    strip is_space text.

(** *** English heuristic

    The source compares the double [non_ascii / total_letters] with the
    double [0.3].  For a text of fewer than [2 ^ 50] characters that is the
    exact comparison [10 * non_ascii < 3 * total_letters], which is what is
    written here: a quotient of at least [3/10] never rounds below the
    double [0.3], and a smaller one is below it by [1 / (10 * total)], more
    than the spacing of doubles there. *)
Definition _is_english (text : pystr) : bool :=
  if bool_decide (text = []) then false
  else
    let ascii_letters := length (filter (fun c => is_ascii_alpha c) text) in
    let non_ascii := length (filter (fun c => negb (is_ascii c)) text) in
    let total_letters := (ascii_letters + non_ascii)%nat in
    if (total_letters =? 0)%nat then true
    else (10 * non_ascii <? 3 * total_letters)%nat.

(** *** Normalizer and deduplicator *)

(** The first [re.sub] of [_add_faq], whose pattern is [^], an optional
    [b] or [B], then an optional double or single quote: at most these two
    leading characters go. *)
Definition strip_string_prefix (question : pystr) : pystr :=
  let question :=
    match question with
    | c :: rest => if char_in (py "bB") c then rest else question
    | [] => []
    end in
  match question with
  | c :: rest => if char_in [34; 39] c then rest else question
  | [] => []
  end.

(** [re.sub(r'^\d+[\)\.\:\s]*(?=[A-Za-z])', '', question)]: the digits and
    the marks after them go when an ASCII letter follows. *)
Definition strip_leading_number (question : pystr) : pystr :=
  let rest := drop_while is_decimal question in
  let after := drop_while (fun c => char_in (py ").:") c || is_space c) rest in
  if negb (bool_decide (take_while is_decimal question = []))
     && is_ascii_alpha (hd 0 after)
  then after else question.

Definition faq_skip_patterns : list pystr :=
  map py ["forgot your password"; "reset password"; "sign in"; "log in";
          "create account"; "register"; "subscribe"; "newsletter";
          "contact us"; "get in touch"].

(** The question as [_add_faq] stores it. *)
Definition clean_question (question : pystr) : pystr :=
  strip is_space
    (strip_leading_number (strip is_space (strip_string_prefix question))).

(** [question.lower().strip()] *)
Definition question_key (question : pystr) : pystr :=
  strip is_space (str_lower question).

Definition _add_faq (self : scraper) (question answer source_url : pystr)
  : scraper :=
  if negb (_is_english question) || negb (_is_english answer) then self
  else
    let question := clean_question question in
    let q_normalized := question_key question in
    if existsb (fun p => contains p q_normalized) faq_skip_patterns then self
    else if negb (bool_decide (q_normalized = []))
            && negb (bool_decide (q_normalized ∈ seen_questions self))
            && (5 <? length question)%nat
    then set_faqs ({[q_normalized]} ∪ seen_questions self)
           (all_faqs self ++ [{| question := question; answer := answer;
                                 sourceUrl := source_url |}])
           self
    else self.

(** *** Multi-strategy extractor *)

(** [question and answer], as the condition of an [if]. *)
Definition both_nonempty (question answer : pystr) : bool :=
  negb (bool_decide (question = [])) && negb (bool_decide (answer = [])).

Definition question_words : list pystr :=
  map py ["can "; "do "; "does "; "is "; "are "; "how "; "what "; "why ";
          "when "; "where "; "will "; "should "].

(** The test of the paragraph strategies for "looks like a question". *)
Definition looks_like_question (p_text : pystr) : bool :=
  endswith (py "?") p_text
  || existsb (fun w => startswith w (str_lower p_text)) question_words.

(** The inner [while j < len(paragraphs)] loop started at [j]: the texts
    it appends to [answer_parts]; it leaves [j] advanced by their number. *)
Definition answer_run (paragraphs : list pystr) (j : nat) : list pystr :=
  take_while (fun t => negb (looks_like_question t)) (drop j paragraphs).

(** The paragraph loop, [while i < bound], shared by
    [_extract_from_paragraph_list] and by the last pattern of
    [_extract_from_faq_element]. *)
Equations? scan_paragraphs (self : scraper) (paragraphs : list pystr)
  (url : pystr) (bound i : nat) : scraper by wf (bound - i)%nat lt :=
scan_paragraphs self paragraphs url bound i with decide (i < bound)%nat => {
  | right _ => self
  | left _ =>
      if looks_like_question (nth i paragraphs [])
      then
        scan_paragraphs
          (let question := _normalize_text (nth i paragraphs []) in
           let answer :=
             _normalize_text (join (py " ") (answer_run paragraphs (i + 1))) in
           if both_nonempty question answer && (20 <? length answer)%nat
           then _add_faq self question answer url else self)
          paragraphs url bound
          (i + 1 + length (answer_run paragraphs (i + 1)))%nat
      else scan_paragraphs self paragraphs url bound (i + 1)%nat }.
Proof. all: lia. Qed.

Definition _extract_from_paragraph_list (self : scraper)
  (paragraphs : list pystr) (url : pystr) : scraper :=
  scan_paragraphs self paragraphs url (length paragraphs) 0.

(** [_extract_schema_faqs] on one script: an entry that raises ends the
    [try] block, keeping what was added before it. *)
Fixpoint schema_items (self : scraper) (items : list ld_item) (url : pystr)
  : scraper :=
  match items with
  | [] => self
  | LdQuestion name text :: rest =>
      let q := _normalize_text name in
      let a := _normalize_text text in
      schema_items (if both_nonempty q a then _add_faq self q a url else self)
        rest url
  | LdOther :: rest => schema_items self rest url
  | LdRaise :: _ => self
  end.

Definition _extract_schema_faqs (self : scraper) (soup : document)
  (url : pystr) : scraper :=
  fold_left (fun self items => schema_items self items url)
    (doc_ld_json soup) self.

(** Pattern 1: details/summary. *)
Definition extract_details (self : scraper) (elem : element) (url : pystr)
  : scraper :=
  fold_left
    (fun self details =>
       match d_summary details with
       | Some summary =>
           let question := _normalize_text summary in
           let answer :=
             _normalize_text (join (py " ") (d_children details)) in
           if both_nonempty question answer
           then _add_faq self question answer url else self
       | None => self
       end)
    (e_details elem) self.

(** Pattern 2: class-based Q/A containers. *)
Definition extract_containers (self : scraper) (elem : element) (url : pystr)
  : scraper :=
  fold_left
    (fun self container =>
       match c_question container, c_answer container with
       | Some q_elem, Some a_elem =>
           let question := _normalize_text q_elem in
           let answer := _normalize_text a_elem in
           if both_nonempty question answer
           then _add_faq self question answer url else self
       | _, _ => self
       end)
    (e_containers elem) self.

Definition heading_names : list pystr :=
  map py ["h1"; "h2"; "h3"; "h4"; "h5"; "h6"].

(** [re.sub(r'^\d+\.\s*', '', question)] *)
Definition strip_ordinal (question : pystr) : pystr :=
  let rest := drop_while is_decimal question in
  if negb (bool_decide (take_while is_decimal question = []))
     && (hd 0 rest =? ch ".")
  then drop_while is_space (drop 1 rest) else question.

(** The [answer_parts] of pattern 3: the non-empty texts of the [p] and
    [div] siblings before the next heading. *)
Definition sibling_answer_parts (siblings : list (pystr * pystr))
  : list pystr :=
  filter (fun text => text ≠ [])
    (map snd
       (filter (fun s => s.1 ∈ [py "p"; py "div"])
          (take_while (fun s => negb (bool_decide (s.1 ∈ heading_names)))
             siblings))).

(** Pattern 3: heading followed by paragraphs or divs. *)
Definition extract_headings (self : scraper) (elem : element) (url : pystr)
  : scraper :=
  fold_left
    (fun self heading =>
       if _is_faq_heading (h_text heading) then self
       else
         let answer :=
           _normalize_text
             (join (py " ") (sibling_answer_parts (h_siblings heading))) in
         let question := strip_ordinal (_normalize_text (h_text heading)) in
         if both_nonempty question answer && (20 <? length answer)%nat
         then _add_faq self question answer url else self)
    (e_headings elem) self.

(** Pattern 4: definition lists; [dts[i]] goes with [dds[i]]. *)
Definition extract_dls (self : scraper) (elem : element) (url : pystr)
  : scraper :=
  fold_left
    (fun self dl =>
       fold_left
         (fun self '(i, dt) =>
            let question := _normalize_text dt in
            match dl_dds dl !! i with
            | Some dd =>
                let answer := _normalize_text dd in
                if both_nonempty question answer
                then _add_faq self question answer url else self
            | None => self
            end)
         (imap pair (dl_dts dl)) self)
    (e_dls elem) self.

(** Pattern 5: [FAQ Question] / [FAQ Answer] markers, paired by index. *)
Definition extract_markers (self : scraper) (elem : element) (url : pystr)
  : scraper :=
  fold_left
    (fun self '(i, q) =>
       let q_clean := _normalize_text q in
       match e_md_answers elem !! i with
       | Some a =>
           let a_clean := _normalize_text a in
           if both_nonempty q_clean a_clean && (20 <? length a_clean)%nat
           then _add_faq self q_clean a_clean url else self
       | None => self
       end)
    (imap pair (e_md_questions elem)) self.

(** Pattern 6: paragraph pairs, [while i < len(paragraphs) - 1]. *)
Definition extract_paragraphs (self : scraper) (elem : element) (url : pystr)
  : scraper :=
  scan_paragraphs self (e_paragraphs elem) url
    (length (e_paragraphs elem) - 1) 0.

Definition _extract_from_faq_element (self : scraper) (elem : element)
  (url : pystr) : scraper :=
  let self := extract_details self elem url in
  let self := extract_containers self elem url in
  let self := extract_headings self elem url in
  let self := extract_dls self elem url in
  let self := extract_markers self elem url in
  extract_paragraphs self elem url.

(** The paragraphs among the content nodes of a section. *)
Definition section_paragraphs (section : list content) : list pystr :=
  omap (fun node => match node with
                    | Paragraph text => Some text
                    | Element _ => None
                    end) section.

Definition _extract_faqs_from_page (self : scraper) (soup : document)
  (url : pystr) : scraper :=
  let self := _extract_schema_faqs self soup url in
  fold_left
    (fun self section =>
       let self :=
         fold_left (fun self node =>
                      match node with
                      | Paragraph _ => self
                      | Element elem => _extract_from_faq_element self elem url
                      end) section self in
       if bool_decide (section_paragraphs section = []) then self
       else _extract_from_paragraph_list self (section_paragraphs section) url)
    (doc_sections soup) self.

(** *** Fetching *)

(** [_fetch_page_sync]: [None] for a failed request and for an exception
    raised while the links are extracted. *)
Definition _fetch_page_sync (self : scraper) (url : pystr)
  : option (document * list link) :=
  html ← web url;
  let soup := decompose_scripts html in
  links ← _extract_links_with_text self soup;
  Some (soup, links).

(** *** What extraction can change

    Every extractor reaches the state only through [_add_faq], and each
    call site guards the pair it passes.  A property of the state that
    survives the guarded calls therefore survives the extractor.  The loop
    of the full crawl needs this (extraction leaves [visited_urls] alone)
    before it can be defined. *)

Lemma both_nonempty_true question answer :
  both_nonempty question answer = true -> question <> [] /\ answer <> [].
Proof using Type.
  unfold both_nonempty.
  rewrite andb_true_iff, !negb_true_iff, !bool_decide_eq_false. tauto.
Qed.

(** Settles a call site: either its guard fails and the state is kept, or
    the guard yields what the closure hypothesis asks for. *)
Ltac guarded_add Hadd :=
  cbv zeta;
  let Hg := fresh "Hg" in
  let Hne := fresh "Hne" in
  let Hlen := fresh "Hlen" in
  let Hq := fresh "Hq" in
  let Ha := fresh "Ha" in
  match goal with
  | |- context [both_nonempty ?q ?a && (20 <? length ?a)%nat] =>
      destruct (both_nonempty q a && (20 <? length a)%nat) eqn:Hg;
      [ apply andb_true_iff in Hg as [Hne Hlen];
        apply both_nonempty_true in Hne as [Hq Ha];
        apply Nat.ltb_lt in Hlen; now apply Hadd
      | assumption ]
  | |- context [both_nonempty ?q ?a] =>
      destruct (both_nonempty q a) eqn:Hg;
      [ apply both_nonempty_true in Hg as [Hq Ha]; now apply Hadd
      | assumption ]
  end.

Section Closed.

Variable P : scraper -> Prop.
Variable url : pystr.

(** The calls of the strategies that only ask for two non-empty texts. *)
Definition closed_under_adds : Prop :=
  forall self q a, q <> [] -> a <> [] -> P self -> P (_add_faq self q a url).

(** The calls of the strategies that also ask for a long answer. *)
Definition closed_under_long_adds : Prop :=
  forall self q a, q <> [] -> a <> [] -> (20 < length a)%nat ->
    P self -> P (_add_faq self q a url).

Lemma closed_under_adds_long : closed_under_adds -> closed_under_long_adds.
Proof using Type. intros H self q a Hq Ha _. now apply H. Qed.

Lemma scan_paragraphs_closed :
  closed_under_long_adds ->
  forall paragraphs bound i self,
    P self -> P (scan_paragraphs self paragraphs url bound i).
Proof using Type.
  intros Hadd paragraphs bound i self.
  funelim (scan_paragraphs self paragraphs url bound i); intros HP.
  - destruct (looks_like_question (nth i paragraphs [])).
    + apply H; [assumption|]. guarded_add Hadd.
    + now apply H0.
  - assumption.
Qed.

Lemma fold_left_closed {A} (f : scraper -> A -> scraper) (l : list A) :
  (forall self x, P self -> P (f self x)) ->
  forall self, P self -> P (fold_left f l self).
Proof using Type.
  intros Hf. induction l as [|x l IH]; intros self HP; simpl; [assumption|].
  apply IH, Hf, HP.
Qed.

Lemma schema_items_closed :
  closed_under_adds ->
  forall items self, P self -> P (schema_items self items url).
Proof using Type.
  intros Hadd items. induction items as [|[name text| |] rest IH];
    intros self HP; simpl; try assumption; [|now apply IH].
  apply IH. guarded_add Hadd.
Qed.

Lemma extract_schema_faqs_closed :
  closed_under_adds ->
  forall soup self, P self -> P (_extract_schema_faqs self soup url).
Proof using Type.
  intros Hadd soup. apply fold_left_closed.
  intros self items. now apply schema_items_closed.
Qed.

Lemma extract_details_closed :
  closed_under_adds ->
  forall elem self, P self -> P (extract_details self elem url).
Proof using Type.
  intros Hadd elem. apply fold_left_closed. intros self d HP.
  destruct (d_summary d); [|assumption]. guarded_add Hadd.
Qed.

Lemma extract_containers_closed :
  closed_under_adds ->
  forall elem self, P self -> P (extract_containers self elem url).
Proof using Type.
  intros Hadd elem. apply fold_left_closed. intros self c HP.
  destruct (c_question c); [|assumption].
  destruct (c_answer c); [|assumption]. guarded_add Hadd.
Qed.

Lemma extract_headings_closed :
  closed_under_long_adds ->
  forall elem self, P self -> P (extract_headings self elem url).
Proof using Type.
  intros Hadd elem. apply fold_left_closed. intros self h HP.
  destruct (_is_faq_heading _); [assumption|]. guarded_add Hadd.
Qed.

Lemma extract_dls_closed :
  closed_under_adds ->
  forall elem self, P self -> P (extract_dls self elem url).
Proof using Type.
  intros Hadd elem. apply fold_left_closed. intros self dl.
  apply fold_left_closed. intros self' [i dt] HP.
  destruct (dl_dds dl !! i); [|assumption]. guarded_add Hadd.
Qed.

Lemma extract_markers_closed :
  closed_under_long_adds ->
  forall elem self, P self -> P (extract_markers self elem url).
Proof using Type.
  intros Hadd elem. apply fold_left_closed. intros self [i q] HP.
  destruct (e_md_answers elem !! i); [|assumption]. guarded_add Hadd.
Qed.

Lemma extract_paragraphs_closed :
  closed_under_long_adds ->
  forall elem self, P self -> P (extract_paragraphs self elem url).
Proof using Type. intros Hadd elem self. now apply scan_paragraphs_closed. Qed.

Lemma extract_from_faq_element_closed :
  closed_under_adds ->
  forall elem self, P self -> P (_extract_from_faq_element self elem url).
Proof using Type.
  intros Hadd elem self HP. unfold _extract_from_faq_element.
  pose proof (closed_under_adds_long Hadd) as Hlong.
  apply extract_paragraphs_closed, extract_markers_closed,
    extract_dls_closed, extract_headings_closed, extract_containers_closed,
    extract_details_closed; assumption.
Qed.

Lemma extract_faqs_from_page_closed :
  closed_under_adds ->
  forall soup self, P self -> P (_extract_faqs_from_page self soup url).
Proof using Type.
  intros Hadd soup self HP. unfold _extract_faqs_from_page.
  apply fold_left_closed; [|now apply extract_schema_faqs_closed].
  intros self' section HP'.
  assert (P (fold_left
               (fun self node =>
                  match node with
                  | Paragraph _ => self
                  | Element elem => _extract_from_faq_element self elem url
                  end) section self')) as Hnodes.
  { apply fold_left_closed; [|assumption].
    intros s [text|elem] Hs; [assumption|].
    now apply extract_from_faq_element_closed. }
  case_bool_decide; [assumption|].
  apply scan_paragraphs_closed; [|assumption].
  now apply closed_under_adds_long.
Qed.

End Closed.

(** [_add_faq] writes [all_faqs] and [seen_questions] only. *)
Definition same_frontier (a b : scraper) : Prop :=
  base_url b = base_url a /\ domain b = domain a
  /\ max_pages b = max_pages a /\ visited_urls b = visited_urls a
  /\ faq_page_found b = faq_page_found a /\ crawl_log b = crawl_log a.

Lemma add_faq_same_frontier self q a url :
  same_frontier self (_add_faq self q a url).
Proof using Type.
  unfold _add_faq, same_frontier.
  repeat match goal with |- context [if ?c then _ else _] => destruct c end;
    simpl; tauto.
Qed.

Lemma extract_faqs_from_page_frontier self soup url :
  same_frontier self (_extract_faqs_from_page self soup url).
Proof using Type.
  apply (extract_faqs_from_page_closed (same_frontier self)).
  - intros s q a _ _ Hs.
    pose proof (add_faq_same_frontier s q a url) as Hf.
    unfold same_frontier in *. intuition congruence.
  - unfold same_frontier. tauto.
Qed.

(** *** Crawl orchestrator *)

(** [self.visited_urls.add(url)] and the [Crawling: ...] line after it. *)
Definition visit (url : pystr) (self : scraper) : scraper :=
  log_crawl url (set_visited_urls ({[url]} ∪ visited_urls self) self).

(** The start of [scrape_sync]: the homepage is marked, fetched and
    searched; the result is the state and [all_links_with_text]. *)
Definition fetch_homepage (self : scraper) : scraper * list link :=
  let self := visit (base_url self) self in
  match _fetch_page_sync self (base_url self) with
  | Some (soup, links_with_text) =>
      (_extract_faqs_from_page self soup (base_url self), links_with_text)
  | None => (self, [])
  end.

(** The body of [for faq_url, _ in faq_links]. *)
Definition crawl_faq_link (self : scraper) (l : link) : scraper :=
  if bool_decide (l.1 ∈ visited_urls self) then self
  else
    let self := visit l.1 self in
    match _fetch_page_sync self l.1 with
    | Some (soup, _) =>
        set_faq_page_found true (_extract_faqs_from_page self soup l.1)
    | None => self
    end.

(** One turn of [while to_crawl and len(self.visited_urls) < self.max_pages];
    [None] when the loop is left. *)
Definition crawl_step (self : scraper) (to_crawl : list link)
  : option (scraper * list link) :=
  match to_crawl with
  | [] => None
  | (url, _) :: to_crawl =>
      if bool_decide (Z.of_nat (size (visited_urls self)) < max_pages self)%Z
      then
        if bool_decide (url ∈ visited_urls self) then Some (self, to_crawl)
        else
          let self := visit url self in
          match _fetch_page_sync self url with
          | Some (soup, links_with_text) =>
              let self := _extract_faqs_from_page self soup url in
              Some (self,
                    to_crawl
                    ++ filter (fun l => l.1 ∉ visited_urls self)
                         links_with_text)
          | None => Some (self, to_crawl)
          end
      else None
  end.

Definition crawl_measure (self : scraper) (to_crawl : list link) : nat * nat :=
  (Z.to_nat (max_pages self - Z.of_nat (size (visited_urls self))),
   length to_crawl).

Lemma crawl_step_decreases self to_crawl self' to_crawl' :
  crawl_step self to_crawl = Some (self', to_crawl') ->
  crawl_order (crawl_measure self' to_crawl') (crawl_measure self to_crawl).
Proof using Type.
  unfold crawl_step, crawl_measure, crawl_order.
  destruct to_crawl as [|[url text] rest]; [discriminate|].
  case_bool_decide as Hroom; [|discriminate].
  case_bool_decide as Hseen.
  - intros [= <- <-]. right. simpl. lia.
  - assert (size ({[url]} ∪ visited_urls self) = S (size (visited_urls self)))
      as Hsize.
    { rewrite size_union by set_solver. now rewrite size_singleton. }
    destruct (_fetch_page_sync _ url) as [[soup links]|]; intros [= <- <-].
    + destruct (extract_faqs_from_page_frontier (visit url self) soup url)
        as (_ & _ & -> & -> & _).
      left. simpl. rewrite Hsize. lia.
    + left. simpl. rewrite Hsize. lia.
Qed.

(** The full-site loop. *)
Equations? crawl_all (self : scraper) (to_crawl : list link) : scraper
  by wf (crawl_measure self to_crawl) crawl_order :=
crawl_all self to_crawl with inspect (crawl_step self to_crawl) => {
  | exist _ None _ => self
  | exist _ (Some (self', to_crawl')) Hstep => crawl_all self' to_crawl' }.
Proof. now apply crawl_step_decreases. Qed.

(** [scrape_sync] up to its [return]: the final state. *)
Definition scrape_sync_state (self : scraper) : scraper :=
  let '(self, all_links_with_text) := fetch_homepage self in
  let faq_links :=
    filter (fun l => _is_faq_link l.1 l.2) all_links_with_text in
  let self :=
    match faq_links with
    | [] => self
    | _ :: _ => fold_left crawl_faq_link faq_links self
    end in
  if bool_decide (all_faqs self = [])
  then crawl_all self
         (filter (fun l => l.1 ∉ visited_urls self) all_links_with_text)
  else self.

Definition result_of (self : scraper) : CrawlResult :=
  {| website := base_url self;
     faqs := all_faqs self;
     pagesProcessed := size (visited_urls self);
     totalFaqsFound := length (all_faqs self);
     faqPageFound := faq_page_found self |}.

Definition scrape_sync (self : scraper) : CrawlResult :=
  result_of (scrape_sync_state self).

(** [FAQScraper.__init__]; [None] when [urlparse] raises. *)
Definition FAQScraper (website_url : pystr) (max : Z) : option scraper :=
  let base := rstrip (N.eqb (ch "/")) website_url in
  parsed ← urlparse base;
  Some (new_scraper base (Urllib.netloc parsed) max).

Definition run_scraper (url : pystr) (max : Z) : option CrawlResult :=
  scrape_sync <$> FAQScraper url max.

(** *** The [/scrape] route *)

(** What the route answers: the JSON of a crawl result, the error
    [URL is required] with status 400, or the text of an exception with
    status 500. *)
Inductive response :=
| Ok200 (result : CrawlResult)
| Error400
| Error500.

(** The handler [scrape] of the route, on a request whose JSON body has
    the string [url] and the integer [max_pages] under [url] and
    [maxPages]. *)
Definition scrape (url : pystr) (max_pages : Z) : response :=
  let url := strip is_space url in
  if bool_decide (url = []) then Error400
  else
    let url := if is_http_url url then url else py "https://" ++ url in
    match run_scraper url max_pages with
    | Some result => Ok200 result
    | None => Error500
    end.

(** The homepage links of a crawl and those classified as FAQ links. *)
Definition homepage_links (self : scraper) : list link :=
  (fetch_homepage self).2.

Definition homepage_faq_links (self : scraper) : list link :=
  filter (fun l => _is_faq_link l.1 l.2) (homepage_links self).

(** ** Properties *)

(** *** Strings *)

Lemma drop_while_app_take_while {A} (p : A -> bool) (l : list A) :
  take_while p l ++ drop_while p l = l.
Proof using Type.
  induction l as [|x l IH]; simpl; [reflexivity|].
  destruct (p x); simpl; [now rewrite IH | reflexivity].
Qed.

Lemma take_while_Forall {A} (p : A -> bool) (l : list A) :
  Forall (fun x => p x = true) (take_while p l).
Proof using Type.
  induction l as [|x l IH]; simpl; [constructor|].
  destruct (p x) eqn:Hp; constructor; assumption.
Qed.

Lemma drop_while_head {A} (p : A -> bool) (l : list A) x rest :
  drop_while p l = x :: rest -> p x = false.
Proof using Type.
  induction l as [|y l IH]; simpl; [discriminate|].
  destruct (p y) eqn:Hp; [assumption|]. now intros [= <- _].
Qed.

Lemma drop_while_idem {A} (p : A -> bool) (l : list A) :
  drop_while p (drop_while p l) = drop_while p l.
Proof using Type.
  destruct (drop_while p l) as [|x rest] eqn:Hd; [reflexivity|].
  simpl. now rewrite (drop_while_head _ _ _ _ Hd).
Qed.

Lemma drop_while_all {A} (p : A -> bool) (l : list A) :
  Forall (fun x => p x = true) l -> drop_while p l = [].
Proof using Type.
  induction 1 as [|x l Hx _ IH]; simpl; [reflexivity|]. now rewrite Hx.
Qed.

Lemma drop_while_none {A} (p : A -> bool) (l : list A) x :
  p x = false -> drop_while p (x :: l) = x :: l.
Proof using Type. intros Hx. simpl. now rewrite Hx. Qed.

Lemma take_while_all {A} (p : A -> bool) (l : list A) :
  Forall (fun x => p x = true) l -> take_while p l = l.
Proof using Type.
  induction 1 as [|x l Hx _ IH]; simpl; [reflexivity|]. now rewrite Hx, IH.
Qed.

Lemma take_while_app_stop {A} (p : A -> bool) (l : list A) x rest :
  Forall (fun y => p y = true) l -> p x = false ->
  take_while p (l ++ x :: rest) = l /\ drop_while p (l ++ x :: rest) = x :: rest.
Proof using Type.
  intros Hl Hx. induction Hl as [|y l Hy _ [IH1 IH2]]; simpl.
  - now rewrite Hx.
  - now rewrite Hy, IH1, IH2.
Qed.

Lemma rstrip_idem p s : rstrip p (rstrip p s) = rstrip p s.
Proof using Type. unfold rstrip. now rewrite rev_involutive, drop_while_idem. Qed.

(** [rstrip] removes a run of stripped characters from the end. *)
Lemma rstrip_decompose p s :
  exists tail, s = rstrip p s ++ tail /\ Forall (fun c => p c = true) tail.
Proof using Type.
  exists (rev (take_while p (rev s))). split.
  - unfold rstrip. rewrite <- rev_app_distr, drop_while_app_take_while.
    now rewrite rev_involutive.
  - apply Forall_rev, take_while_Forall.
Qed.

Lemma rstrip_last p s init c :
  rstrip p s = init ++ [c] -> p c = false.
Proof using Type.
  unfold rstrip. intros H.
  apply (f_equal (@rev _)) in H. rewrite rev_involutive, rev_app_distr in H.
  simpl in H. now apply drop_while_head in H.
Qed.

Lemma rstrip_keeps p s c :
  p c = false -> rstrip p (s ++ [c]) = s ++ [c].
Proof using Type.
  intros Hc. unfold rstrip. rewrite rev_app_distr. simpl.
  rewrite Hc. simpl. now rewrite rev_involutive.
Qed.

Lemma startswith_by_eq pre s :
  startswith pre s = true -> s = pre ++ drop (length pre) s.
Proof using Type.
  unfold startswith. revert s.
  induction pre as [|p pre IH]; intros [|c s]; simpl; try easy.
  rewrite andb_true_iff. intros [Hpc Hrest].
  apply N.eqb_eq in Hpc as ->. f_equal. now apply IH.
Qed.

Lemma startswith_app pre s : startswith pre (pre ++ s) = true.
Proof using Type.
  unfold startswith. induction pre as [|p pre IH]; simpl; [reflexivity|].
  now rewrite N.eqb_refl, IH.
Qed.

Lemma find_char_none c s :
  find [c] s = None <-> Forall (fun x => x <> c) s.
Proof using Type.
  unfold find. induction s as [|x s IH]; simpl.
  - split; [constructor | reflexivity].
  - rewrite andb_true_r. destruct (c =? x) eqn:Hcx.
    + apply N.eqb_eq in Hcx as ->. split; [discriminate|].
      intros H. inversion H; subst. congruence.
    + apply N.eqb_neq in Hcx.
      destruct (find_by N.eqb [c] s); simpl.
      * split; [discriminate|]. intros H. inversion H; subst.
        now apply IH in H3.
      * split; [|reflexivity]. intros _. constructor; [congruence|].
        now apply IH.
Qed.

Lemma contains_char_false c s :
  contains [c] s = false <-> Forall (fun x => x <> c) s.
Proof using Type.
  unfold contains. rewrite bool_decide_eq_false, <- find_char_none.
  rewrite <- eq_None_not_Some. reflexivity.
Qed.

Lemma filter_keep_all {A} (P : A -> Prop) `{!forall x, Decision (P x)}
  (l : list A) : Forall P l -> filter P l = l.
Proof using Type.
  induction 1 as [|x l Hx _ IH]; [reflexivity|].
  now rewrite filter_cons_True, IH.
Qed.

Lemma filter_drop_all {A} (P : A -> Prop) `{!forall x, Decision (P x)}
  (l : list A) : Forall (fun x => ~ P x) l -> filter P l = [].
Proof using Type.
  induction 1 as [|x l Hx _ IH]; [reflexivity|].
  now rewrite filter_cons_False.
Qed.

(** *** English heuristic *)

(** C6 (as amended).  [_is_english] answers [False] exactly for the empty
    text and for a text whose non-ASCII characters are at least three
    tenths of its ASCII letters and non-ASCII characters together.  So a
    non-empty text with no character of either kind is English, the empty
    text is not, and [_add_faq] leaves the state alone when the question
    has non-ASCII characters only. *)
Theorem is_english_threshold (text : pystr) :
  let ascii_letters := length (filter (fun c => is_ascii_alpha c) text) in
  let non_ascii := length (filter (fun c => negb (is_ascii c)) text) in
  (_is_english text = false <->
     text = []
     \/ (0 < ascii_letters + non_ascii
         /\ 3 * (ascii_letters + non_ascii) <= 10 * non_ascii)%nat)
  /\ (text <> [] -> (ascii_letters + non_ascii = 0)%nat ->
      _is_english text = true)
  /\ _is_english [] = false
  /\ (forall self answer url,
        Forall (fun c => is_ascii c = false) text ->
        _add_faq self text answer url = self).
Proof using Type.
  cbv zeta. unfold _is_english.
  set (letters := length (filter (fun c => is_ascii_alpha c) text)).
  set (others := length (filter (fun c => negb (is_ascii c)) text)).
  assert (Hgen : _is_english text = false <->
            text = [] \/ (0 < letters + others
                          /\ 3 * (letters + others) <= 10 * others)%nat).
  { unfold _is_english. fold letters others.
    case_bool_decide as Hnil; [tauto|].
    destruct (letters + others =? 0)%nat eqn:Hzero.
    - apply Nat.eqb_eq in Hzero. split; [discriminate|].
      intros [?|[? _]]; [contradiction | lia].
    - apply Nat.eqb_neq in Hzero. rewrite Nat.ltb_ge.
      split; [intros; right; lia | intros [?|[_ ?]]; [contradiction | lia]]. }
  split; [exact Hgen|]. split; [|split].
  - intros Hne Hzero. case_bool_decide; [contradiction|].
    apply Nat.eqb_eq in Hzero. now rewrite Hzero.
  - reflexivity.
  - intros self answer url Hall. unfold _add_faq.
    assert (_is_english text = false) as ->; [|reflexivity].
    apply Hgen. destruct text as [|c text']; [now left | right].
    assert (letters = 0%nat) as ->.
    { subst letters. rewrite filter_drop_all; [reflexivity|].
      eapply Forall_impl; [exact Hall|]. simpl. intros x Hx.
      unfold is_ascii_alpha, is_ascii_upper, is_ascii_lower, is_ascii in *.
      apply N.ltb_ge in Hx. intros Habs. apply Is_true_true in Habs.
      rewrite orb_true_iff, !andb_true_iff, !N.leb_le in Habs. lia. }
    assert (others = length (c :: text')) as ->.
    { subst others. rewrite filter_keep_all; [reflexivity|].
      eapply Forall_impl; [exact Hall|]. simpl. intros x ->. exact I. }
    simpl. lia.
Qed.

(** *** The string-prefix step of [_add_faq] *)

(** What is left of a question once its leading [b] or [B] is gone: an
    opening quote goes with it. *)
Definition after_leading_b (rest : pystr) : pystr :=
  match rest with
  | c :: rest' => if char_in [34; 39] c then rest' else rest
  | [] => []
  end.

(** C9.  A question that starts with [b] or [B] loses that character, and
    a single or double quote right after it: [_add_faq] either leaves the
    state alone or stores the record, and the key in [seen_questions],
    computed from the shortened question. *)
Theorem add_faq_drops_leading_b self (c : char) (rest answer url : pystr) :
  c = ch "b" \/ c = ch "B" ->
  strip_string_prefix (c :: rest) = after_leading_b rest
  /\ clean_question (c :: rest)
     = strip is_space
         (strip_leading_number (strip is_space (after_leading_b rest)))
  /\ (_add_faq self (c :: rest) answer url = self
      \/ _add_faq self (c :: rest) answer url
         = set_faqs
             ({[question_key (clean_question (c :: rest))]}
              ∪ seen_questions self)
             (all_faqs self
              ++ [{| question := clean_question (c :: rest);
                     answer := answer; sourceUrl := url |}])
             self).
Proof using Type.
  intros Hc.
  assert (strip_string_prefix (c :: rest) = after_leading_b rest) as Hprefix.
  { unfold strip_string_prefix, after_leading_b.
    destruct Hc as [-> | ->]; reflexivity. }
  split; [exact Hprefix|]. split.
  - unfold clean_question. now rewrite Hprefix.
  - unfold _add_faq.
    repeat match goal with
           | |- context [if ?b then _ else _] => destruct b
           end; auto.
Qed.

(** *** What one [_add_faq] call does *)

(** The record a call stores, when it stores one. *)
Definition stored_record (question answer url : pystr) : faq :=
  {| question := clean_question question; answer := answer;
     sourceUrl := url |}.

Lemma add_faq_cases self q a url :
  _add_faq self q a url = self
  \/ (_add_faq self q a url
      = set_faqs ({[question_key (clean_question q)]} ∪ seen_questions self)
          (all_faqs self ++ [stored_record q a url]) self
      /\ (question_key (clean_question q) ∉ seen_questions self)
      /\ (5 < length (clean_question q))%nat).
Proof using Type.
  unfold _add_faq.
  destruct (negb (_is_english q) || negb (_is_english a)); [now left|].
  destruct (existsb _ faq_skip_patterns); [now left|].
  destruct (negb (bool_decide (question_key (clean_question q) = []))
            && negb (bool_decide
                       (question_key (clean_question q) ∈ seen_questions self))
            && (5 <? length (clean_question q))%nat) eqn:Hcond; [|now left].
  right. rewrite !andb_true_iff, !negb_true_iff in Hcond.
  destruct Hcond as [[_ Hseen] Hlen].
  apply bool_decide_eq_false in Hseen. apply Nat.ltb_lt in Hlen.
  split; [reflexivity | split; assumption].
Qed.


(** *** The crawl only reaches the state through a few writes *)

Lemma crawl_all_closed (P : scraper -> Prop) :
  (forall self to_crawl self' to_crawl',
     P self -> crawl_step self to_crawl = Some (self', to_crawl') -> P self') ->
  forall self to_crawl, P self -> P (crawl_all self to_crawl).
Proof using Type.
  intros Hkeep self to_crawl.
  funelim (crawl_all self to_crawl); intros HP; [|assumption].
  match goal with
  | IH : forall Q : scraper -> Prop, _ |- _ => apply IH; [exact Hkeep|]
  end.
  eapply Hkeep; eassumption.
Qed.

Section CrawlClosed.

Variable P : scraper -> Prop.
Hypothesis P_adds : forall url, closed_under_adds P url.
Hypothesis P_visit : forall self url, P self -> P (visit url self).
Hypothesis P_found : forall self b, P self -> P (set_faq_page_found b self).

Lemma fetch_homepage_closed self : P self -> P (fetch_homepage self).1.
Proof using P_adds P_visit.
  intros HP. unfold fetch_homepage.
  destruct (_fetch_page_sync _ _) as [[soup links]|]; simpl.
  - apply extract_faqs_from_page_closed; auto.
  - auto.
Qed.

Lemma crawl_faq_link_closed self l : P self -> P (crawl_faq_link self l).
Proof using P_adds P_visit P_found.
  intros HP. unfold crawl_faq_link.
  case_bool_decide; [assumption|].
  destruct (_fetch_page_sync _ _) as [[soup links]|]; [|auto].
  apply P_found, extract_faqs_from_page_closed; auto.
Qed.

Lemma crawl_step_closed self to_crawl self' to_crawl' :
  P self -> crawl_step self to_crawl = Some (self', to_crawl') -> P self'.
Proof using P_adds P_visit.
  intros HP. unfold crawl_step.
  destruct to_crawl as [|[url text] rest]; [discriminate|].
  case_bool_decide; [|discriminate].
  case_bool_decide; [now intros [= <- _]|].
  destruct (_fetch_page_sync _ _) as [[soup links]|]; intros [= <- _].
  - apply extract_faqs_from_page_closed; auto.
  - auto.
Qed.

Lemma scrape_sync_state_closed self : P self -> P (scrape_sync_state self).
Proof using P_adds P_visit P_found.
  intros HP. unfold scrape_sync_state.
  pose proof (fetch_homepage_closed self HP) as Hhome.
  destruct (fetch_homepage self) as [home links]. simpl in Hhome.
  set (faq_links := filter (fun l => _is_faq_link l.1 l.2) links).
  assert (P (match faq_links with
             | [] => home
             | _ :: _ => fold_left crawl_faq_link faq_links home
             end)) as Hfaq.
  { destruct faq_links; [assumption|].
    apply fold_left_closed; [|assumption].
    intros s l. apply crawl_faq_link_closed. }
  case_bool_decide; [|assumption].
  apply crawl_all_closed; [|assumption].
  intros s q s' q'. apply crawl_step_closed.
Qed.

End CrawlClosed.

(** *** Deduplication *)

(** The comparison key of a stored record. *)
Definition record_key (r : faq) : pystr := question_key (question r).

(** The keys of the stored records are distinct and all seen. *)
Definition dedup_inv (self : scraper) : Prop :=
  NoDup (map record_key (all_faqs self))
  /\ forall r, r ∈ all_faqs self -> record_key r ∈ seen_questions self.

Lemma add_faq_dedup self q a url :
  dedup_inv self -> dedup_inv (_add_faq self q a url).
Proof using Type.
  intros [Hnodup Hseen].
  destruct (add_faq_cases self q a url) as [-> | (-> & Hfresh & _)];
    [now split|].
  split; simpl.
  - rewrite map_app. apply NoDup_app. split; [assumption|]. split.
    + intros key Hkey Hnew. simpl in Hnew.
      apply list_elem_of_singleton in Hnew. subst key.
      apply list_elem_of_In, in_map_iff in Hkey as (r & Hr & Hin).
      apply Hfresh. unfold stored_record, record_key in Hr. simpl in Hr.
      rewrite <- Hr. apply Hseen, list_elem_of_In, Hin.
    + apply NoDup_singleton.
  - intros r Hr. apply elem_of_app in Hr as [Hr | Hr].
    + apply elem_of_union_r, Hseen, Hr.
    + apply list_elem_of_singleton in Hr. subst r.
      apply elem_of_union_l, elem_of_singleton. reflexivity.
Qed.

Lemma scrape_sync_state_dedup self :
  dedup_inv self -> dedup_inv (scrape_sync_state self).
Proof using Type.
  apply scrape_sync_state_closed.
  - intros url s q a _ _. apply add_faq_dedup.
  - intros s url Hs. exact Hs.
  - intros s b Hs. exact Hs.
Qed.


(** *** Lengths of the stored texts *)

(** [after] extends the records of [before] by records that satisfy [Q]. *)
Definition appends (Q : faq -> Prop) (before after : scraper) : Prop :=
  exists added,
    all_faqs after = all_faqs before ++ added /\ Forall Q added.

Lemma appends_refl Q self : appends Q self self.
Proof using Type. exists []. split; [now rewrite app_nil_r | constructor]. Qed.

Lemma appends_add Q before self q a url :
  ((5 < length (clean_question q))%nat -> Q (stored_record q a url)) ->
  appends Q before self -> appends Q before (_add_faq self q a url).
Proof using Type.
  intros HQ (added & Heq & Hall).
  destruct (add_faq_cases self q a url) as [-> | (-> & _ & Hlen)];
    [now exists added|].
  exists (added ++ [stored_record q a url]). simpl. split.
  - now rewrite Heq, app_assoc.
  - apply Forall_app. split; [assumption|]. constructor; [auto | constructor].
Qed.

(** A record with a question of more than 5 and an answer of more than 20
    characters. *)
Definition long_answer (r : faq) : Prop :=
  (5 < length (question r))%nat /\ (20 < length (answer r))%nat.

Lemma appends_long_closed before url :
  closed_under_long_adds (appends long_answer before) url.
Proof using Type.
  intros self q a _ _ Hlen. apply appends_add. intros Hq. now split.
Qed.

(** C3 (as amended).  Every record a crawl returns has a question of more
    than 5 characters and a non-empty answer.  The records added by the
    heading strategy, the marker strategy and the paragraph strategy (in
    both its uses) have an answer of more than 20 characters; the
    accordion, container and definition-list strategies only ask for a
    non-empty answer. *)
Theorem record_lengths (base dom : pystr) (max : Z) :
  Forall (fun r => (5 < length (question r))%nat /\ answer r <> [])
    (faqs (scrape_sync (new_scraper base dom max)))
  /\ (forall self elem url,
        appends long_answer self (extract_headings self elem url))
  /\ (forall self elem url,
        appends long_answer self (extract_markers self elem url))
  /\ (forall self elem url,
        appends long_answer self (extract_paragraphs self elem url))
  /\ (forall self paragraphs url,
        appends long_answer self
          (_extract_from_paragraph_list self paragraphs url)).
Proof using Type.
  split; [|repeat split].
  - apply (scrape_sync_state_closed
             (fun s => Forall (fun r => (5 < length (question r))%nat
                                        /\ answer r <> []) (all_faqs s))).
    + intros url self q a _ Ha Hall.
      destruct (add_faq_cases self q a url) as [-> | (-> & _ & Hlen)];
        [assumption|].
      simpl. apply Forall_app. split; [assumption|].
      constructor; [now split | constructor].
    + intros self url Hall. exact Hall.
    + intros self b Hall. exact Hall.
    + constructor.
  - intros self elem url.
    apply extract_headings_closed;
      [apply appends_long_closed | apply appends_refl].
  - intros self elem url.
    apply extract_markers_closed;
      [apply appends_long_closed | apply appends_refl].
  - intros self elem url.
    apply extract_paragraphs_closed;
      [apply appends_long_closed | apply appends_refl].
  - intros self paragraphs url. unfold _extract_from_paragraph_list.
    apply scan_paragraphs_closed;
      [apply appends_long_closed | apply appends_refl].
Qed.

(** *** Pages processed *)

Lemma size_add_le (url : pystr) (visited : gset pystr) :
  (size ({[url]} ∪ visited) <= S (size visited))%nat.
Proof using Type.
  rewrite size_union_alt, size_singleton.
  apply le_n_S, subseteq_size, subseteq_difference_l. reflexivity.
Qed.

Lemma size_add_fresh (url : pystr) (visited : gset pystr) :
  url ∉ visited -> size ({[url]} ∪ visited) = S (size visited).
Proof using Type.
  intros Hfresh. rewrite size_union by set_solver.
  now rewrite size_singleton.
Qed.

(** Fetching the homepage marks it and touches nothing else of the
    frontier. *)
Lemma fetch_homepage_frontier self :
  same_frontier (visit (base_url self) self) (fetch_homepage self).1.
Proof using Type.
  unfold fetch_homepage.
  destruct (_fetch_page_sync _ _) as [[soup links]|]; simpl.
  - apply extract_faqs_from_page_frontier.
  - unfold same_frontier. tauto.
Qed.

(** One FAQ link: either it was visited already and nothing happens, or it
    is marked and logged. *)
Lemma crawl_faq_link_frontier self l :
  base_url (crawl_faq_link self l) = base_url self
  /\ domain (crawl_faq_link self l) = domain self
  /\ max_pages (crawl_faq_link self l) = max_pages self
  /\ ((l.1 ∈ visited_urls self /\ crawl_faq_link self l = self)
      \/ ((l.1 ∉ visited_urls self)
          /\ visited_urls (crawl_faq_link self l)
             = {[l.1]} ∪ visited_urls self
          /\ crawl_log (crawl_faq_link self l) = crawl_log self ++ [l.1])).
Proof using Type.
  unfold crawl_faq_link. case_bool_decide as Hseen; [tauto|].
  destruct (_fetch_page_sync _ _) as [[soup links]|]; simpl.
  - destruct (extract_faqs_from_page_frontier (visit l.1 self) soup l.1)
      as (-> & -> & -> & -> & _ & ->). simpl. tauto.
  - tauto.
Qed.

Lemma crawl_faq_links_size faq_links self :
  max_pages (fold_left crawl_faq_link faq_links self) = max_pages self
  /\ (size (visited_urls (fold_left crawl_faq_link faq_links self))
      <= size (visited_urls self) + length faq_links)%nat.
Proof using Type.
  revert self. induction faq_links as [|l rest IH]; intros self; simpl;
    [split; [reflexivity | lia]|].
  destruct (IH (crawl_faq_link self l)) as [Hmax Hsize].
  destruct (crawl_faq_link_frontier self l)
    as (_ & _ & Hmax' & [[_ Hsame] | (_ & Hvisited & _)]).
  - rewrite Hsame in *. split; [assumption | lia].
  - split; [congruence|]. rewrite Hvisited in Hsize.
    pose proof (size_add_le l.1 (visited_urls self)). lia.
Qed.

(** The full-site loop never marks a page once [max_pages] are marked. *)
Lemma crawl_all_size self to_crawl :
  (Z.of_nat (size (visited_urls (crawl_all self to_crawl)))
   <= Z.max (Z.of_nat (size (visited_urls self))) (max_pages self))%Z.
Proof using Type.
  apply (crawl_all_closed
           (fun s => max_pages s = max_pages self
                     /\ (Z.of_nat (size (visited_urls s))
                         <= Z.max (Z.of_nat (size (visited_urls self)))
                              (max_pages self))%Z));
    [|split; [reflexivity | lia]].
  intros s q s' q' [Hmax Hsize]. unfold crawl_step.
  destruct q as [|[url text] rest]; [discriminate|].
  case_bool_decide as Hroom; [|discriminate].
  case_bool_decide as Hseen; [now intros [= <- _]|].
  pose proof (size_add_fresh url (visited_urls s) Hseen) as Hone.
  destruct (_fetch_page_sync _ _) as [[soup links]|]; intros [= <- _].
  - destruct (extract_faqs_from_page_frontier (visit url s) soup url)
      as (_ & _ & -> & -> & _). simpl. split; [assumption | lia].
  - simpl. split; [assumption | lia].
Qed.

(** C1 (as amended).  The pages processed are at most [max_pages] or, when
    that is more, the homepage and one page per homepage link classified
    as an FAQ link: only the full-site loop checks [max_pages]. *)
Theorem pages_processed_bound (base dom : pystr) (max : Z) :
  (Z.of_nat (pagesProcessed (scrape_sync (new_scraper base dom max)))
   <= Z.max max
        (1 + Z.of_nat (length (homepage_faq_links (new_scraper base dom max)))))%Z.
Proof using Type.
  unfold scrape_sync, scrape_sync_state, homepage_faq_links, homepage_links.
  pose proof (fetch_homepage_frontier (new_scraper base dom max)) as Hhome.
  destruct (fetch_homepage (new_scraper base dom max)) as [home links].
  simpl in Hhome. destruct Hhome as (_ & _ & Hmax & Hvisited & _).
  simpl in Hmax, Hvisited.
  assert (size (visited_urls home) = 1%nat) as Hone.
  { rewrite Hvisited, union_empty_r_L. apply size_singleton. }
  simpl.
  set (faq_links := filter (fun l => _is_faq_link l.1 l.2) links).
  set (focused := match faq_links with
                  | [] => home
                  | _ :: _ => fold_left crawl_faq_link faq_links home
                  end).
  assert (max_pages focused = max
          /\ (size (visited_urls focused) <= 1 + length faq_links)%nat)
    as [Hmax' Hsize].
  { subst focused. destruct faq_links as [|l rest] eqn:Hlinks;
      [split; [assumption | lia]|].
    rewrite <- Hlinks.
    destruct (crawl_faq_links_size faq_links home) as [-> Hle].
    split; [assumption | lia]. }
  case_bool_decide.
  - pose proof (crawl_all_size focused
                  (filter (fun l => l.1 ∉ visited_urls focused) links)).
    simpl. lia.
  - simpl. lia.
Qed.

(** *** Links *)

Lemma unique_links_spec seen links :
  NoDup (map fst (unique_links seen links))
  /\ forall l, l ∈ unique_links seen links -> l ∈ links /\ l.1 ∉ seen.
Proof using Type.
  revert seen. induction links as [|[url text] rest IH]; intros seen; simpl.
  - split; [constructor | intros l Hl; inversion Hl].
  - case_bool_decide as Hseen.
    + destruct (IH seen) as [Hnodup Hin]. split; [assumption|].
      intros l Hl. destruct (Hin l Hl). split; [now right | assumption].
    + destruct (IH ({[url]} ∪ seen)) as [Hnodup Hin]. split.
      * simpl. constructor; [|assumption].
        intros Hdup.
        apply list_elem_of_In, in_map_iff in Hdup as ([url' text'] & Heq & Hl).
        simpl in Heq. subst url'.
        apply list_elem_of_In, Hin in Hl as [_ Hfresh].
        apply Hfresh, elem_of_union_l, elem_of_singleton. reflexivity.
      * intros l [-> | Hl]%elem_of_cons; [split; [now left | assumption]|].
        destruct (Hin l Hl) as [Hrest Hfresh].
        split; [now right|].
        intros Habs. apply Hfresh, elem_of_union_r, Habs.
Qed.

Lemma collect_links_unvisited self anchors links :
  collect_links self anchors = Some links ->
  forall l, l ∈ links -> l.1 ∉ visited_urls self.
Proof using Type.
  revert links. induction anchors as [|[href text] rest IH]; intros links;
    simpl.
  - intros [= <-] l Hl. inversion Hl.
  - destruct (_normalize_url self href) as [full_url|]; [|discriminate].
    simpl. destruct (_is_valid_internal_url self full_url) as [valid|];
      [|discriminate].
    simpl. destruct (collect_links self rest) as [links'|]; [|discriminate].
    simpl. intros [= <-] l.
    destruct (valid && negb (bool_decide (full_url ∈ visited_urls self)))
      eqn:Hkeep; [|now apply (IH links')].
    intros [-> | Hl]%elem_of_cons; [|now apply (IH links')].
    apply andb_true_iff in Hkeep as [_ Hfresh].
    apply negb_true_iff, bool_decide_eq_false in Hfresh. exact Hfresh.
Qed.

(** The links a fetch returns: one per URL, none of them visited. *)
Lemma fetch_links_fresh self url soup links :
  _fetch_page_sync self url = Some (soup, links) ->
  NoDup (map fst links) /\ forall l, l ∈ links -> l.1 ∉ visited_urls self.
Proof using Type.
  unfold _fetch_page_sync, _extract_links_with_text.
  destruct (web url) as [html|]; [|discriminate]. simpl.
  destruct (collect_links self _) as [collected|] eqn:Hcollect;
    [|discriminate].
  simpl. intros [= _ <-].
  destruct (unique_links_spec ∅ collected) as [Hnodup Hin].
  split; [assumption|]. intros l Hl. destruct (Hin l Hl) as [Hl' _].
  eapply collect_links_unvisited; eassumption.
Qed.

(** Whether a fetch succeeds does not depend on what was visited: only
    the kept links do. *)
Lemma collect_links_succeeds self self' anchors :
  base_url self' = base_url self -> domain self' = domain self ->
  is_Some (collect_links self anchors) ->
  is_Some (collect_links self' anchors).
Proof using Type.
  intros Hbase Hdom. induction anchors as [|[href text] rest IH]; simpl;
    [intros _; eexists; reflexivity|].
  unfold _normalize_url, absolute_url, _is_valid_internal_url in *.
  rewrite Hbase, Hdom.
  destruct (if is_http_url href then Some href
            else Urllib.urljoin netloc_ok (base_url self) href)
    as [abs|]; simpl; [|intros [? [=]]].
  destruct (Urllib.urlparse netloc_ok abs) as [parsed|]; simpl;
    [|intros [? [=]]].
  match goal with
  | |- is_Some (?valid ≫= _) -> _ =>
      destruct valid as [ok|]; simpl; [|intros [? [=]]]
  end.
  destruct (collect_links self rest) as [links|]; simpl; [|intros [? [=]]].
  intros _. destruct IH as [links' ->]; [eexists; reflexivity|].
  simpl. eexists; reflexivity.
Qed.

Lemma fetch_succeeds_indep self self' url :
  base_url self' = base_url self -> domain self' = domain self ->
  is_Some (_fetch_page_sync self url) ->
  is_Some (_fetch_page_sync self' url).
Proof using Type.
  intros Hbase Hdom. unfold _fetch_page_sync, _extract_links_with_text.
  destruct (web url) as [html|]; simpl; [|intros [? [=]]].
  destruct (collect_links self _) as [links|] eqn:Hlinks; simpl;
    [|intros [? [=]]].
  intros _.
  edestruct (collect_links_succeeds self self') as [links' Hlinks'];
    [exact Hbase | exact Hdom | rewrite Hlinks; eexists; reflexivity|].
  rewrite Hlinks'. simpl. eexists; reflexivity.
Qed.

(** *** The FAQ-focused branch *)

(** The records an extraction adds carry the URL it was given. *)
Lemma extract_faqs_from_page_source self soup url :
  appends (fun r => sourceUrl r = url) self
    (_extract_faqs_from_page self soup url).
Proof using Type.
  apply extract_faqs_from_page_closed; [|apply appends_refl].
  intros s q a _ _. apply appends_add. reflexivity.
Qed.

(** One FAQ link that was not visited yet. *)
Lemma crawl_faq_link_fresh ref self l :
  base_url self = base_url ref -> domain self = domain ref ->
  l.1 ∉ visited_urls self ->
  base_url (crawl_faq_link self l) = base_url self
  /\ domain (crawl_faq_link self l) = domain self
  /\ visited_urls (crawl_faq_link self l) = {[l.1]} ∪ visited_urls self
  /\ crawl_log (crawl_faq_link self l) = crawl_log self ++ [l.1]
  /\ (faq_page_found (crawl_faq_link self l) = true <->
        faq_page_found self = true \/ is_Some (_fetch_page_sync ref l.1)).
Proof using Type.
  intros Hbase Hdom Hfresh. unfold crawl_faq_link.
  case_bool_decide; [contradiction|].
  destruct (_fetch_page_sync (visit l.1 self) l.1) as [[soup links]|]
    eqn:Hfetch.
  - destruct (extract_faqs_from_page_frontier (visit l.1 self) soup l.1)
      as (Hb & Hd & _ & Hv & _ & Hl). simpl.
    rewrite Hb, Hd, Hv, Hl. simpl. repeat split; try reflexivity.
    intros _. right.
    apply (fetch_succeeds_indep (visit l.1 self) ref);
      [simpl; congruence | simpl; congruence
      | rewrite Hfetch; eexists; reflexivity].
  - simpl. repeat split; try reflexivity; [tauto|].
    intros [Hfound | Hsome]; [assumption|].
    apply (fetch_succeeds_indep ref (visit l.1 self)) in Hsome;
      [|simpl; congruence | simpl; congruence].
    rewrite Hfetch in Hsome. destruct Hsome as [? [=]].
Qed.

Lemma crawl_faq_links_fresh ref faq_links self :
  base_url self = base_url ref -> domain self = domain ref ->
  NoDup (map fst faq_links) ->
  (forall l, l ∈ faq_links -> l.1 ∉ visited_urls self) ->
  crawl_log (fold_left crawl_faq_link faq_links self)
    = crawl_log self ++ map fst faq_links
  /\ (forall l, l ∈ faq_links ->
        l.1 ∈ visited_urls (fold_left crawl_faq_link faq_links self))
  /\ visited_urls self ⊆ visited_urls (fold_left crawl_faq_link faq_links self)
  /\ (faq_page_found (fold_left crawl_faq_link faq_links self) = true <->
        faq_page_found self = true
        \/ exists l, l ∈ faq_links /\ is_Some (_fetch_page_sync ref l.1)).
Proof using Type.
  revert self. induction faq_links as [|l rest IH];
    intros self Hbase Hdom Hnodup Hfresh; simpl.
  - rewrite app_nil_r. split; [reflexivity|].
    split; [intros l Hl; inversion Hl|]. split; [reflexivity|].
    split; [now left|].
    intros [?|(l & Hl & _)]; [assumption | inversion Hl].
  - inversion Hnodup as [|? ? Hhead Htail]; subst.
    destruct (crawl_faq_link_fresh ref self l Hbase Hdom)
      as (Hb & Hd & Hv & Hlog & Hfound); [apply Hfresh; now left|].
    destruct (IH (crawl_faq_link self l)) as (IHlog & IHin & IHsub & IHfound);
      [congruence | congruence | assumption | |].
    { intros l' Hl'. rewrite Hv.
      intros [Heq%elem_of_singleton | Hold]%elem_of_union.
      - apply Hhead. rewrite <- Heq.
        apply list_elem_of_In, in_map, list_elem_of_In, Hl'.
      - revert Hold. apply Hfresh. now right. }
    split; [|split; [|split; [|split]]].
    + rewrite IHlog, Hlog, <- app_assoc. reflexivity.
    + intros l' [-> | Hl']%elem_of_cons; [|now apply IHin].
      apply IHsub. rewrite Hv. apply elem_of_union_l, elem_of_singleton.
      reflexivity.
    + intros u Hu. apply IHsub. rewrite Hv. now apply elem_of_union_r.
    + intros Hf. apply IHfound in Hf as [Hf | (l' & Hl' & Hsome)].
      * apply Hfound in Hf as [Hf | Hsome]; [now left|].
        right. exists l. split; [now left | assumption].
      * right. exists l'. split; [now right | assumption].
    + intros [Hf | (l' & Hl' & Hsome)]; apply IHfound.
      * left. apply Hfound. now left.
      * apply elem_of_cons in Hl' as [-> | Hl'].
        -- left. apply Hfound. now right.
        -- right. exists l'. split; assumption.
Qed.

(** Through the FAQ-focused branch, a record of another page than the
    homepage is there only once a dedicated page was fetched. *)
Lemma crawl_faq_links_sources base faq_links self :
  (forall r, r ∈ all_faqs self -> sourceUrl r <> base ->
     faq_page_found self = true) ->
  forall r, r ∈ all_faqs (fold_left crawl_faq_link faq_links self) ->
    sourceUrl r <> base ->
    faq_page_found (fold_left crawl_faq_link faq_links self) = true.
Proof using Type.
  apply (fold_left_closed
           (fun s => forall r, r ∈ all_faqs s -> sourceUrl r <> base ->
                       faq_page_found s = true)).
  intros s l Hs. unfold crawl_faq_link.
  case_bool_decide; [assumption|].
  destruct (_fetch_page_sync _ _) as [[soup links]|]; [reflexivity|].
  exact Hs.
Qed.

(** The full-site loop leaves [faq_page_found] alone. *)
Lemma crawl_all_found self to_crawl :
  faq_page_found (crawl_all self to_crawl) = faq_page_found self.
Proof using Type.
  apply (crawl_all_closed
           (fun s => faq_page_found s = faq_page_found self));
    [|reflexivity].
  intros s q s' q' Hs. unfold crawl_step.
  destruct q as [|[url text] rest]; [discriminate|].
  case_bool_decide; [|discriminate].
  case_bool_decide; [now intros [= <- _]|].
  destruct (_fetch_page_sync _ _) as [[soup links]|]; intros [= <- _].
  - destruct (extract_faqs_from_page_frontier (visit url s) soup url)
      as (_ & _ & _ & _ & -> & _). exact Hs.
  - exact Hs.
Qed.

(** The links of the homepage are distinct and none is the homepage. *)
Lemma homepage_links_fresh self :
  NoDup (map fst (homepage_links self))
  /\ forall l, l ∈ homepage_links self ->
       l.1 ∉ visited_urls (fetch_homepage self).1.
Proof using Type.
  unfold homepage_links.
  pose proof (fetch_homepage_frontier self) as (_ & _ & _ & Hv & _).
  rewrite Hv. unfold fetch_homepage.
  destruct (_fetch_page_sync _ _) as [[soup links]|] eqn:Hfetch; simpl.
  - apply fetch_links_fresh in Hfetch. exact Hfetch.
  - split; [constructor | intros l Hl; inversion Hl].
Qed.

Lemma filter_links_fresh (keep : link -> bool) (links : list link) :
  NoDup (map fst links) -> NoDup (map fst (filter (fun l => keep l) links)).
Proof using Type.
  induction links as [|l rest IH]; intros Hnodup; [constructor|].
  inversion Hnodup as [|? ? Hhead Htail]; subst.
  destruct (keep l) eqn:Hk.
  - rewrite filter_cons_True by now rewrite Hk. simpl.
    constructor; [|now apply IH].
    intros Hin. apply Hhead.
    apply list_elem_of_In, in_map_iff in Hin as (l' & Heq & Hl').
    apply list_elem_of_In, list_elem_of_filter in Hl' as [_ Hl'].
    apply list_elem_of_In, in_map_iff. exists l'. split; [assumption|].
    apply list_elem_of_In, Hl'.
  - rewrite filter_cons_False by now rewrite Hk. now apply IH.
Qed.

(** *** The decision between the branches *)

(** C10.  When the homepage yields a record and none of its links is an
    FAQ link, the crawl ends with the homepage: it is the only page
    requested, [pagesProcessed] is 1 and [faqPageFound] is false. *)
Theorem homepage_faqs_skip_crawl (base dom : pystr) (max : Z) :
  all_faqs (fetch_homepage (new_scraper base dom max)).1 <> [] ->
  homepage_faq_links (new_scraper base dom max) = [] ->
  crawl_log (scrape_sync_state (new_scraper base dom max)) = [base]
  /\ faqs (scrape_sync (new_scraper base dom max))
     = all_faqs (fetch_homepage (new_scraper base dom max)).1
  /\ pagesProcessed (scrape_sync (new_scraper base dom max)) = 1%nat
  /\ faqPageFound (scrape_sync (new_scraper base dom max)) = false.
Proof using Type.
  unfold scrape_sync, scrape_sync_state, homepage_faq_links, homepage_links.
  pose proof (fetch_homepage_frontier (new_scraper base dom max))
    as (_ & _ & _ & Hvisited & Hfound & Hlog).
  destruct (fetch_homepage (new_scraper base dom max)) as [home links].
  simpl in *. intros Hyield ->.
  case_bool_decide; [contradiction|]. simpl.
  rewrite Hlog, Hvisited, Hfound, union_empty_r_L, size_singleton. tauto.
Qed.

(** C5 (as amended).  [faqPageFound] is true exactly when some homepage
    link classified as an FAQ link was fetched with success; a link that
    is visited but whose fetch fails does not set it. *)
Theorem faq_page_found_iff (base dom : pystr) (max : Z) :
  faqPageFound (scrape_sync (new_scraper base dom max)) = true <->
  exists l, l ∈ homepage_faq_links (new_scraper base dom max)
            /\ is_Some (_fetch_page_sync (new_scraper base dom max) l.1).
Proof using Type.
  pose proof (homepage_links_fresh (new_scraper base dom max))
    as [Hnodup Hfresh].
  revert Hnodup Hfresh.
  unfold scrape_sync, scrape_sync_state, homepage_faq_links, homepage_links.
  pose proof (fetch_homepage_frontier (new_scraper base dom max))
    as (Hbase & Hdom & _ & _ & Hfound & _).
  destruct (fetch_homepage (new_scraper base dom max)) as [home links].
  simpl in *. intros Hnodup Hfresh.
  set (faq_links := filter (fun l => _is_faq_link l.1 l.2) links).
  set (focused := match faq_links with
                  | [] => home
                  | _ :: _ => fold_left crawl_faq_link faq_links home
                  end).
  assert (faq_page_found focused = true <->
          exists l, l ∈ faq_links
                    /\ is_Some (_fetch_page_sync (new_scraper base dom max) l.1))
    as Hfocused.
  { assert (focused = fold_left crawl_faq_link faq_links home) as ->
      by (subst focused; now destruct faq_links).
    destruct (crawl_faq_links_fresh (new_scraper base dom max) faq_links home)
      as (_ & _ & _ & Hiff); try assumption.
    - apply (filter_links_fresh (fun l => _is_faq_link l.1 l.2)), Hnodup.
    - intros l Hl. apply Hfresh.
      apply list_elem_of_filter in Hl. tauto.
    - rewrite Hiff, Hfound. split; [intros [[=]|?]; assumption | now right]. }
  case_bool_decide; simpl; [rewrite crawl_all_found|]; exact Hfocused.
Qed.

(** The full-site loop starts without records, so the records it leaves
    come from pages that were not visited before it. *)
Lemma crawl_all_sources self to_crawl :
  all_faqs self = [] ->
  forall r, r ∈ all_faqs (crawl_all self to_crawl) ->
    sourceUrl r ∉ visited_urls self.
Proof using Type.
  intros Hempty.
  apply (crawl_all_closed
           (fun s => visited_urls self ⊆ visited_urls s
                     /\ forall r, r ∈ all_faqs s ->
                          sourceUrl r ∉ visited_urls self)).
  - intros s q s' q' [Hsub Hsrc]. unfold crawl_step.
    destruct q as [|[url text] rest]; [discriminate|].
    case_bool_decide; [|discriminate].
    case_bool_decide as Hseen; [now intros [= <- _]|].
    destruct (_fetch_page_sync _ _) as [[soup links]|]; intros [= <- _].
    + destruct (extract_faqs_from_page_frontier (visit url s) soup url)
        as (_ & _ & _ & -> & _).
      destruct (extract_faqs_from_page_source (visit url s) soup url)
        as (added & -> & Hadded).
      simpl. split.
      * intros u Hu. apply elem_of_union_r, Hsub, Hu.
      * intros r [Hr | Hr]%elem_of_app; [now apply Hsrc|].
        rewrite Forall_forall in Hadded. rewrite (Hadded r Hr).
        intros Habs. apply Hseen, Hsub, Habs.
    + simpl. split; [|assumption].
      intros u Hu. apply elem_of_union_r, Hsub, Hu.
  - split; [reflexivity|]. rewrite Hempty. intros r Hr. inversion Hr.
Qed.

(** The records of the homepage carry the base URL. *)
Lemma fetch_homepage_source self :
  appends (fun r => sourceUrl r = base_url self) self (fetch_homepage self).1.
Proof using Type.
  unfold fetch_homepage.
  destruct (_fetch_page_sync _ _) as [[soup links]|]; simpl.
  - apply (extract_faqs_from_page_source (visit (base_url self) self)).
  - apply (appends_refl _ (visit (base_url self) self)).
Qed.

(** On ASCII text [str.lower] lowers the ASCII capitals and nothing else. *)
Hypothesis str_lower_ascii :
  forall s, Forall (fun c => is_ascii c = true) s ->
            str_lower s = ascii_lower s.

(** A link whose anchor text is exactly [FAQ] is an FAQ link. *)
Lemma faq_text_is_faq_link url : _is_faq_link url (str_lower (py "FAQ")) = true.
Proof using str_lower_ascii.
  rewrite (str_lower_ascii (py "FAQ")) by (repeat constructor).
  unfold _is_faq_link.
  rewrite (str_lower_ascii (ascii_lower (py "FAQ"))) by (repeat constructor).
  apply orb_true_r.
Qed.

(** When the links extracted from the homepage include one whose text is
    [FAQ], lower-cased, and a returned record comes from that link's page,
    the pages requested are the homepage and then the extracted links
    classified as FAQ links, each once and in order, and nothing else (the
    full-site loop does not run); and [faqPageFound] is true. *)
Lemma faq_link_short_circuit (base dom : pystr) (max : Z) (u : pystr) :
  (u, str_lower (py "FAQ")) ∈ homepage_links (new_scraper base dom max) ->
  (exists r, r ∈ faqs (scrape_sync (new_scraper base dom max))
             /\ sourceUrl r = u) ->
  crawl_log (scrape_sync_state (new_scraper base dom max))
    = base :: map fst (homepage_faq_links (new_scraper base dom max))
  /\ faqPageFound (scrape_sync (new_scraper base dom max)) = true.
Proof using str_lower_ascii.
  pose proof (homepage_links_fresh (new_scraper base dom max))
    as [Hnodup Hfresh].
  pose proof (fetch_homepage_source (new_scraper base dom max)) as Hsrc.
  revert Hnodup Hfresh Hsrc.
  unfold scrape_sync, scrape_sync_state, homepage_faq_links, homepage_links.
  pose proof (fetch_homepage_frontier (new_scraper base dom max))
    as (Hbase & Hdom & _ & Hvisited & Hfound & Hlog).
  destruct (fetch_homepage (new_scraper base dom max)) as [home links].
  simpl in *. intros Hnodup Hfresh Hsrc Hlink (r & Hr & Hu).
  set (faq_links := filter (fun l => _is_faq_link l.1 l.2) links) in *.
  assert ((u, str_lower (py "FAQ")) ∈ faq_links) as Hfaq.
  { apply list_elem_of_filter. split; [|assumption].
    simpl. rewrite faq_text_is_faq_link. exact I. }
  assert (match faq_links with
          | [] => home
          | _ :: _ => fold_left crawl_faq_link faq_links home
          end = fold_left crawl_faq_link faq_links home) as Hfocus
    by now destruct faq_links.
  rewrite Hfocus in *. clear Hfocus.
  set (focused := fold_left crawl_faq_link faq_links home) in *.
  destruct (crawl_faq_links_fresh (new_scraper base dom max) faq_links home)
    as (Hflog & Hfin & _ & _); try assumption.
  { apply (filter_links_fresh (fun l => _is_faq_link l.1 l.2)), Hnodup. }
  { intros l Hl. apply Hfresh. apply list_elem_of_filter in Hl. tauto. }
  fold focused in Hflog, Hfin.
  assert (all_faqs focused <> []) as Hyield.
  { intros Hempty. rewrite bool_decide_eq_true_2 in Hr by assumption.
    simpl in Hr. apply (crawl_all_sources focused _ Hempty) in Hr.
    apply Hr. rewrite Hu. apply (Hfin _ Hfaq). }
  rewrite bool_decide_eq_false_2 in * by assumption. simpl in *.
  split; [now rewrite Hflog, Hlog|].
  apply (crawl_faq_links_sources base faq_links home) with (r := r);
    [|assumption|].
  - intros r' Hr' Hne. exfalso. apply Hne.
    destruct Hsrc as (added & Hadded & Hall). simpl in Hadded.
    rewrite Hadded in Hr'. rewrite Forall_forall in Hall. now apply Hall.
  - rewrite Hu. intros ->. apply (Hfresh _ Hlink).
    rewrite Hvisited. apply elem_of_union_l, elem_of_singleton. reflexivity.
Qed.

(** *** Depth rule *)

(** The non-empty segments of a path. *)
Definition nonempty_segments (path : pystr) : list pystr :=
  filter (fun seg => seg <> []) (split_on (ch "/") path).

Lemma split_on_cons_sep sep s : split_on sep (sep :: s) = [] :: split_on sep s.
Proof using Type. simpl. now rewrite N.eqb_refl. Qed.

Lemma split_on_cons_other sep c s :
  c <> sep ->
  split_on sep (c :: s) = (c :: hd [] (split_on sep s)) :: tl (split_on sep s).
Proof using Type. intros Hc. simpl. apply N.eqb_neq in Hc. now rewrite Hc. Qed.

Lemma split_on_nonempty sep s : split_on sep s <> [].
Proof using Type.
  destruct s as [|c s]; [discriminate|].
  simpl. destruct (c =? sep); discriminate.
Qed.

Lemma split_on_no_sep sep s :
  Forall (fun c => c <> sep) s -> split_on sep s = [s].
Proof using Type.
  induction 1 as [|c s Hc _ IH]; [reflexivity|].
  now rewrite split_on_cons_other, IH.
Qed.

Lemma split_on_app_sep sep a b :
  Forall (fun c => c <> sep) a ->
  split_on sep (a ++ sep :: b) = a :: split_on sep b.
Proof using Type.
  induction 1 as [|c a Hc _ IH].
  - apply split_on_cons_sep.
  - now rewrite <- app_comm_cons, split_on_cons_other, IH.
Qed.

Lemma split_on_snoc_sep sep s : split_on sep (s ++ [sep]) = split_on sep s ++ [[]].
Proof using Type.
  induction s as [|c s IH].
  - simpl app. now rewrite split_on_cons_sep.
  - rewrite <- app_comm_cons. destruct (N.eq_dec c sep) as [-> | Hc].
    + rewrite !split_on_cons_sep, IH. reflexivity.
    + rewrite !split_on_cons_other, IH by assumption.
      destruct (split_on sep s) eqn:Hs; [|reflexivity].
      now apply split_on_nonempty in Hs.
Qed.

Section Segments.

Local Abbreviation sep := (ch "/").
Local Abbreviation segs := nonempty_segments.

Lemma segments_cons_sep s : segs (sep :: s) = segs s.
Proof using Type.
  unfold nonempty_segments. rewrite split_on_cons_sep.
  now rewrite filter_cons_False by (intros H; now apply H).
Qed.

Lemma segments_snoc_sep s : segs (s ++ [sep]) = segs s.
Proof using Type.
  unfold nonempty_segments. rewrite split_on_snoc_sep, filter_app.
  rewrite (filter_cons_False _ []) by (intros H; now apply H).
  now rewrite filter_nil, app_nil_r.
Qed.

Lemma segments_lstrip s : segs (lstrip (N.eqb sep) s) = segs s.
Proof using Type.
  unfold lstrip. induction s as [|c s IH]; [reflexivity|].
  change (drop_while (N.eqb sep) (c :: s))
    with (if sep =? c then drop_while (N.eqb sep) s else c :: s).
  destruct (sep =? c) eqn:Hc; [|reflexivity].
  apply N.eqb_eq in Hc as <-. now rewrite IH, segments_cons_sep.
Qed.

Lemma segments_app_seps s tail :
  Forall (fun c => (sep =? c) = true) tail -> segs (s ++ tail) = segs s.
Proof using Type.
  intros Htail. revert s.
  induction Htail as [|c tail Hc _ IH]; intros s; [now rewrite app_nil_r|].
  apply N.eqb_eq in Hc as <-.
  now rewrite (cons_middle sep), app_assoc, IH, segments_snoc_sep.
Qed.

Lemma segments_rstrip s : segs (rstrip (N.eqb sep) s) = segs s.
Proof using Type.
  destruct (rstrip_decompose (N.eqb sep) s) as (tail & Heq & Htail).
  rewrite Heq at 2. now rewrite segments_app_seps.
Qed.

Lemma segments_strip s : segs (strip (N.eqb sep) s) = segs s.
Proof using Type. unfold strip. now rewrite segments_rstrip, segments_lstrip. Qed.

Lemma segments_last s d : d <> sep -> segs (s ++ [d]) <> [].
Proof using Type.
  intros Hd. unfold nonempty_segments.
  induction s as [|c s IH].
  - simpl app. rewrite split_on_cons_other by assumption. simpl.
    rewrite filter_cons_True by discriminate. discriminate.
  - rewrite <- app_comm_cons. destruct (N.eq_dec c sep) as [-> | Hc].
    + rewrite split_on_cons_sep.
      now rewrite filter_cons_False by (intros H; now apply H).
    + rewrite split_on_cons_other by assumption.
      rewrite filter_cons_True by discriminate. discriminate.
Qed.

(** A stripped path starts and ends with a character that is no slash. *)
Lemma strip_ends s :
  strip (N.eqb sep) s <> [] ->
  exists c rest init d,
    strip (N.eqb sep) s = c :: rest /\ c <> sep
    /\ strip (N.eqb sep) s = init ++ [d] /\ d <> sep.
Proof using Type.
  unfold strip, lstrip. intros Hne.
  destruct (rstrip_decompose (N.eqb sep) (drop_while (N.eqb sep) s))
    as (tail & Heq & _).
  destruct (rstrip (N.eqb sep) (drop_while (N.eqb sep) s))
    as [|c rest] eqn:Ht; [contradiction|].
  assert (c <> sep) as Hc.
  { rewrite <- app_comm_cons in Heq. apply drop_while_head in Heq.
    apply N.eqb_neq in Heq. intros ->. now apply Heq. }
  destruct (exists_last Hne) as (init & d & Hlast).
  exists c, rest, init, d. repeat split; try assumption.
  rewrite <- Ht in Hlast. apply rstrip_last in Hlast.
  apply N.eqb_neq in Hlast. intros ->. now apply Hlast.
Qed.

Lemma path_depth_ok_segments path :
  path_depth_ok path = false <-> (1 < length (segs path))%nat.
Proof using Type.
  unfold path_depth_ok. rewrite <- (segments_strip path).
  set (t := strip (N.eqb sep) path).
  case_bool_decide as Hnil.
  - rewrite Hnil. split; [discriminate|].
    intros Hlen. exfalso. revert Hlen. vm_compute. lia.
  - rewrite negb_false_iff, Nat.ltb_lt.
    split; [|intros Hlen; eapply Nat.lt_le_trans; [exact Hlen | apply length_filter]].
    intros Hlen.
    destruct (strip_ends path Hnil) as (c & rest & init & d & Hc & Hcne & Hd & Hdne).
    fold t in Hc, Hd.
    destruct (decide (Forall (fun x => x <> sep) t)) as [Hall | Hsome].
    { rewrite (split_on_no_sep _ _ Hall) in Hlen. simpl in Hlen. lia. }
    assert (t = take_while (fun x => negb (x =? sep)) t
                ++ drop_while (fun x => negb (x =? sep)) t) as Hsplit
      by now rewrite drop_while_app_take_while.
    pose proof (take_while_Forall (fun x => negb (x =? sep)) t) as Hpre.
    destruct (drop_while (fun x => negb (x =? sep)) t) as [|x b] eqn:Hdrop.
    { exfalso. apply Hsome. rewrite Hsplit, app_nil_r.
      eapply Forall_impl; [exact Hpre|]. simpl. intros y Hy.
      apply negb_true_iff, N.eqb_neq in Hy. exact Hy. }
    apply drop_while_head in Hdrop as Hx.
    apply negb_false_iff, N.eqb_eq in Hx. subst x.
    set (a := take_while (fun x => negb (x =? sep)) t) in *.
    assert (Forall (fun y => y <> sep) a) as Ha.
    { eapply Forall_impl; [exact Hpre|]. simpl. intros y Hy.
      apply negb_true_iff, N.eqb_neq in Hy. exact Hy. }
    assert (a <> []) as Hane.
    { intros Ha0. rewrite Ha0, Hc in Hsplit. simpl in Hsplit.
      injection Hsplit as Hhead _. contradiction. }
    assert (segs b <> []) as Hb.
    { destruct (exists_last (l := sep :: b)) as (init' & d' & Hlast);
        [discriminate|].
      assert (d' = d) as ->.
      { rewrite Hd in Hsplit. rewrite Hlast, app_assoc in Hsplit.
        apply app_inj_tail in Hsplit as [_ Hdd]. now symmetry. }
      destruct init' as [|y init'].
      - rewrite app_nil_l in Hlast. injection Hlast as Hbad _.
        exfalso. apply Hdne. rewrite <- Hbad. reflexivity.
      - rewrite <- app_comm_cons in Hlast. injection Hlast as _ ->.
        now apply segments_last. }
    unfold nonempty_segments in *.
    rewrite Hsplit, (split_on_app_sep _ _ _ Ha).
    rewrite filter_cons_True by assumption.
    destruct (filter _ (split_on sep b)); [contradiction|].
    cbn [length]. lia.
Qed.

End Segments.

(** C8.  For every domain, a URL whose path has more than one non-empty
    segment is not a valid internal URL; and the depth rule rejects those
    paths only, so a path of one segment passes it. *)
Theorem depth_bound self (url : pystr) (parsed : Urllib.ParseResult) :
  Urllib.urlparse netloc_ok url = Some parsed ->
  ((1 < length (nonempty_segments (Urllib.path parsed)))%nat ->
   _is_valid_internal_url self url = Some false)
  /\ ((length (nonempty_segments (Urllib.path parsed)) <= 1)%nat ->
      path_depth_ok (Urllib.path parsed) = true).
Proof using Type.
  intros Hparse. split.
  - intros Hdeep. apply path_depth_ok_segments in Hdeep.
    unfold _is_valid_internal_url. rewrite Hparse. simpl. rewrite Hdeep.
    cbn [negb].
    repeat match goal with
           | |- context [if ?b then _ else _] => destruct b
           end; reflexivity.
  - intros Hflat. destruct (path_depth_ok (Urllib.path parsed)) eqn:Hok;
      [reflexivity|].
    apply path_depth_ok_segments in Hok. lia.
Qed.

(** *** URL normalization *)

Local Abbreviation not_unsafe := (fun c => negb (Urllib.unsafe_url_byte c)).
Local Abbreviation not_delim := (fun c => negb (Urllib.netloc_delim c)).

(** What [urlparse] does with the text after [http://] or [https://],
    once the unsafe characters are gone. *)
Definition parse_http (sch rest : pystr) : option Urllib.ParseResult :=
  let net := take_while not_delim rest in
  let url := drop_while not_delim rest in
  let '(url, frag) :=
    if contains [ch "#"] url then split_first (ch "#") url else (url, []) in
  let '(url, qry) :=
    if contains [ch "?"] url then split_first (ch "?") url else (url, []) in
  let '(url, prm) :=
    if contains [ch ";"] url then Urllib._splitparams url else (url, []) in
  if bool_decide (net = []) || netloc_ok net
  then Some {| Urllib.scheme := sch; Urllib.netloc := net; Urllib.path := url;
               Urllib.params := prm; Urllib.query := qry;
               Urllib.fragment := frag |}
  else None.

Definition http_scheme (sch : pystr) : Prop := sch = py "http" \/ sch = py "https".

Lemma urlparse_http sch w :
  http_scheme sch ->
  Urllib.urlparse netloc_ok (sch ++ py "://" ++ w)
  = parse_http sch (filter not_unsafe w).
Proof using Type. intros [-> | ->]; reflexivity. Qed.

Lemma is_http_url_split url :
  is_http_url url = true ->
  exists sch w, http_scheme sch /\ url = sch ++ py "://" ++ w.
Proof using Type.
  unfold is_http_url. intros [H | H]%orb_true_iff;
    apply startswith_by_eq in H.
  - exists (py "http"), (drop (length (py "http://")) url).
    split; [now left | exact H].
  - exists (py "https"), (drop (length (py "https://")) url).
    split; [now right | exact H].
Qed.

Lemma is_http_url_build sch w :
  http_scheme sch -> is_http_url (sch ++ py "://" ++ w) = true.
Proof using Type. intros [-> | ->]; reflexivity. Qed.

(** One splitting step of [urlsplit] ([#], then [?]): what is kept has no
    separator and starts the text that was split. *)
Lemma split_step c url :
  Forall (fun x => x <> c)
    (if contains [c] url then split_first c url else (url, [])).1
  /\ exists k,
       url = (if contains [c] url then split_first c url else (url, [])).1 ++ k.
Proof using Type.
  destruct (contains [c] url) eqn:Hc; simpl.
  - split.
    + eapply Forall_impl; [apply take_while_Forall|].
      simpl. intros x Hx. now apply negb_true_iff, N.eqb_neq in Hx.
    + eexists. symmetry. apply drop_while_app_take_while.
  - split; [now apply contains_char_false|].
    exists []. now rewrite app_nil_r.
Qed.

Lemma splitparams_prefix url :
  exists k, url = (Urllib._splitparams url).1 ++ k.
Proof using Type.
  unfold Urllib._splitparams.
  destruct (contains [ch "/"] url).
  - destruct (find_from _ _ url) as [i|]; simpl.
    + eexists. symmetry. apply take_drop.
    + exists []. now rewrite app_nil_r.
  - destruct (find [ch ";"] url) as [i|]; simpl.
    + eexists. symmetry. apply take_drop.
    + destruct url as [|c url'] using rev_ind; [now exists []|].
      rewrite removelast_last. now eexists.
Qed.

Lemma Forall_prefix {A} (P : A -> Prop) (l k : list A) :
  Forall P (l ++ k) -> Forall P l.
Proof using Type. intros H. now apply Forall_app in H. Qed.

(** The components [urlparse] finds after [http://] or [https://]. *)
Lemma parse_http_components sch rest p :
  parse_http sch rest = Some p ->
  Urllib.scheme p = sch
  /\ Urllib.netloc p = take_while not_delim rest
  /\ (Urllib.netloc p = [] \/ netloc_ok (Urllib.netloc p) = true)
  /\ (exists k, drop_while not_delim rest = Urllib.path p ++ k)
  /\ Forall (fun x => x <> ch "#") (Urllib.path p)
  /\ Forall (fun x => x <> ch "?") (Urllib.path p).
Proof using Type.
  unfold parse_http.
  set (url0 := drop_while not_delim rest).
  destruct (split_step (ch "#") url0) as [Hhash [k1 Hk1]].
  destruct (if contains [ch "#"] url0 then split_first (ch "#") url0
            else (url0, [])) as [url1 frag].
  simpl in Hhash, Hk1.
  destruct (split_step (ch "?") url1) as [Hquery [k2 Hk2]].
  destruct (if contains [ch "?"] url1 then split_first (ch "?") url1
            else (url1, [])) as [url2 qry].
  simpl in Hquery, Hk2.
  assert (exists k3, url2 = (if contains [ch ";"] url2
                             then Urllib._splitparams url2
                             else (url2, [])).1 ++ k3) as [k3 Hk3].
  { destruct (contains [ch ";"] url2); [apply splitparams_prefix|].
    exists []. now rewrite app_nil_r. }
  destruct (if contains [ch ";"] url2 then Urllib._splitparams url2
            else (url2, [])) as [url3 prm].
  simpl in Hk3.
  destruct (bool_decide (take_while not_delim rest = []) || netloc_ok _)
    eqn:Hok; [|discriminate].
  intros [= <-]. simpl.
  split; [reflexivity|]. split; [reflexivity|]. split.
  { apply orb_true_iff in Hok as [Hnil | Hok]; [left | now right].
    now apply bool_decide_eq_true in Hnil. }
  split.
  { exists (k3 ++ k2 ++ k1). rewrite Hk1, Hk2, Hk3 at 1.
    now rewrite <- !app_assoc. }
  split.
  - rewrite Hk2, Hk3 in Hhash. now do 2 apply Forall_prefix in Hhash.
  - rewrite Hk3 in Hquery. now apply Forall_prefix in Hquery.
Qed.

(** A path found after the network location is empty or starts with a
    slash. *)
Lemma parse_http_path_rooted sch rest p :
  parse_http sch rest = Some p ->
  Urllib.path p = [] \/ exists r, Urllib.path p = ch "/" :: r.
Proof using Type.
  intros Hparse.
  destruct (parse_http_components sch rest p Hparse)
    as (_ & _ & _ & [k Hk] & Hhash & Hquery).
  destruct (Urllib.path p) as [|c r]; [now left | right].
  exists r. f_equal.
  rewrite <- app_comm_cons in Hk. apply drop_while_head in Hk.
  apply Forall_inv in Hhash. apply Forall_inv in Hquery.
  apply negb_false_iff in Hk. unfold Urllib.netloc_delim, char_in in Hk.
  change (py "/?#") with [ch "/"; ch "?"; ch "#"] in Hk.
  cbn [existsb] in Hk. rewrite !orb_true_iff in Hk.
  destruct Hk as [Hk | [Hk | [Hk | Hk]]]; try discriminate;
    apply N.eqb_eq in Hk; [assumption | contradiction | contradiction].
Qed.

(** A normalized http(s) URL parses into its own parts. *)
Lemma parse_http_canonical sch net path :
  Forall (fun c => not_delim c = true) net ->
  (net = [] \/ netloc_ok net = true) ->
  (exists r, path = ch "/" :: r) ->
  Forall (fun x => x <> ch "#") path ->
  Forall (fun x => x <> ch "?") path ->
  Forall (fun x => x <> ch ";") path ->
  parse_http sch (net ++ path)
  = Some {| Urllib.scheme := sch; Urllib.netloc := net; Urllib.path := path;
            Urllib.params := []; Urllib.query := []; Urllib.fragment := [] |}.
Proof using Type.
  intros Hnet Hok [r ->] Hhash Hquery Hsemi. unfold parse_http.
  destruct (take_while_app_stop not_delim net (ch "/") r Hnet eq_refl)
    as [-> ->].
  apply contains_char_false in Hhash, Hquery, Hsemi.
  rewrite Hhash, Hquery, Hsemi.
  destruct Hok as [-> | ->]; [reflexivity|].
  now rewrite orb_true_r.
Qed.

(** The path of a normalized URL: no trailing slash, and [/] when nothing
    else is left. *)
Lemma normal_path_fixed path :
  let stripped := rstrip (N.eqb (ch "/")) path in
  let kept := if bool_decide (stripped = []) then py "/" else stripped in
  (if bool_decide (rstrip (N.eqb (ch "/")) kept = []) then py "/"
   else rstrip (N.eqb (ch "/")) kept) = kept.
Proof using Type.
  cbv zeta.
  destruct (bool_decide (rstrip (N.eqb (ch "/")) path = [])) eqn:Hnil;
    [reflexivity|].
  now rewrite rstrip_idem, Hnil.
Qed.

(** C7 (as amended).  Normalization is idempotent on every URL that
    resolves to an [http://] or [https://] URL and whose normalized form
    has no semicolon: normalizing that form returns it unchanged. *)
Theorem normalize_url_idempotent self (url abs normalized : pystr) :
  absolute_url self url = Some abs ->
  is_http_url abs = true ->
  _normalize_url self url = Some normalized ->
  contains [ch ";"] normalized = false ->
  _normalize_url self normalized = Some normalized.
Proof using Type.
  intros Habs Hhttp Hnorm Hsemi.
  destruct (is_http_url_split abs Hhttp) as (sch & w & Hsch & ->).
  unfold _normalize_url in Hnorm. rewrite Habs in Hnorm.
  cbn [mbind option_bind] in Hnorm.
  rewrite (urlparse_http sch w Hsch) in Hnorm.
  destruct (parse_http sch (filter not_unsafe w)) as [p|] eqn:Hparse;
    [|discriminate].
  cbn [mbind option_bind] in Hnorm.
  destruct (parse_http_components _ _ _ Hparse)
    as (Hscheme & Hnet & Hok & [k Hk] & Hhash & Hquery).
  pose proof (parse_http_path_rooted _ _ _ Hparse) as Hrooted.
  set (stripped := rstrip (N.eqb (ch "/")) (Urllib.path p)) in *.
  set (kept := if bool_decide (stripped = []) then py "/" else stripped) in *.
  apply (inj Some) in Hnorm. subst normalized. rewrite Hscheme in *.
  (* the parts of the normalized URL *)
  assert (Forall (fun c => not_unsafe c = true) (filter not_unsafe w))
    as Hsafe.
  { apply Forall_forall. intros c Hc.
    apply list_elem_of_filter in Hc as [Hc _]. now apply Is_true_true. }
  assert (Forall (fun c => not_unsafe c = true) (Urllib.netloc p)
          /\ Forall (fun c => not_unsafe c = true) (Urllib.path p))
    as [Hsafe_net Hsafe_path].
  { rewrite <- (drop_while_app_take_while not_delim (filter not_unsafe w))
      in Hsafe.
    rewrite <- Hnet, Hk in Hsafe.
    apply Forall_app in Hsafe as [Hn Hp].
    split; [assumption | now apply Forall_prefix in Hp]. }
  assert (Forall (fun c => not_delim c = true) (Urllib.netloc p)) as Hnodelim.
  { rewrite Hnet. apply take_while_Forall. }
  destruct (rstrip_decompose (N.eqb (ch "/")) (Urllib.path p))
    as (tail & Hpath & _).
  fold stripped in Hpath.
  assert (exists r, kept = ch "/" :: r) as Hkept_root.
  { subst kept. case_bool_decide as Hnil; [now exists []|].
    destruct Hrooted as [Hempty | [r Hr]].
    - rewrite Hempty in Hpath. symmetry in Hpath.
      apply app_eq_nil in Hpath as [? _]. contradiction.
    - destruct stripped as [|c rest]; [contradiction|].
      rewrite Hr, <- app_comm_cons in Hpath. injection Hpath as <- _.
      now exists rest. }
  assert (forall P : char -> Prop,
            P (ch "/") -> Forall P (Urllib.path p) -> Forall P kept)
    as Hkept_all.
  { intros P Hslash Hall. subst kept.
    case_bool_decide; [repeat constructor; exact Hslash|].
    rewrite Hpath in Hall. now apply Forall_prefix in Hall. }
  assert (Forall (fun x => x <> ch ";") kept) as Hkept_semi.
  { apply contains_char_false in Hsemi.
    rewrite !Forall_app in Hsemi. tauto. }
  (* second normalization *)
  unfold _normalize_url, absolute_url.
  rewrite (is_http_url_build sch _ Hsch). cbn [mbind option_bind].
  rewrite (urlparse_http sch _ Hsch).
  rewrite filter_keep_all.
  2: { apply Forall_app. split.
       - eapply Forall_impl; [exact Hsafe_net|].
         simpl. intros c Hc. now apply Is_true_true.
       - apply (Hkept_all (fun c => Is_true (not_unsafe c))); [exact I|].
         eapply Forall_impl; [exact Hsafe_path|].
         simpl. intros c Hc. now apply Is_true_true. }
  rewrite parse_http_canonical; try assumption.
  - cbn [mbind option_bind Urllib.path Urllib.scheme Urllib.netloc].
    subst kept stripped. now rewrite normal_path_fixed.
  - apply Hkept_all; [discriminate | assumption].
  - apply Hkept_all; [discriminate | assumption].
Qed.

(** ** The link extractor *)

Lemma collect_links_spec self anchors links :
  collect_links self anchors = Some links ->
  forall l, l ∈ links <->
    exists href text,
      (href, text) ∈ anchors
      /\ _normalize_url self href = Some l.1
      /\ _is_valid_internal_url self l.1 = Some true
      /\ (l.1 ∉ visited_urls self)
      /\ l.2 = str_lower text.
Proof using Type.
  revert links. induction anchors as [|[href text] rest IH]; intros links;
    simpl.
  - intros [= <-] l. split; [intros Hl; inversion Hl|].
    intros (h & t & Hin & _). inversion Hin.
  - destruct (_normalize_url self href) as [full_url|] eqn:Hnorm;
      [|discriminate].
    simpl.
    destruct (_is_valid_internal_url self full_url) as [valid|] eqn:Hvalid;
      [|discriminate].
    simpl. destruct (collect_links self rest) as [links'|]; [|discriminate].
    simpl. intros [= <-] l. specialize (IH links' eq_refl l).
    assert (l ∈ links' <->
            exists h t, (h, t) ∈ rest /\ _normalize_url self h = Some l.1
              /\ _is_valid_internal_url self l.1 = Some true
              /\ (l.1 ∉ visited_urls self) /\ l.2 = str_lower t) as IH'
      by exact IH.
    clear IH.
    destruct (valid && negb (bool_decide (full_url ∈ visited_urls self)))
      eqn:Hkeep.
    + apply andb_true_iff in Hkeep as [-> Hfresh].
      apply negb_true_iff, bool_decide_eq_false in Hfresh.
      rewrite elem_of_cons, IH'. split.
      * intros [-> | (h & t & Hin & Hrest)].
        -- exists href, text. simpl. split; [now left | tauto].
        -- exists h, t. split; [now right | exact Hrest].
      * intros (h & t & [[= -> ->] | Hin]%elem_of_cons & Hn & Hv & Hf & Ht).
        -- left. destruct l as [u x]. simpl in *. congruence.
        -- right. exists h, t. tauto.
    + rewrite IH'. split.
      * intros (h & t & Hin & Hrest). exists h, t.
        split; [now right | exact Hrest].
      * intros (h & t & [[= -> ->] | Hin]%elem_of_cons & Hn & Hv & Hf & Ht).
        -- exfalso. rewrite Hnorm in Hn. apply (inj Some) in Hn. subst full_url.
           rewrite Hvalid in Hv. apply (inj Some) in Hv. subst valid.
           simpl in Hkeep. apply negb_false_iff, bool_decide_eq_true in Hkeep.
           contradiction.
        -- exists h, t. tauto.
Qed.

(** The second loop keeps one link for every URL it has not seen. *)
Lemma unique_links_complete seen links l :
  l ∈ links -> l.1 ∉ seen -> l.1 ∈ map fst (unique_links seen links).
Proof using Type.
  revert seen. induction links as [|[url text] rest IH]; intros seen Hin Hfresh.
  - inversion Hin.
  - simpl. apply elem_of_cons in Hin as [-> | Hin].
    + simpl in *. rewrite bool_decide_eq_false_2 by assumption. now left.
    + case_bool_decide as Hseen; [now apply IH|].
      simpl. destruct (decide (l.1 = url)) as [-> | Hne]; [now left|].
      right. apply IH; [assumption|].
      intros [Heq%elem_of_singleton | Hold]%elem_of_union; contradiction.
Qed.

(** One anchor whose [href] cannot be normalized makes the first loop
    raise. *)
Lemma collect_links_raises self anchors href text :
  (href, text) ∈ anchors -> _normalize_url self href = None ->
  collect_links self anchors = None.
Proof using Type.
  intros Hin Hnone. induction anchors as [|[h t] rest IH]; [inversion Hin|].
  simpl. apply elem_of_cons in Hin as [[= <- <-] | Hin].
  - now rewrite Hnone.
  - rewrite (IH Hin).
    destruct (_normalize_url self h); [|reflexivity]. simpl.
    destruct (_is_valid_internal_url self _); reflexivity.
Qed.

(** Only [domain] matters to the validator, and only [base_url] to the
    normalizer. *)
Lemma is_valid_internal_url_domain self self' url :
  domain self' = domain self ->
  _is_valid_internal_url self' url = _is_valid_internal_url self url.
Proof using Type. intros Hdom. unfold _is_valid_internal_url. now rewrite Hdom. Qed.

(** X1.  The links [_extract_links_with_text] returns have pairwise
    distinct URLs, each comes from an anchor of the page (its URL is the
    normalized [href], its text the lower-cased anchor text), and a URL is
    among them exactly when it is the normalized [href] of some anchor, is
    a valid internal URL and has not been visited. *)
Theorem extracted_links_spec self soup links :
  _extract_links_with_text self soup = Some links ->
  NoDup (map fst links)
  /\ (forall l, l ∈ links ->
        exists href text,
          (href, text) ∈ doc_anchors soup
          /\ _normalize_url self href = Some l.1 /\ l.2 = str_lower text)
  /\ (forall url, url ∈ map fst links <->
        (url ∉ visited_urls self)
        /\ _is_valid_internal_url self url = Some true
        /\ exists href text,
             (href, text) ∈ doc_anchors soup
             /\ _normalize_url self href = Some url).
Proof using Type.
  unfold _extract_links_with_text.
  destruct (collect_links self (doc_anchors soup)) as [collected|] eqn:Hc;
    [|discriminate].
  simpl. intros [= <-].
  pose proof (collect_links_spec self _ _ Hc) as Hspec.
  destruct (unique_links_spec ∅ collected) as [Hnodup Hsub].
  split; [assumption|]. split.
  - intros l Hl. apply Hsub in Hl as [Hl _].
    apply Hspec in Hl as (href & text & Hin & Hnorm & _ & _ & Htext).
    now exists href, text.
  - intros url. split.
    + intros Hurl.
      apply list_elem_of_In, in_map_iff in Hurl as (l & <- & Hl).
      apply list_elem_of_In, Hsub in Hl as [Hl _].
      apply Hspec in Hl as (href & text & Hin & Hnorm & Hvalid & Hfresh & _).
      split; [assumption|]. split; [assumption|]. now exists href, text.
    + intros (Hfresh & Hvalid & href & text & Hin & Hnorm).
      apply (unique_links_complete ∅ collected (url, str_lower text));
        [|apply not_elem_of_empty].
      apply Hspec. exists href, text. simpl. tauto.
Qed.

(** X2.  A page with one anchor whose [href] cannot be normalized (the URL
    functions raise on it) is lost as a whole: the exception leaves
    [_extract_links_with_text], is caught in [_fetch_page_sync], and the
    fetch answers [None] although the request succeeded. *)
Theorem bad_href_fails_fetch self url doc href text :
  web url = Some doc ->
  (href, text) ∈ doc_anchors doc ->
  _normalize_url self href = None ->
  _fetch_page_sync self url = None.
Proof using Type.
  intros Hweb Hin Hnone. unfold _fetch_page_sync, _extract_links_with_text.
  rewrite Hweb. simpl.
  now rewrite (collect_links_raises self _ href text Hin Hnone).
Qed.

(** The links of a fetch are valid internal URLs. *)
Lemma fetch_links_valid self url soup links :
  _fetch_page_sync self url = Some (soup, links) ->
  Forall (fun l => _is_valid_internal_url self l.1 = Some true) links.
Proof using Type.
  unfold _fetch_page_sync.
  destruct (web url) as [html|]; [|discriminate]. simpl.
  destruct (_extract_links_with_text self _) as [found|] eqn:Hlinks;
    [|discriminate].
  simpl. intros [= _ <-]. revert Hlinks. unfold _extract_links_with_text.
  destruct (collect_links self _) as [collected|] eqn:Hc; [|discriminate].
  simpl. intros [= <-]. apply Forall_forall. intros l Hl.
  apply (unique_links_spec ∅ collected) in Hl as [Hl _].
  apply (collect_links_spec self _ _ Hc) in Hl as (_ & _ & _ & _ & Hv & _).
  exact Hv.
Qed.

(** ** Invariants of a crawl

    Every page but the homepage is marked only when it is not marked yet,
    and it comes from the links of a page fetched before.  So a property of
    the state is kept by [scrape_sync] when it holds once the homepage is
    marked, survives the marking of a fresh URL taken from fetched links,
    and survives the extraction from the page just marked. *)

(** The full-site loop, with its frontier. *)
Lemma crawl_all_closed_frontier (Q : scraper -> list link -> Prop) :
  (forall self to_crawl self' to_crawl',
     Q self to_crawl -> crawl_step self to_crawl = Some (self', to_crawl') ->
     Q self' to_crawl') ->
  forall self to_crawl, Q self to_crawl ->
    exists to_crawl', Q (crawl_all self to_crawl) to_crawl'.
Proof using Type.
  intros Hkeep self to_crawl.
  funelim (crawl_all self to_crawl); intros HQ; [|now exists to_crawl].
  match goal with
  | IH : forall Q : scraper -> list link -> Prop, _ |- _ =>
      apply IH; [exact Hkeep|]
  end.
  eapply Hkeep; eassumption.
Qed.

Section CrawlInvariant.

Variable P : scraper -> Prop.
(** What holds of the URLs of fetched links. *)
Variable L : pystr -> Prop.

Hypothesis P_page :
  forall self url soup links,
    P (visit url self) ->
    _fetch_page_sync (visit url self) url = Some (soup, links) ->
    P (_extract_faqs_from_page (visit url self) soup url).
Hypothesis P_visit :
  forall self url, url ∉ visited_urls self -> L url -> P self ->
    P (visit url self).
Hypothesis P_found : forall self, P self -> P (set_faq_page_found true self).
Hypothesis L_links :
  forall self url soup links,
    P self -> _fetch_page_sync self url = Some (soup, links) ->
    Forall (fun l => L l.1) links.

Lemma crawl_faq_links_invariant faq_links self :
  Forall (fun l => L l.1) faq_links -> P self ->
  P (fold_left crawl_faq_link faq_links self).
Proof using P_page P_visit P_found.
  intros Hlinks. revert self.
  induction Hlinks as [|l rest Hl _ IH]; intros self HP; simpl;
    [assumption|].
  apply IH. unfold crawl_faq_link. case_bool_decide as Hseen; [assumption|].
  pose proof (P_visit self l.1 Hseen Hl HP) as Hvisit.
  destruct (_fetch_page_sync (visit l.1 self) l.1) as [[soup links]|]
    eqn:Hfetch; [|assumption].
  eapply P_found, P_page; eassumption.
Qed.

Lemma crawl_step_invariant self to_crawl self' to_crawl' :
  P self /\ Forall (fun l => L l.1) to_crawl ->
  crawl_step self to_crawl = Some (self', to_crawl') ->
  P self' /\ Forall (fun l => L l.1) to_crawl'.
Proof using P_page P_visit L_links.
  intros [HP Hlinks]. unfold crawl_step.
  destruct to_crawl as [|[url text] rest]; [discriminate|].
  apply Forall_cons in Hlinks as [Hurl Hrest]. simpl in Hurl.
  case_bool_decide; [|discriminate].
  case_bool_decide as Hseen; [intros [= <- <-]; now split|].
  pose proof (P_visit self url Hseen Hurl HP) as Hvisit.
  destruct (_fetch_page_sync (visit url self) url) as [[soup links]|]
    eqn:Hfetch; intros [= <- <-]; [|now split].
  split; [eapply P_page; eassumption|].
  apply Forall_app. split; [assumption|].
  pose proof (L_links _ _ _ _ Hvisit Hfetch) as Hnew.
  rewrite Forall_forall in Hnew. apply Forall_forall. intros lk Hlk.
  apply list_elem_of_filter in Hlk as [_ Hlk]. now apply Hnew.
Qed.

Lemma scrape_sync_state_invariant self :
  P (visit (base_url self) self) -> P (scrape_sync_state self).
Proof using P_page P_visit P_found L_links.
  intros Hhome. unfold scrape_sync_state.
  assert (P (fetch_homepage self).1
          /\ Forall (fun l => L l.1) (fetch_homepage self).2) as [HP Hlinks].
  { unfold fetch_homepage.
    destruct (_fetch_page_sync (visit (base_url self) self)
                (base_url (visit (base_url self) self)))
      as [[soup links]|] eqn:Hfetch; simpl; [|now split].
    split; [eapply P_page; eassumption | eapply L_links; eassumption]. }
  destruct (fetch_homepage self) as [home links]. simpl in HP, Hlinks.
  set (faq_links := filter (fun l => _is_faq_link l.1 l.2) links).
  assert (P (match faq_links with
             | [] => home
             | _ :: _ => fold_left crawl_faq_link faq_links home
             end)) as Hfaq.
  { destruct faq_links as [|first others] eqn:Heq; [assumption|].
    rewrite <- Heq. apply crawl_faq_links_invariant; [|assumption].
    rewrite Forall_forall in Hlinks. apply Forall_forall. intros l Hl.
    apply list_elem_of_filter in Hl as [_ Hl]. now apply Hlinks. }
  case_bool_decide; [|assumption].
  edestruct (crawl_all_closed_frontier
               (fun s q => P s /\ Forall (fun l => L l.1) q))
    as [q [Hdone _]]; [| |exact Hdone].
  - intros s q s' q'. apply crawl_step_invariant.
  - split; [exact Hfaq|].
    rewrite Forall_forall in Hlinks. apply Forall_forall. intros l Hl.
    apply list_elem_of_filter in Hl as [_ Hl]. now apply Hlinks.
Qed.

End CrawlInvariant.

(** What marking a URL writes. *)
Lemma visit_log url self :
  crawl_log (visit url self) = crawl_log self ++ [url]
  /\ visited_urls (visit url self) = {[url]} ∪ visited_urls self
  /\ all_faqs (visit url self) = all_faqs self
  /\ domain (visit url self) = domain self.
Proof using Type. repeat split. Qed.

(** X3.  A crawl requests every URL at most once, the homepage first, and
    [visited_urls] holds exactly the requested URLs: [pagesProcessed]
    counts the requests, failed ones included. *)
Theorem requests_are_distinct (base dom : pystr) (max : Z) :
  NoDup (crawl_log (scrape_sync_state (new_scraper base dom max)))
  /\ visited_urls (scrape_sync_state (new_scraper base dom max))
     = list_to_set (crawl_log (scrape_sync_state (new_scraper base dom max)))
  /\ pagesProcessed (scrape_sync (new_scraper base dom max))
     = length (crawl_log (scrape_sync_state (new_scraper base dom max)))
  /\ head (crawl_log (scrape_sync_state (new_scraper base dom max)))
     = Some base.
Proof using Type.
  assert (let final := scrape_sync_state (new_scraper base dom max) in
          NoDup (crawl_log final)
          /\ visited_urls final = list_to_set (crawl_log final)
          /\ head (crawl_log final) = Some base) as (Hnodup & Hset & Hhead).
  { apply (scrape_sync_state_invariant
             (fun s => NoDup (crawl_log s)
                       /\ visited_urls s = list_to_set (crawl_log s)
                       /\ head (crawl_log s) = Some base)
             (fun _ => True)).
    - intros s url soup links HP _.
      destruct (extract_faqs_from_page_frontier (visit url s) soup url)
        as (_ & _ & _ & -> & _ & ->). exact HP.
    - intros s url Hfresh _ (Hnodup & Hset & Hhead).
      destruct (visit_log url s) as (-> & -> & _).
      split; [|split].
      + apply NoDup_app. split; [assumption|]. split; [|apply NoDup_singleton].
        intros u Hu Hnew. apply list_elem_of_singleton in Hnew. subst u.
        apply Hfresh. rewrite Hset. now apply elem_of_list_to_set.
      + rewrite Hset, list_to_set_app_L. simpl.
        rewrite union_empty_r_L. apply union_comm_L.
      + destruct (crawl_log s); [discriminate | exact Hhead].
    - intros s HP. exact HP.
    - intros s url soup links _ _. apply Forall_forall. intros l _. exact I.
    - simpl. split; [apply NoDup_singleton|].
      split; [|reflexivity].
      rewrite union_empty_r_L. reflexivity. }
  repeat split; try assumption.
  unfold scrape_sync, result_of. simpl. rewrite Hset.
  now apply size_list_to_set.
Qed.

(** What the validator accepts. *)
Lemma valid_internal_url_sound self url :
  _is_valid_internal_url self url = Some true ->
  exists parsed,
    Urllib.urlparse netloc_ok url = Some parsed
    /\ Urllib.scheme parsed ∈ [[]; py "http"; py "https"]
    /\ (Urllib.netloc parsed = [] \/ Urllib.netloc parsed = domain self)
    /\ (length (nonempty_segments (Urllib.path parsed)) <= 1)%nat.
Proof using Type.
  unfold _is_valid_internal_url. case_bool_decide; [discriminate|].
  destruct (Urllib.urlparse netloc_ok url) as [parsed|]; [|discriminate].
  cbn [mbind option_bind].
  destruct (negb (bool_decide (Urllib.scheme parsed = []))
            && negb (bool_decide
                       (Urllib.scheme parsed ∈ [py "http"; py "https"])))
    eqn:Hscheme; [discriminate|].
  destruct (existsb _ url_skip_patterns); [discriminate|].
  destruct (negb (bool_decide (Urllib.netloc parsed = []))
            && negb (bool_decide (Urllib.netloc parsed = domain self)))
    eqn:Hnet; [discriminate|].
  destruct (path_depth_ok (Urllib.path parsed)) eqn:Hdepth; [|discriminate].
  intros _. exists parsed. split; [reflexivity|]. split; [|split].
  - apply andb_false_iff in Hscheme as [Hs | Hs];
      apply negb_false_iff, bool_decide_eq_true in Hs.
    + rewrite Hs. now left.
    + now right.
  - apply andb_false_iff in Hnet as [Hn | Hn];
      apply negb_false_iff, bool_decide_eq_true in Hn; tauto.
  - destruct (le_lt_dec (length (nonempty_segments (Urllib.path parsed))) 1)
      as [Hle | Hgt]; [exact Hle|].
    apply path_depth_ok_segments in Hgt. congruence.
Qed.

Lemma crawl_log_valid (base dom : pystr) (max : Z) :
  exists rest,
    crawl_log (scrape_sync_state (new_scraper base dom max)) = base :: rest
    /\ Forall (fun url =>
                 _is_valid_internal_url (new_scraper base dom max) url
                 = Some true) rest.
Proof using Type.
  apply (scrape_sync_state_invariant
           (fun s => domain s = dom
                     /\ exists rest,
                          crawl_log s = base :: rest
                          /\ Forall (fun url =>
                                       _is_valid_internal_url
                                         (new_scraper base dom max) url
                                       = Some true) rest)
           (fun url => _is_valid_internal_url (new_scraper base dom max) url
                       = Some true)).
  - intros s url soup links HP _.
    destruct (extract_faqs_from_page_frontier (visit url s) soup url)
      as (_ & -> & _ & _ & _ & ->). exact HP.
  - intros s url _ Hvalid (Hdom & rest & Hlog & Hrest).
    split; [exact Hdom|]. exists (rest ++ [url]). simpl. rewrite Hlog.
    split; [reflexivity|]. apply Forall_app. split; [assumption|].
    now constructor.
  - intros s HP. exact HP.
  - intros s url soup links (Hdom & _) Hfetch.
    apply fetch_links_valid in Hfetch.
    eapply Forall_impl; [exact Hfetch|]. simpl. intros l Hl.
    now rewrite (is_valid_internal_url_domain s (new_scraper base dom max))
      by (simpl; congruence).
  - simpl. split; [reflexivity|]. exists []. split; [reflexivity | constructor].
Qed.

(** X4.  A crawl never leaves the site: every URL it requests after the
    homepage is one the validator accepts for the crawl's domain, so its
    host is that domain (or empty), its scheme is http or https (or
    empty), and its path has at most one non-empty segment. *)
Theorem crawl_stays_internal (base dom : pystr) (max : Z) :
  exists rest,
    crawl_log (scrape_sync_state (new_scraper base dom max)) = base :: rest
    /\ Forall (fun url =>
                 _is_valid_internal_url (new_scraper base dom max) url
                 = Some true
                 /\ exists parsed,
                      Urllib.urlparse netloc_ok url = Some parsed
                      /\ Urllib.scheme parsed ∈ [[]; py "http"; py "https"]
                      /\ (Urllib.netloc parsed = []
                          \/ Urllib.netloc parsed = dom)
                      /\ (length (nonempty_segments (Urllib.path parsed))
                          <= 1)%nat) rest.
Proof using Type.
  destruct (crawl_log_valid base dom max) as (rest & Hlog & Hvalid).
  exists rest. split; [exact Hlog|].
  eapply Forall_impl; [exact Hvalid|]. simpl. intros url Hurl.
  split; [exact Hurl|].
  now apply (valid_internal_url_sound (new_scraper base dom max)).
Qed.

(** X5.  Every record a crawl returns names, as its [sourceUrl], a URL the
    crawl requested. *)
Theorem record_sources_requested (base dom : pystr) (max : Z) :
  Forall (fun r => sourceUrl r
                   ∈ crawl_log (scrape_sync_state (new_scraper base dom max)))
    (faqs (scrape_sync (new_scraper base dom max))).
Proof using Type.
  apply (scrape_sync_state_invariant
           (fun s => Forall (fun r => sourceUrl r ∈ crawl_log s) (all_faqs s))
           (fun _ => True)).
  - intros s url soup links HP _.
    destruct (extract_faqs_from_page_frontier (visit url s) soup url)
      as (_ & _ & _ & _ & _ & ->).
    destruct (extract_faqs_from_page_source (visit url s) soup url)
      as (added & -> & Hadded).
    apply Forall_app. split; [exact HP|].
    eapply Forall_impl; [exact Hadded|]. simpl. intros r ->.
    apply elem_of_app. right. now left.
  - intros s url _ _ HP. simpl.
    eapply Forall_impl; [exact HP|]. simpl. intros r Hr.
    apply elem_of_app. now left.
  - intros s HP. exact HP.
  - intros s url soup links _ _. apply Forall_forall. intros l _. exact I.
  - constructor.
Qed.

(** ** What the stored records have passed *)

Lemma strip_idem p s : strip p (strip p s) = strip p s.
Proof using Type.
  unfold strip, lstrip.
  destruct (rstrip_decompose p (drop_while p s)) as (tail & Heq & _).
  destruct (rstrip p (drop_while p s)) as [|c rest] eqn:Hr; [reflexivity|].
  rewrite <- app_comm_cons in Heq. apply drop_while_head in Heq.
  rewrite (drop_while_none p rest c Heq), <- Hr. apply rstrip_idem.
Qed.

(** A call that stores a record has passed every filter of [_add_faq]. *)
Lemma add_faq_stored self q a url :
  _add_faq self q a url = self
  \/ (all_faqs (_add_faq self q a url)
      = all_faqs self ++ [stored_record q a url]
      /\ seen_questions (_add_faq self q a url)
         = {[question_key (clean_question q)]} ∪ seen_questions self
      /\ _is_english q = true /\ _is_english a = true
      /\ existsb (fun p => contains p (question_key (clean_question q)))
           faq_skip_patterns = false
      /\ question_key (clean_question q) <> []).
Proof using Type.
  unfold _add_faq.
  destruct (_is_english q); [|now left].
  destruct (_is_english a); [|now left]. cbn [negb orb].
  destruct (existsb _ faq_skip_patterns) eqn:Hskip; [now left|].
  destruct (negb (bool_decide (question_key (clean_question q) = []))
            && negb (bool_decide
                       (question_key (clean_question q) ∈ seen_questions self))
            && (5 <? length (clean_question q))%nat) eqn:Hcond; [|now left].
  right. rewrite !andb_true_iff, !negb_true_iff in Hcond.
  destruct Hcond as [[Hkey _] _]. apply bool_decide_eq_false in Hkey.
  repeat split; assumption.
Qed.

(** X6.  Every record a crawl returns has an answer that passes the
    English heuristic, and a question without surrounding white space
    whose comparison key is not empty and contains none of the account and
    marketing phrases of [_add_faq]. *)
Theorem stored_records_filtered (base dom : pystr) (max : Z) :
  Forall (fun r =>
            _is_english (answer r) = true
            /\ strip is_space (question r) = question r
            /\ record_key r <> []
            /\ existsb (fun p => contains p (record_key r)) faq_skip_patterns
               = false)
    (faqs (scrape_sync (new_scraper base dom max))).
Proof using Type.
  apply (scrape_sync_state_closed
           (fun s => Forall (fun r =>
                               _is_english (answer r) = true
                               /\ strip is_space (question r) = question r
                               /\ record_key r <> []
                               /\ existsb (fun p => contains p (record_key r))
                                    faq_skip_patterns = false)
                       (all_faqs s))).
  - intros url self q a _ _ Hall.
    destruct (add_faq_stored self q a url)
      as [-> | (-> & _ & _ & Ha & Hskip & Hkey)]; [assumption|].
    apply Forall_app. split; [assumption|].
    constructor; [|constructor]. unfold record_key, stored_record. simpl.
    repeat split; try assumption.
    unfold clean_question. apply strip_idem.
  - intros self url Hall. exact Hall.
  - intros self b Hall. exact Hall.
  - constructor.
Qed.

(** The filters of [_add_faq] that do not look at the state. *)
Definition passes_filters (question answer : pystr) : bool :=
  _is_english question && _is_english answer
  && negb (existsb (fun p => contains p (question_key (clean_question question)))
             faq_skip_patterns)
  && negb (bool_decide (question_key (clean_question question) = []))
  && (5 <? length (clean_question question))%nat.

(** After a call the key of a pair that passes the filters is seen,
    whether the pair was stored or was a duplicate. *)
Lemma add_faq_seen_questions self q a url :
  seen_questions (_add_faq self q a url)
  = if passes_filters q a
    then {[question_key (clean_question q)]} ∪ seen_questions self
    else seen_questions self.
Proof using Type.
  unfold _add_faq, passes_filters.
  destruct (_is_english q); [|reflexivity].
  destruct (_is_english a); [|reflexivity]. cbn [negb orb andb].
  destruct (existsb _ faq_skip_patterns); [reflexivity|]. cbn [negb andb].
  destruct (bool_decide (question_key (clean_question q) = []));
    [reflexivity|].
  cbn [negb andb].
  destruct (5 <? length (clean_question q))%nat;
    [|now rewrite andb_false_r].
  rewrite !andb_true_r. case_bool_decide as Hseen; [|reflexivity].
  cbn [negb]. symmetry. apply subseteq_union_1_L.
  now apply singleton_subseteq_l.
Qed.

(** X23.  Which questions a sequence of [_add_faq] calls collects does
    not depend on the order of the calls: two calls leave the same
    [seen_questions] in either order (the order only decides whose answer
    is stored under a shared key), and the key of a pair that passes the
    filters is in [seen_questions] after its call. *)
Theorem collected_keys_ignore_order self q1 a1 u1 q2 a2 u2 :
  seen_questions (_add_faq (_add_faq self q1 a1 u1) q2 a2 u2)
  = seen_questions (_add_faq (_add_faq self q2 a2 u2) q1 a1 u1)
  /\ (passes_filters q1 a1 = true ->
      question_key (clean_question q1)
      ∈ seen_questions (_add_faq self q1 a1 u1)).
Proof using Type.
  split.
  - rewrite !add_faq_seen_questions.
    destruct (passes_filters q1 a1), (passes_filters q2 a2);
      try reflexivity.
    rewrite !(assoc_L (∪)). f_equal. apply (comm_L (∪)).
  - intros Hpass. rewrite add_faq_seen_questions, Hpass.
    apply elem_of_union_l, elem_of_singleton. reflexivity.
Qed.

(** X7.  [seen_questions] is kept in step with [all_faqs]: at the end of a
    crawl it holds exactly the comparison keys of the returned records, one
    key per record. *)
Theorem seen_questions_are_record_keys (base dom : pystr) (max : Z) :
  seen_questions (scrape_sync_state (new_scraper base dom max))
  = list_to_set (map record_key (faqs (scrape_sync (new_scraper base dom max))))
  /\ size (seen_questions (scrape_sync_state (new_scraper base dom max)))
     = totalFaqsFound (scrape_sync (new_scraper base dom max)).
Proof using Type.
  assert (seen_questions (scrape_sync_state (new_scraper base dom max))
          = list_to_set
              (map record_key
                 (all_faqs (scrape_sync_state (new_scraper base dom max)))))
    as Hkeys.
  { apply (scrape_sync_state_closed
             (fun s => seen_questions s
                       = list_to_set (map record_key (all_faqs s)))).
    - intros url self q a _ _ Hset.
      destruct (add_faq_stored self q a url) as [-> | (-> & -> & _)];
        [assumption|].
      rewrite map_app, list_to_set_app_L, Hset. simpl.
      rewrite union_empty_r_L. apply union_comm_L.
    - intros self url Hset. exact Hset.
    - intros self b Hset. exact Hset.
    - reflexivity. }
  split; [exact Hkeys|].
  unfold scrape_sync, result_of. simpl. rewrite Hkeys.
  rewrite size_list_to_set, length_map; [reflexivity|].
  apply (scrape_sync_state_dedup (new_scraper base dom max)).
  split; [constructor | intros r Hr; inversion Hr].
Qed.

(** X8.  Extraction from a page only appends: the records stored before
    stay where they are, every record it adds carries the URL of the page,
    [seen_questions] only grows, and the frontier of the crawl (visited
    URLs, limits, flag) is left alone. *)
Theorem extraction_appends self soup url :
  same_frontier self (_extract_faqs_from_page self soup url)
  /\ seen_questions self ⊆ seen_questions (_extract_faqs_from_page self soup url)
  /\ exists added,
       all_faqs (_extract_faqs_from_page self soup url)
       = all_faqs self ++ added
       /\ Forall (fun r => sourceUrl r = url) added.
Proof using Type.
  split; [apply extract_faqs_from_page_frontier|]. split.
  - apply (extract_faqs_from_page_closed
             (fun s => seen_questions self ⊆ seen_questions s)); [|reflexivity].
    intros s q a _ _ Hsub.
    destruct (add_faq_stored s q a url) as [-> | (_ & -> & _)]; [assumption|].
    intros key Hkey. apply elem_of_union_r, Hsub, Hkey.
  - apply extract_faqs_from_page_source.
Qed.

(** ** The loop of the full crawl, unfolded *)

Lemma crawl_all_step self to_crawl :
  crawl_all self to_crawl
  = match crawl_step self to_crawl with
    | Some (self', to_crawl') => crawl_all self' to_crawl'
    | None => self
    end.
Proof using Type.
  funelim (crawl_all self to_crawl).
  - match goal with H : crawl_step _ _ = Some _ |- _ => now rewrite H end.
  - match goal with H : crawl_step _ _ = None |- _ => now rewrite H end.
Qed.

(** X9.  When the request for the homepage fails, the crawl ends there:
    no record, one page processed, no FAQ page found. *)
Theorem unreachable_homepage (base dom : pystr) (max : Z) :
  web base = None ->
  scrape_sync (new_scraper base dom max)
  = {| website := base; faqs := []; pagesProcessed := 1;
       totalFaqsFound := 0; faqPageFound := false |}
  /\ crawl_log (scrape_sync_state (new_scraper base dom max)) = [base].
Proof using Type.
  intros Hweb.
  assert (scrape_sync_state (new_scraper base dom max)
          = visit base (new_scraper base dom max)) as Hstate.
  { unfold scrape_sync_state, fetch_homepage, _fetch_page_sync. simpl.
    rewrite Hweb. simpl. now rewrite crawl_all_step. }
  unfold scrape_sync, result_of. rewrite Hstate.
  assert (size (visited_urls (visit base (new_scraper base dom max))) = 1%nat)
    as Hsize.
  { change (visited_urls (visit base (new_scraper base dom max)))
      with ({[base]} ∪ (∅ : gset pystr)).
    now rewrite union_empty_r_L, size_singleton. }
  rewrite Hsize. split; reflexivity.
Qed.

(** X22.  With [max_pages] at most 1 (zero and negative values
    included) and no FAQ link on the homepage, the homepage is the only
    page requested: the full-site loop is left before its first turn. *)
Theorem single_page_budget (base dom : pystr) (max : Z) :
  (max <= 1)%Z ->
  homepage_faq_links (new_scraper base dom max) = [] ->
  crawl_log (scrape_sync_state (new_scraper base dom max)) = [base]
  /\ pagesProcessed (scrape_sync (new_scraper base dom max)) = 1%nat.
Proof using Type.
  intros Hmax. unfold homepage_faq_links, homepage_links.
  assert (scrape_sync_state (new_scraper base dom max)
          = (let '(home, links) := fetch_homepage (new_scraper base dom max) in
             let faq_links := filter (fun l => _is_faq_link l.1 l.2) links in
             let focused :=
               match faq_links with
               | [] => home
               | _ :: _ => fold_left crawl_faq_link faq_links home
               end in
             if bool_decide (all_faqs focused = [])
             then crawl_all focused
                    (filter (fun l => l.1 ∉ visited_urls focused) links)
             else focused)) as Hstate by reflexivity.
  pose proof (fetch_homepage_frontier (new_scraper base dom max))
    as (_ & _ & Hlimit & Hvisited & _ & Hlog).
  destruct (fetch_homepage (new_scraper base dom max)) as [home links].
  cbn [fst snd] in *. intros Hnone. rewrite Hnone in Hstate.
  change (max_pages home = max) in Hlimit.
  change (crawl_log home = [base]) in Hlog.
  change (visited_urls home = {[base]} ∪ ∅) in Hvisited.
  rewrite union_empty_r_L in Hvisited.
  assert (scrape_sync_state (new_scraper base dom max) = home) as Hhome.
  { rewrite Hstate. cbv zeta. case_bool_decide; [|reflexivity].
    rewrite crawl_all_step. unfold crawl_step.
    destruct (filter _ links) as [|[url text] rest]; [reflexivity|].
    rewrite bool_decide_eq_false_2; [reflexivity|].
    rewrite Hvisited, Hlimit, size_singleton. lia. }
  unfold scrape_sync, result_of. rewrite Hhome. cbn [pagesProcessed].
  now rewrite Hlog, Hvisited, size_singleton.
Qed.

(** ** The paragraph strategies *)

(** What the paragraph loop does with a question paragraph and the run of
    paragraphs after it. *)
Definition add_paragraph_pair (self : scraper) (p_text : pystr)
  (answer_parts : list pystr) (url : pystr) : scraper :=
  let question := _normalize_text p_text in
  let answer := _normalize_text (join (py " ") answer_parts) in
  if both_nonempty question answer && (20 <? length answer)%nat
  then _add_faq self question answer url else self.

(** One turn of the paragraph loop. *)
Lemma scan_paragraphs_step self paragraphs url bound i :
  scan_paragraphs self paragraphs url bound i
  = if decide (i < bound)%nat then
      if looks_like_question (nth i paragraphs [])
      then scan_paragraphs
             (add_paragraph_pair self (nth i paragraphs [])
                (answer_run paragraphs (i + 1)) url)
             paragraphs url bound
             (i + 1 + length (answer_run paragraphs (i + 1)))%nat
      else scan_paragraphs self paragraphs url bound (i + 1)%nat
    else self.
Proof using Type.
  funelim (scan_paragraphs self paragraphs url bound i).
  - destruct (decide (i < bound)%nat); [reflexivity | lia].
  - destruct (decide (i < bound)%nat); [lia | reflexivity].
Qed.

Lemma answer_run_shift pre paragraphs j :
  answer_run (pre ++ paragraphs) (length pre + j) = answer_run paragraphs j.
Proof using Type. unfold answer_run. now rewrite drop_app_add. Qed.

(** The loop does not look back: started behind a prefix, it runs as on
    the rest alone. *)
Lemma scan_paragraphs_shift pre paragraphs url bound i self :
  scan_paragraphs self (pre ++ paragraphs) url
    (length pre + bound) (length pre + i)
  = scan_paragraphs self paragraphs url bound i.
Proof using Type.
  remember (bound - i)%nat as n eqn:Hn. revert i Hn self.
  induction n as [n IH] using lt_wf_ind. intros i Hn self.
  rewrite (scan_paragraphs_step self (pre ++ paragraphs)),
    (scan_paragraphs_step self paragraphs).
  destruct (decide (i < bound)%nat);
    destruct (decide (length pre + i < length pre + bound)%nat); try lia;
    [|reflexivity].
  rewrite app_nth2_plus.
  replace (length pre + i + 1)%nat with (length pre + (i + 1))%nat by lia.
  rewrite answer_run_shift.
  destruct (looks_like_question (nth i paragraphs [])).
  - replace (length pre + (i + 1) + length (answer_run paragraphs (i + 1)))%nat
      with (length pre + (i + 1 + length (answer_run paragraphs (i + 1))))%nat
      by lia.
    apply (IH (bound - (i + 1 + length (answer_run paragraphs (i + 1))))%nat);
      lia.
  - apply (IH (bound - (i + 1))%nat); lia.
Qed.

(** X10.  The index loop of [_extract_from_paragraph_list] is a recursion
    on the list: a paragraph that does not look like a question is
    skipped; a question takes the paragraphs up to the next question as
    its answer, joined by spaces, and the loop goes on from that next
    question. *)
Theorem paragraph_list_by_runs self url :
  _extract_from_paragraph_list self [] url = self
  /\ (forall p rest,
        looks_like_question p = false ->
        _extract_from_paragraph_list self (p :: rest) url
        = _extract_from_paragraph_list self rest url)
  /\ (forall p rest,
        looks_like_question p = true ->
        _extract_from_paragraph_list self (p :: rest) url
        = _extract_from_paragraph_list
            (add_paragraph_pair self p
               (take_while (fun t => negb (looks_like_question t)) rest) url)
            (drop_while (fun t => negb (looks_like_question t)) rest) url).
Proof using Type.
  unfold _extract_from_paragraph_list. split; [|split].
  - now rewrite scan_paragraphs_step.
  - intros p rest Hp. rewrite scan_paragraphs_step. simpl. rewrite Hp.
    apply (scan_paragraphs_shift [p] rest url (length rest) 0).
  - intros p rest Hp. rewrite scan_paragraphs_step.
    destruct (decide (0 < length (p :: rest))%nat) as [_ | Hbad];
      [|simpl in Hbad; lia].
    change (nth 0 (p :: rest) []) with p. rewrite Hp.
    change (answer_run (p :: rest) (0 + 1))
      with (take_while (fun t => negb (looks_like_question t)) rest).
    set (run := take_while (fun t => negb (looks_like_question t)) rest).
    set (next := drop_while (fun t => negb (looks_like_question t)) rest).
    assert (rest = run ++ next) as Hrest
      by (symmetry; apply drop_while_app_take_while).
    rewrite <- (scan_paragraphs_shift (p :: run) next url (length next) 0).
    clearbody run next. subst rest.
    f_equal; simpl; rewrite ?length_app; lia.
Qed.

(** X11.  The last pattern of [_extract_from_faq_element], whose loop
    stops one paragraph early, does what [_extract_from_paragraph_list]
    does on the same paragraphs: a question in the last paragraph has no
    answer and stores nothing. *)
Theorem paragraph_pattern_is_paragraph_list self elem url :
  extract_paragraphs self elem url
  = _extract_from_paragraph_list self (e_paragraphs elem) url.
Proof using Type.
  unfold extract_paragraphs, _extract_from_paragraph_list.
  set (paragraphs := e_paragraphs elem).
  assert (forall n i self,
            (length paragraphs - i = n)%nat ->
            scan_paragraphs self paragraphs url (length paragraphs - 1) i
            = scan_paragraphs self paragraphs url (length paragraphs) i)
    as Hsame; [|now apply (Hsame (length paragraphs - 0)%nat)].
  clear self. intros n. induction n as [n IH] using lt_wf_ind.
  intros i self Hn.
  rewrite (scan_paragraphs_step self paragraphs url (length paragraphs - 1)),
    (scan_paragraphs_step self paragraphs url (length paragraphs)).
  destruct (decide (i < length paragraphs - 1)%nat) as [Hin | Hout].
  - destruct (decide (i < length paragraphs)%nat); [|lia].
    destruct (looks_like_question (nth i paragraphs [])).
    + eapply IH; [|reflexivity]. lia.
    + eapply IH; [|reflexivity]. lia.
  - destruct (decide (i < length paragraphs)%nat) as [Hlast | _];
      [|reflexivity].
    assert (answer_run paragraphs (i + 1) = []) as Hrun.
    { unfold answer_run. now rewrite drop_ge by lia. }
    rewrite Hrun. unfold add_paragraph_pair. simpl.
    rewrite (scan_paragraphs_step _ paragraphs url _ (i + 1 + 0)),
      (scan_paragraphs_step _ paragraphs url _ (i + 1)).
    destruct (decide (i + 1 + 0 < length paragraphs)%nat); [lia|].
    destruct (decide (i + 1 < length paragraphs)%nat); [lia|].
    unfold _normalize_text at 2. simpl.
    rewrite andb_false_r. simpl.
    now destruct (looks_like_question (nth i paragraphs [])).
Qed.

(** ** What normalization keeps of an http(s) URL *)

Lemma while_app_stop {A} (p : A -> bool) (w : list A) x k :
  p x = false ->
  take_while p (w ++ x :: k) = take_while p w
  /\ drop_while p (w ++ x :: k) = drop_while p w ++ x :: k.
Proof using Type.
  intros Hx. induction w as [|y w [IH1 IH2]]; simpl.
  - now rewrite Hx.
  - destruct (p y); [now rewrite IH1, IH2 | now split].
Qed.

Lemma take_while_app_all {A} (p : A -> bool) (l k : list A) :
  Forall (fun x => p x = true) l ->
  take_while p (l ++ k) = l ++ take_while p k.
Proof using Type.
  induction 1 as [|x l Hx _ IH]; simpl; [reflexivity|]. now rewrite Hx, IH.
Qed.

Lemma contains_char_app c a b : contains [c] (a ++ c :: b) = true.
Proof using Type.
  destruct (contains [c] (a ++ c :: b)) eqn:Hc; [reflexivity|].
  apply contains_char_false, Forall_app in Hc as [_ Hc].
  apply Forall_inv in Hc. contradiction.
Qed.

Lemma split_first_app c a b :
  Forall (fun x => x <> c) a -> split_first c (a ++ c :: b) = (a, b).
Proof using Type.
  intros Ha. unfold split_first.
  destruct (take_while_app_stop (fun x => negb (x =? c)) a c b) as [-> ->].
  - eapply Forall_impl; [exact Ha|]. simpl. intros x Hx.
    now apply negb_true_iff, N.eqb_neq.
  - now rewrite N.eqb_refl.
  - reflexivity.
Qed.

Lemma rstrip_snoc p s c : p c = true -> rstrip p (s ++ [c]) = rstrip p s.
Proof using Type.
  intros Hc. unfold rstrip. rewrite rev_app_distr. simpl. now rewrite Hc.
Qed.

(** The path [_normalize_url] writes for a parsed path. *)
Definition normal_path (path : pystr) : pystr :=
  if bool_decide (rstrip (N.eqb (ch "/")) path = []) then py "/"
  else rstrip (N.eqb (ch "/")) path.

(** The path [urlparse] finds in the text after the network location. *)
Definition path_of (url : pystr) : pystr :=
  let url :=
    (if contains [ch "#"] url then split_first (ch "#") url else (url, [])).1 in
  let url :=
    (if contains [ch "?"] url then split_first (ch "?") url else (url, [])).1 in
  (if contains [ch ";"] url then Urllib._splitparams url else (url, [])).1.

Lemma parse_http_parts sch rest :
  (fun p => (Urllib.scheme p, Urllib.netloc p, Urllib.path p))
    <$> parse_http sch rest
  = if bool_decide (take_while not_delim rest = [])
       || netloc_ok (take_while not_delim rest)
    then Some (sch, take_while not_delim rest,
               path_of (drop_while not_delim rest))
    else None.
Proof using Type.
  unfold parse_http, path_of.
  destruct (if contains [ch "#"] (drop_while not_delim rest)
            then split_first (ch "#") (drop_while not_delim rest)
            else (drop_while not_delim rest, [])) as [url1 frag].
  cbn [fst].
  destruct (if contains [ch "?"] url1 then split_first (ch "?") url1
            else (url1, [])) as [url2 qry].
  cbn [fst].
  destruct (if contains [ch ";"] url2 then Urllib._splitparams url2
            else (url2, [])) as [url3 prm].
  cbn [fst].
  now destruct (bool_decide (take_while not_delim rest = []) || netloc_ok _).
Qed.

(** [_normalize_url] on an absolute http(s) URL. *)
Lemma normalize_url_http self sch w :
  http_scheme sch ->
  _normalize_url self (sch ++ py "://" ++ w)
  = (fun parts : pystr * pystr * pystr =>
       parts.1.1 ++ py "://" ++ parts.1.2 ++ normal_path parts.2)
      <$> ((fun p => (Urllib.scheme p, Urllib.netloc p, Urllib.path p))
             <$> parse_http sch (filter not_unsafe w)).
Proof using Type.
  intros Hsch. unfold _normalize_url, absolute_url.
  rewrite (is_http_url_build sch w Hsch). cbn [mbind option_bind].
  rewrite (urlparse_http sch w Hsch).
  now destruct (parse_http sch (filter not_unsafe w)).
Qed.

Lemma not_delim_stop c : c = ch "?" \/ c = ch "#" \/ c = ch "/" -> not_delim c = false.
Proof using Type. intros [-> | [-> | ->]]; reflexivity. Qed.

(** The text after the network location starts with a slash when it has
    neither [?] nor [#]. *)
Lemma after_netloc w :
  Forall (fun c => c <> ch "?" /\ c <> ch "#") w ->
  Forall (fun c => c <> ch "?" /\ c <> ch "#") (drop_while not_delim w).
Proof using Type.
  intros Hw. rewrite <- (drop_while_app_take_while not_delim w) in Hw.
  now apply Forall_app in Hw.
Qed.

Lemma path_of_plain tail :
  Forall (fun c => c <> ch "?" /\ c <> ch "#") tail ->
  path_of tail
  = (if contains [ch ";"] tail then Urllib._splitparams tail else (tail, [])).1.
Proof using Type.
  intros Htail. unfold path_of.
  assert (contains [ch "#"] tail = false) as ->.
  { apply contains_char_false. eapply Forall_impl; [exact Htail|].
    now intros x [_ Hx]. }
  cbn [fst].
  assert (contains [ch "?"] tail = false) as ->.
  { apply contains_char_false. eapply Forall_impl; [exact Htail|].
    now intros x [Hx _]. }
  reflexivity.
Qed.

Lemma path_of_cut tail c rest :
  c = ch "?" \/ c = ch "#" ->
  Forall (fun c => c <> ch "?" /\ c <> ch "#") tail ->
  path_of (tail ++ c :: rest) = path_of tail.
Proof using Type.
  intros Hc Htail. rewrite (path_of_plain tail Htail). unfold path_of.
  assert (Forall (fun x => x <> ch "#") tail) as Hhash
    by (eapply Forall_impl; [exact Htail|]; now intros x [_ Hx]).
  assert (Forall (fun x => x <> ch "?") tail) as Hquery
    by (eapply Forall_impl; [exact Htail|]; now intros x [Hx _]).
  destruct Hc as [-> | ->].
  - assert (exists rest',
              (if contains [ch "#"] (tail ++ ch "?" :: rest)
               then split_first (ch "#") (tail ++ ch "?" :: rest)
               else (tail ++ ch "?" :: rest, [])).1
              = tail ++ ch "?" :: rest') as [rest' ->].
    { destruct (contains [ch "#"] (tail ++ ch "?" :: rest));
        [|now exists rest].
      exists (take_while (fun x => negb (x =? ch "#")) rest).
      unfold split_first. cbn [fst].
      rewrite (take_while_app_all _ tail).
      - reflexivity.
      - eapply Forall_impl; [exact Hhash|]. simpl. intros x Hx.
        now apply negb_true_iff, N.eqb_neq. }
    rewrite contains_char_app, (split_first_app _ _ _ Hquery). reflexivity.
  - rewrite contains_char_app, (split_first_app _ _ _ Hhash). cbn [fst].
    assert (contains [ch "?"] tail = false) as ->
      by now apply contains_char_false.
    reflexivity.
Qed.

(** X12.  Normalization does not see what follows the path: an http(s)
    URL without [?] and [#] normalizes the same with any query and with
    any fragment appended, and, when it has no [;] either, with a slash
    appended. *)
Theorem normalize_url_ignores self (url : pystr) :
  is_http_url url = true ->
  Forall (fun c => c <> ch "?" /\ c <> ch "#") url ->
  (forall query,
     _normalize_url self (url ++ ch "?" :: query) = _normalize_url self url)
  /\ (forall fragment,
        _normalize_url self (url ++ ch "#" :: fragment)
        = _normalize_url self url)
  /\ (Forall (fun c => c <> ch ";") url ->
      _normalize_url self (url ++ py "/") = _normalize_url self url).
Proof using Type.
  intros Hhttp Hplain.
  destruct (is_http_url_split url Hhttp) as (sch & w & Hsch & ->).
  assert (Forall (fun c => c <> ch "?" /\ c <> ch "#") (filter not_unsafe w))
    as Hw.
  { rewrite !Forall_app in Hplain. destruct Hplain as (_ & _ & Hw).
    rewrite Forall_forall in Hw. apply Forall_forall. intros c Hc.
    apply list_elem_of_filter in Hc as [_ Hc]. now apply Hw. }
  pose proof (after_netloc _ Hw) as Htail.
  assert (forall c rest,
            c = ch "?" \/ c = ch "#" ->
            _normalize_url self ((sch ++ py "://" ++ w) ++ c :: rest)
            = _normalize_url self (sch ++ py "://" ++ w)) as Hcut.
  { intros c rest Hc.
    rewrite <- !app_assoc, !(normalize_url_http self sch) by assumption.
    f_equal. rewrite !parse_http_parts, filter_app.
    assert (filter not_unsafe (c :: rest) = c :: filter not_unsafe rest) as ->.
    { apply filter_cons_True. now destruct Hc as [-> | ->]. }
    destruct (while_app_stop not_delim (filter not_unsafe w) c
                (filter not_unsafe rest)) as [-> ->].
    { apply not_delim_stop. tauto. }
    now rewrite (path_of_cut _ c _ Hc Htail). }
  split; [intros query; apply Hcut; now left|].
  split; [intros fragment; apply Hcut; now right|].
  intros Hsemi.
  rewrite <- !app_assoc, !(normalize_url_http self sch) by assumption.
  rewrite !parse_http_parts, filter_app.
  change (filter not_unsafe (py "/")) with [ch "/"].
  destruct (while_app_stop not_delim (filter not_unsafe w) (ch "/") [])
    as [-> ->]; [reflexivity|].
  destruct (bool_decide (take_while not_delim (filter not_unsafe w) = [])
            || netloc_ok _); [|reflexivity].
  cbn [fmap option_fmap option_map fst snd]. do 4 f_equal.
  assert (Forall (fun c => c <> ch ";") (drop_while not_delim (filter not_unsafe w)))
    as Htail_semi.
  { rewrite !Forall_app in Hsemi. destruct Hsemi as (_ & _ & Hsemi).
    assert (Forall (fun c => c <> ch ";") (filter not_unsafe w)) as Hf.
    { rewrite Forall_forall in Hsemi. apply Forall_forall. intros c Hc.
      apply list_elem_of_filter in Hc as [_ Hc]. now apply Hsemi. }
    rewrite <- (drop_while_app_take_while not_delim (filter not_unsafe w))
      in Hf.
    now apply Forall_app in Hf. }
  set (tail := drop_while not_delim (filter not_unsafe w)) in *.
  rewrite (path_of_plain tail Htail).
  rewrite (path_of_plain (tail ++ [ch "/"])).
  2: { apply Forall_app. split; [assumption|].
       constructor; [split; discriminate | constructor]. }
  assert (contains [ch ";"] tail = false) as ->
    by now apply contains_char_false.
  assert (contains [ch ";"] (tail ++ [ch "/"]) = false) as ->.
  { apply contains_char_false, Forall_app. split; [assumption|].
    constructor; [discriminate | constructor]. }
  cbn [fst]. unfold normal_path. now rewrite rstrip_snoc.
Qed.

Lemma normal_path_shape path :
  (path = [] \/ exists r, path = ch "/" :: r) ->
  (exists r, normal_path path = ch "/" :: r)
  /\ (normal_path path = py "/"
      \/ exists init c, normal_path path = init ++ [c] /\ c <> ch "/")
  /\ forall P : char -> Prop,
       P (ch "/") -> Forall P path -> Forall P (normal_path path).
Proof using Type.
  intros Hrooted. unfold normal_path.
  destruct (rstrip_decompose (N.eqb (ch "/")) path) as (tail & Hpath & _).
  case_bool_decide as Hnil.
  - split; [now exists []|]. split; [now left|].
    intros P Hslash _. repeat constructor. exact Hslash.
  - split; [|split].
    + destruct Hrooted as [-> | [r Hr]]; [contradiction|].
      destruct (rstrip (N.eqb (ch "/")) path) as [|c rest]; [contradiction|].
      rewrite Hr, <- app_comm_cons in Hpath. injection Hpath as <- _.
      now exists rest.
    + right. destruct (exists_last Hnil) as (init & c & Hlast).
      exists init, c. split; [exact Hlast|].
      apply rstrip_last in Hlast. apply N.eqb_neq in Hlast. congruence.
    + intros P _ Hall. rewrite Hpath in Hall. now apply Forall_prefix in Hall.
Qed.

(** X13.  The normalized form of a URL that resolves to an http(s) URL is
    [scheme://host/path]: the host has no [/], [?] or [#], the path starts
    with a slash and does not end with one unless it is the root [/], and
    neither [?] nor [#] is left anywhere: the query and the fragment are
    gone. *)
Theorem normalized_url_shape self (url abs normalized : pystr) :
  absolute_url self url = Some abs ->
  is_http_url abs = true ->
  _normalize_url self url = Some normalized ->
  exists sch net path,
    normalized = sch ++ py "://" ++ net ++ path
    /\ http_scheme sch
    /\ Forall (fun c => c <> ch "/" /\ c <> ch "?" /\ c <> ch "#") net
    /\ (exists r, path = ch "/" :: r)
    /\ (path = py "/" \/ exists init c, path = init ++ [c] /\ c <> ch "/")
    /\ Forall (fun c => c <> ch "?" /\ c <> ch "#") normalized.
Proof using Type.
  intros Habs Hhttp Hnorm.
  destruct (is_http_url_split abs Hhttp) as (sch & w & Hsch & ->).
  unfold _normalize_url in Hnorm. rewrite Habs in Hnorm.
  cbn [mbind option_bind] in Hnorm.
  rewrite (urlparse_http sch w Hsch) in Hnorm.
  destruct (parse_http sch (filter not_unsafe w)) as [p|] eqn:Hparse;
    [|discriminate].
  cbn [mbind option_bind] in Hnorm.
  destruct (parse_http_components _ _ _ Hparse)
    as (Hscheme & Hnet & _ & _ & Hhash & Hquery).
  pose proof (parse_http_path_rooted _ _ _ Hparse) as Hrooted.
  fold (normal_path (Urllib.path p)) in Hnorm.
  apply (inj Some) in Hnorm. subst normalized. rewrite Hscheme.
  destruct (normal_path_shape (Urllib.path p) Hrooted)
    as (Hroot & Hlast & Hall).
  assert (Forall (fun c => c <> ch "/" /\ c <> ch "?" /\ c <> ch "#")
            (Urllib.netloc p)) as Hhost.
  { rewrite Hnet.
    eapply Forall_impl; [apply take_while_Forall|]. simpl. intros c Hc.
    apply negb_true_iff in Hc.
    repeat split; intros ->; discriminate. }
  exists sch, (Urllib.netloc p), (normal_path (Urllib.path p)).
  repeat split; try assumption.
  apply Forall_app. split.
  { destruct Hsch as [-> | ->]; repeat constructor; discriminate. }
  apply Forall_app. split; [repeat constructor; discriminate|].
  apply Forall_app. split.
  - eapply Forall_impl; [exact Hhost|]. simpl. tauto.
  - apply Hall; [split; discriminate|].
    apply Forall_forall. intros c Hc. rewrite Forall_forall in Hhash, Hquery.
    split; [now apply Hquery | now apply Hhash].
Qed.

(** X14.  The homepage is fetched under [base_url], which has no trailing
    slash, while a link to the homepage normalizes to the URL with the
    slash: for a base URL made of scheme and host, the normalized form of
    the base URL itself is still unvisited once the homepage is marked. *)
Theorem homepage_link_is_fresh (base dom : pystr) (max : Z) (sch net : pystr) :
  http_scheme sch ->
  Forall (fun c => not_delim c = true /\ not_unsafe c = true) net ->
  net = [] \/ netloc_ok net = true ->
  base = sch ++ py "://" ++ net ->
  _normalize_url (new_scraper base dom max) base = Some (base ++ py "/")
  /\ (base ++ py "/" ∉ visited_urls (fetch_homepage (new_scraper base dom max)).1).
Proof using Type.
  intros Hsch Hnet Hok Hbase. split.
  - subst base.
    rewrite (normalize_url_http _ sch net Hsch), parse_http_parts.
    rewrite filter_keep_all.
    2: { eapply Forall_impl; [exact Hnet|]. simpl. intros c [_ Hc].
         now apply Is_true_true. }
    rewrite take_while_all, drop_while_all
      by (eapply Forall_impl; [exact Hnet|]; now intros c [Hc _]).
    assert (bool_decide (net = []) || netloc_ok net = true) as ->.
    { destruct Hok as [-> | ->]; [reflexivity | apply orb_true_r]. }
    cbn [fmap option_fmap option_map fst snd].
    change (normal_path (path_of [])) with (py "/").
    now rewrite <- !app_assoc.
  - destruct (fetch_homepage_frontier (new_scraper base dom max))
      as (_ & _ & _ & -> & _).
    simpl. rewrite union_empty_r_L, elem_of_singleton.
    intros Heq. apply (f_equal length) in Heq.
    rewrite length_app in Heq. simpl in Heq. lia.
Qed.

(** ** Relative links *)

(** A character of a plain path segment: no control character or space,
    and none of the separators of a URL. *)
Definition segment_char (c : char) : Prop :=
  32 < c /\ c <> ch "/" /\ c <> ch "?" /\ c <> ch "#" /\ c <> ch ";"
  /\ c <> ch ":".

Lemma segment_char_safe c :
  32 < c -> Urllib.c0_control_or_space c = false /\ not_unsafe c = true.
Proof using Type.
  intros Hc. split.
  - now apply N.leb_gt.
  - apply negb_true_iff, not_true_is_false.
    unfold Urllib.unsafe_url_byte, char_in. cbn [existsb].
    rewrite !orb_true_iff, !N.eqb_eq. lia.
Qed.

(** [urlparse] on a reference that is a path and nothing else. *)
Lemma urlparse_with_path sch url :
  http_scheme sch ->
  Forall (fun c => 32 < c /\ c <> ch "?" /\ c <> ch "#" /\ c <> ch ";"
                   /\ c <> ch ":") url ->
  startswith (py "//") url = false ->
  Urllib.urlparse_with netloc_ok sch url
  = Some {| Urllib.scheme := sch; Urllib.netloc := []; Urllib.path := url;
            Urllib.params := []; Urllib.query := []; Urllib.fragment := [] |}.
Proof using Type.
  intros Hsch Hurl Hnet. unfold Urllib.urlparse_with.
  assert (lstrip Urllib.c0_control_or_space url = url) as ->.
  { unfold lstrip. destruct Hurl as [|c url [Hc _] _]; [reflexivity|].
    apply drop_while_none. now apply segment_char_safe. }
  rewrite (filter_keep_all _ url).
  2: { eapply Forall_impl; [exact Hurl|]. intros c (Hc & _). simpl.
       apply Is_true_true. now apply segment_char_safe. }
  assert (filter (fun c => negb (Urllib.unsafe_url_byte c))
            (strip Urllib.c0_control_or_space sch) = sch) as ->
    by (destruct Hsch as [-> | ->]; reflexivity).
  unfold Urllib.split_scheme.
  assert (find [ch ":"] url = None) as ->.
  { apply find_char_none. eapply Forall_impl; [exact Hurl|]. simpl. tauto. }
  cbv beta iota zeta. rewrite Hnet. cbv beta iota zeta.
  assert (contains [ch "#"] url = false) as ->.
  { apply contains_char_false. eapply Forall_impl; [exact Hurl|]. simpl. tauto. }
  cbv beta iota zeta.
  assert (contains [ch "?"] url = false) as ->.
  { apply contains_char_false. eapply Forall_impl; [exact Hurl|]. simpl. tauto. }
  cbv beta iota zeta.
  assert (contains [ch ";"] url = false) as ->.
  { apply contains_char_false. eapply Forall_impl; [exact Hurl|]. simpl. tauto. }
  rewrite andb_false_r. reflexivity.
Qed.

(** [urlparse] on scheme and host. *)
Lemma parse_http_host sch net :
  Forall (fun c => not_delim c = true) net ->
  net = [] \/ netloc_ok net = true ->
  parse_http sch net
  = Some {| Urllib.scheme := sch; Urllib.netloc := net; Urllib.path := [];
            Urllib.params := []; Urllib.query := []; Urllib.fragment := [] |}.
Proof using Type.
  intros Hnet Hok. unfold parse_http.
  rewrite take_while_all, drop_while_all by assumption.
  change (contains [ch "#"] []) with false. cbv beta iota zeta.
  change (contains [ch "?"] []) with false. cbv beta iota zeta.
  change (contains [ch ";"] []) with false. cbv beta iota zeta.
  destruct Hok as [-> | ->]; [reflexivity | now rewrite orb_true_r].
Qed.

Lemma startswith_slashes seg :
  Forall segment_char seg ->
  startswith (py "//") seg = false
  /\ startswith (py "//") (ch "/" :: seg) = false
  /\ startswith (py "/") seg = false.
Proof using Type.
  intros Hseg. destruct Hseg as [|c seg (_ & Hc & _) _]; [now repeat split|].
  assert ((ch "/" =? c) = false) as Hne by (apply N.eqb_neq; congruence).
  unfold startswith. change (py "//") with [ch "/"; ch "/"].
  change (py "/") with [ch "/"]. cbn [startswith_by].
  rewrite Hne, N.eqb_refl. now repeat split.
Qed.

(** [urljoin] of a base made of scheme and host with one path segment,
    written with or without a slash before it. *)
Lemma urljoin_segment sch net seg url :
  http_scheme sch ->
  Forall (fun c => not_delim c = true /\ not_unsafe c = true) net ->
  net = [] \/ netloc_ok net = true ->
  Forall segment_char seg -> seg <> py "." -> seg <> py ".." ->
  url = ch "/" :: seg \/ (url = seg /\ seg <> []) ->
  Urllib.urljoin netloc_ok (sch ++ py "://" ++ net) url
  = Some (sch ++ py "://" ++ net ++ ch "/" :: seg).
Proof using Type.
  intros Hsch Hnet Hok Hseg Hdot Hdots Hurl.
  destruct (startswith_slashes seg Hseg) as (Hss & Hsss & Hs).
  assert (url <> []) as Hne by (destruct Hurl as [-> | [-> ?]]; easy).
  assert (Forall (fun c => 32 < c /\ c <> ch "?" /\ c <> ch "#"
                           /\ c <> ch ";" /\ c <> ch ":") url) as Hplain.
  { assert (Forall (fun c => 32 < c /\ c <> ch "?" /\ c <> ch "#"
                             /\ c <> ch ";" /\ c <> ch ":") seg) as Hp.
    { eapply Forall_impl; [exact Hseg|]. unfold segment_char. simpl. tauto. }
    destruct Hurl as [-> | [-> _]]; [|exact Hp].
    constructor; [|exact Hp]. repeat split; (reflexivity || discriminate). }
  assert (startswith (py "//") url = false) as Hnoloc
    by (destruct Hurl as [-> | [-> _]]; assumption).
  assert ((if startswith (py "/") url then split_on (ch "/") url
           else Urllib.drop_inner_empty ([[]] ++ split_on (ch "/") url))
          = [[]; seg]) as Hsegments.
  { assert (split_on (ch "/") seg = [seg]) as Hsplit.
    { apply split_on_no_sep. eapply Forall_impl; [exact Hseg|].
      unfold segment_char. simpl. tauto. }
    destruct Hurl as [-> | [-> _]].
    - change (startswith (py "/") (ch "/" :: seg)) with true.
      cbv iota. now rewrite split_on_cons_sep, Hsplit.
    - rewrite Hs, Hsplit. reflexivity. }
  unfold Urllib.urljoin.
  rewrite (bool_decide_eq_false_2 (sch ++ py "://" ++ net = []))
    by (destruct Hsch as [-> | ->]; discriminate).
  rewrite (bool_decide_eq_false_2 (url = [])) by exact Hne.
  rewrite (urlparse_http sch net Hsch).
  rewrite filter_keep_all.
  2: { eapply Forall_impl; [exact Hnet|]. simpl. intros c [_ Hc].
       now apply Is_true_true. }
  rewrite (parse_http_host sch net).
  2: { eapply Forall_impl; [exact Hnet|]. now intros c [Hc _]. }
  2: exact Hok.
  cbn [mbind option_bind Urllib.scheme Urllib.netloc Urllib.path
         Urllib.params Urllib.query Urllib.fragment].
  rewrite (urlparse_with_path sch url Hsch Hplain Hnoloc).
  cbn [mbind option_bind Urllib.scheme Urllib.netloc Urllib.path
         Urllib.params Urllib.query Urllib.fragment].
  rewrite (bool_decide_eq_true_2 (sch = sch)) by reflexivity.
  assert (bool_decide (sch ∈ Urllib.uses_relative) = true) as ->
    by (destruct Hsch as [-> | ->]; reflexivity).
  assert (bool_decide (sch ∈ Urllib.uses_netloc) = true) as Hloc
    by (destruct Hsch as [-> | ->]; reflexivity).
  rewrite Hloc.
  rewrite (bool_decide_eq_true_2 (@nil N = [])) by reflexivity.
  rewrite (bool_decide_eq_false_2 (url = [])) by exact Hne.
  cbn [negb orb andb].
  change (split_on (ch "/") []) with [@nil N].
  change (List.last [@nil N] []) with (@nil N).
  rewrite (bool_decide_eq_true_2 (@nil N = [])) by reflexivity.
  cbv zeta. rewrite Hsegments.
  assert (Urllib.resolve_segments [[]; seg] = [[]; seg]) as ->.
  { unfold Urllib.resolve_segments. cbn [fold_left].
    rewrite (bool_decide_eq_false_2 ([] = py "..")) by discriminate.
    rewrite (bool_decide_eq_false_2 ([] = py ".")) by discriminate.
    rewrite (bool_decide_eq_false_2 (seg = py "..")) by exact Hdots.
    now rewrite (bool_decide_eq_false_2 (seg = py ".")) by exact Hdot. }
  change (List.last [[]; seg] []) with seg.
  rewrite (bool_decide_eq_false_2 (seg ∈ [py "."; py ".."])).
  2: { intros [-> | [-> | Hnil]%elem_of_cons]%elem_of_cons;
         [now apply Hdot | now apply Hdots | inversion Hnil]. }
  change (join (py "/") ([[]; seg] ++ [])) with (ch "/" :: seg).
  rewrite (bool_decide_eq_false_2 (ch "/" :: seg = [])) by discriminate.
  unfold Urllib.urlunparse, Urllib.urlunsplit.
  rewrite !(bool_decide_eq_true_2 (@nil N = [])) by reflexivity.
  rewrite Hloc, Hsss.
  rewrite (bool_decide_eq_false_2 (sch = []))
    by (destruct Hsch as [-> | ->]; discriminate).
  rewrite (bool_decide_eq_false_2 (ch "/" :: seg = [])) by discriminate.
  change (startswith (py "/") (ch "/" :: seg)) with true.
  cbn [negb orb andb]. rewrite orb_true_r.
  reflexivity.
Qed.

Lemma normalize_url_absolute self url abs :
  absolute_url self url = Some abs -> is_http_url abs = true ->
  _normalize_url self url = _normalize_url self abs.
Proof using Type.
  intros Habs Hhttp. unfold _normalize_url at 1 2. rewrite Habs.
  unfold absolute_url. now rewrite Hhttp.
Qed.

Lemma segment_not_http seg : Forall segment_char seg -> is_http_url seg = false.
Proof using Type.
  intros Hseg. destruct (is_http_url seg) eqn:Hhttp; [|reflexivity].
  destruct (is_http_url_split seg Hhttp) as (sch & w & _ & ->).
  apply Forall_app in Hseg as [_ Hseg].
  apply Forall_inv in Hseg. unfold segment_char in Hseg.
  exfalso. now apply Hseg.
Qed.

(** X24.  Relative links are resolved against the base URL of the crawl,
    whatever page they stand on: with a base URL made of scheme and host,
    a reference of one plain path segment, written with or without a
    slash before it, normalizes to the base URL, a slash and the
    segment. *)
Theorem relative_link_resolves self (sch net seg : pystr) :
  http_scheme sch ->
  Forall (fun c => not_delim c = true /\ not_unsafe c = true) net ->
  net = [] \/ netloc_ok net = true ->
  base_url self = sch ++ py "://" ++ net ->
  Forall segment_char seg -> seg <> py "." -> seg <> py ".." ->
  _normalize_url self (ch "/" :: seg) = Some (base_url self ++ ch "/" :: seg)
  /\ _normalize_url self seg = Some (base_url self ++ ch "/" :: seg).
Proof using Type.
  intros Hsch Hnet Hok Hbase Hseg Hdot Hdots.
  assert (Forall (fun c => not_delim c = true) net) as Hnodelim
    by (eapply Forall_impl; [exact Hnet|]; now intros c [Hc _]).
  assert (Forall (fun c => Is_true (not_unsafe c)) net) as Hsafe.
  { eapply Forall_impl; [exact Hnet|]. simpl. intros c [_ Hc].
    now apply Is_true_true. }
  (* the resolved URL is its own normalized form *)
  assert (_normalize_url self (sch ++ py "://" ++ net ++ ch "/" :: seg)
          = Some (base_url self ++ ch "/" :: seg)) as Hfixed.
  { rewrite (normalize_url_http self sch _ Hsch).
    rewrite filter_keep_all.
    2: { apply Forall_app. split; [exact Hsafe|].
         constructor; [exact I|].
         eapply Forall_impl; [exact Hseg|]. simpl. intros c (Hc & _).
         apply Is_true_true. now apply segment_char_safe. }
    rewrite parse_http_canonical; try assumption.
    - cbn [fmap option_fmap option_map fst snd Urllib.scheme Urllib.netloc
             Urllib.path].
      assert (normal_path (ch "/" :: seg) = ch "/" :: seg) as ->.
      { unfold normal_path. destruct seg as [|c seg'] using rev_ind;
          [reflexivity|].
        apply Forall_app in Hseg as [_ Hc]. apply Forall_inv in Hc.
        rewrite app_comm_cons, rstrip_keeps.
        - now rewrite bool_decide_eq_false_2
            by (intros Habs; now apply app_eq_nil in Habs as [_ ?]).
        - apply N.eqb_neq. destruct Hc as (_ & Hc & _). congruence. }
      now rewrite Hbase, <- !app_assoc.
    - now exists seg.
    - constructor; [discriminate|].
      eapply Forall_impl; [exact Hseg|]. unfold segment_char. simpl. tauto.
    - constructor; [discriminate|].
      eapply Forall_impl; [exact Hseg|]. unfold segment_char. simpl. tauto.
    - constructor; [discriminate|].
      eapply Forall_impl; [exact Hseg|]. unfold segment_char. simpl. tauto. }
  assert (is_http_url (sch ++ py "://" ++ net ++ ch "/" :: seg) = true)
    as Hhttp by now apply is_http_url_build.
  split.
  - rewrite <- Hfixed. apply normalize_url_absolute; [|exact Hhttp].
    unfold absolute_url. change (is_http_url (ch "/" :: seg)) with false.
    cbv iota. rewrite Hbase. apply urljoin_segment; try assumption.
    now left.
  - destruct seg as [|c seg'].
    + unfold _normalize_url at 1. unfold absolute_url at 1.
      change (is_http_url []) with false. cbv iota. unfold Urllib.urljoin.
      rewrite bool_decide_eq_false_2
        by (rewrite Hbase; destruct Hsch as [-> | ->]; discriminate).
      rewrite (bool_decide_eq_true_2 (@nil N = [])) by reflexivity.
      cbn [mbind option_bind]. rewrite Hbase at 1.
      rewrite (urlparse_http sch net Hsch), filter_keep_all by exact Hsafe.
      rewrite (parse_http_host sch net Hnodelim Hok).
      cbn [mbind option_bind Urllib.scheme Urllib.netloc Urllib.path].
      rewrite Hbase. now rewrite <- !app_assoc.
    + rewrite <- Hfixed. apply normalize_url_absolute; [|exact Hhttp].
      unfold absolute_url. rewrite (segment_not_http _ Hseg).
      rewrite Hbase. apply urljoin_segment; try assumption.
      right. split; [reflexivity | discriminate].
Qed.

(** ** The start URL *)

Lemma strip_nil_iff p s : strip p s = [] <-> Forall (fun c => p c = true) s.
Proof using Type.
  unfold strip, lstrip. split.
  - intros Hnil.
    destruct (rstrip_decompose p (drop_while p s)) as (tail & Heq & Htail).
    rewrite Hnil in Heq. simpl in Heq.
    rewrite <- (drop_while_app_take_while p s), Heq.
    apply Forall_app. split; [apply take_while_Forall | exact Htail].
  - intros Hall. now rewrite drop_while_all.
Qed.

(** A stripped text stays as it is behind a prefix that starts with a
    character that is not stripped. *)
Lemma strip_behind_prefix p c pre s :
  p c = false -> strip p s = s -> s <> [] ->
  strip p (c :: pre ++ s) = c :: pre ++ s.
Proof using Type.
  intros Hc Hs Hne. unfold strip, lstrip. rewrite drop_while_none by exact Hc.
  destruct (exists_last Hne) as (init & d & Hlast).
  assert (p d = false) as Hd.
  { rewrite Hlast in Hs. unfold strip in Hs. now apply rstrip_last in Hs. }
  rewrite Hlast, app_assoc, app_comm_cons. now apply rstrip_keeps.
Qed.

(** X15.  The [/scrape] route answers 400 exactly when the URL is empty or
    white space only; white space around the URL is ignored; and a URL
    that does not start with [http://] or [https://] is crawled as the
    URL with [https://] put before it. *)
Theorem scrape_request_url (url : pystr) (max_pages : Z) :
  (scrape url max_pages = Error400 <-> Forall (fun c => is_space c = true) url)
  /\ scrape (strip is_space url) max_pages = scrape url max_pages
  /\ (strip is_space url <> [] ->
      is_http_url (strip is_space url) = false ->
      scrape url max_pages
      = scrape (py "https://" ++ strip is_space url) max_pages).
Proof using Type.
  split; [|split].
  - rewrite <- strip_nil_iff. unfold scrape. case_bool_decide as Hnil.
    + tauto.
    + split; [|contradiction].
      destruct (run_scraper _ max_pages); discriminate.
  - unfold scrape. now rewrite strip_idem.
  - intros Hne Hplain. unfold scrape at 2.
    change (py "https://" ++ strip is_space url)
      with (ch "h" :: py "ttps://" ++ strip is_space url).
    rewrite (strip_behind_prefix is_space (ch "h") (py "ttps://"))
      by (reflexivity || apply strip_idem || assumption).
    rewrite bool_decide_eq_false_2 by discriminate.
    change (is_http_url (ch "h" :: py "ttps://" ++ strip is_space url))
      with true.
    unfold scrape. rewrite bool_decide_eq_false_2 by assumption.
    now rewrite Hplain.
Qed.

(** X16.  [run_scraper] ignores a slash at the end of the start URL, and
    its result names as [website] the start URL without its trailing
    slashes, whatever the crawl did. *)
Theorem run_scraper_start_url (url : pystr) (max : Z) :
  run_scraper (url ++ py "/") max = run_scraper url max
  /\ forall r, run_scraper url max = Some r ->
       website r = rstrip (N.eqb (ch "/")) url.
Proof using Type.
  split.
  - unfold run_scraper, FAQScraper. change (py "/") with [ch "/"].
    now rewrite (rstrip_snoc (N.eqb (ch "/")) url (ch "/")).
  - unfold run_scraper, FAQScraper. intros r.
    destruct (Urllib.urlparse netloc_ok _) as [parsed|]; [|discriminate].
    simpl. intros [= <-]. unfold scrape_sync, result_of. simpl.
    apply (scrape_sync_state_closed
             (fun s => base_url s = rstrip (N.eqb (ch "/")) url));
      [| | |reflexivity].
    + intros u s q a _ _ Hs.
      destruct (add_faq_same_frontier s q a u) as (-> & _). exact Hs.
    + intros s u Hs. exact Hs.
    + intros s b Hs. exact Hs.
Qed.

(** ** White space in normalized text *)

(** No two white-space characters in a row. *)
Fixpoint no_double_space (s : pystr) : bool :=
  match s with
  | c :: (c' :: _) as rest =>
      negb (is_space c && is_space c') && no_double_space rest
  | _ => true
  end.

(** Every white-space character is a plain space, and no two are
    adjacent. *)
Definition single_spaced (s : pystr) : Prop :=
  Forall (fun c => is_space c = true -> c = 32) s
  /\ no_double_space s = true.

Lemma single_spaced_tail c s : single_spaced (c :: s) -> single_spaced s.
Proof using Type.
  intros [Hall Hnds]. split; [now apply Forall_inv_tail in Hall|].
  destruct s as [|c' s']; [reflexivity|].
  cbn [no_double_space] in Hnds. now apply andb_true_iff in Hnds as [_ ?].
Qed.

Lemma single_spaced_suffix a b : single_spaced (a ++ b) -> single_spaced b.
Proof using Type.
  induction a as [|c a IH]; [trivial|].
  intros H. apply IH. now apply single_spaced_tail in H.
Qed.

Lemma single_spaced_prefix a b : single_spaced (a ++ b) -> single_spaced a.
Proof using Type.
  intros [Hall Hnds]. split; [now apply Forall_app in Hall|].
  clear Hall. induction a as [|c a IH]; [reflexivity|].
  destruct a as [|c' a']; [reflexivity|].
  change ((c :: c' :: a') ++ b) with (c :: c' :: (a' ++ b)) in Hnds.
  cbn [no_double_space] in *.
  apply andb_true_iff in Hnds as [-> Hnds]. now apply IH.
Qed.

Lemma single_spaced_strip p s : single_spaced s -> single_spaced (strip p s).
Proof using Type.
  intros Hs. unfold strip, lstrip.
  destruct (rstrip_decompose p (drop_while p s)) as (tail & Heq & _).
  apply (single_spaced_prefix _ tail). rewrite <- Heq.
  apply (single_spaced_suffix (take_while p s)).
  now rewrite drop_while_app_take_while.
Qed.

Lemma single_spaced_cut m s :
  single_spaced s -> single_spaced (re_sub_to_end m s).
Proof using Type.
  intros Hs. unfold re_sub_to_end.
  destruct (find_match m s) as [i|]; [|assumption].
  apply (single_spaced_prefix _ (drop i s)). now rewrite take_drop.
Qed.

Lemma collapse_whitespace_head c s :
  is_space c = false ->
  collapse_whitespace (c :: s) = c :: collapse_whitespace s.
Proof using Type. intros Hc. simpl. now rewrite Hc. Qed.

Lemma collapse_whitespace_spaced s : single_spaced (collapse_whitespace s).
Proof using Type.
  assert (is_space 32 = true) as Hsp by reflexivity.
  induction s as [|c s IH]; [split; [constructor | reflexivity]|].
  destruct (is_space c) eqn:Hc.
  - destruct s as [|c' s'].
    + simpl. rewrite Hc. split; [now repeat constructor | reflexivity].
    + assert (collapse_whitespace (c :: c' :: s')
              = if is_space c' then collapse_whitespace (c' :: s')
                else 32 :: collapse_whitespace (c' :: s')) as ->.
      { cbn [collapse_whitespace]. now rewrite Hc. }
      destruct (is_space c') eqn:Hc'; [exact IH|].
      destruct IH as [Hall Hnds]. split; [now constructor|].
      rewrite (collapse_whitespace_head c' s' Hc') in *.
      change (no_double_space (32 :: c' :: collapse_whitespace s'))
        with (negb (is_space 32 && is_space c')
              && no_double_space (c' :: collapse_whitespace s')).
      rewrite Hc', andb_false_r. exact Hnds.
  - rewrite (collapse_whitespace_head c s Hc).
    destruct IH as [Hall Hnds]. split.
    + constructor; [congruence | assumption].
    + destruct (collapse_whitespace s) as [|x r]; [reflexivity|].
      change (no_double_space (c :: x :: r))
        with (negb (is_space c && is_space x) && no_double_space (x :: r)).
      rewrite Hc. exact Hnds.
Qed.

Lemma collapse_whitespace_blank s :
  Forall (fun c => is_space c = true) s ->
  Forall (fun c => is_space c = true) (collapse_whitespace s).
Proof using Type.
  induction 1 as [|c s Hc Hs IH]; [constructor|].
  simpl. rewrite Hc. destruct s as [|c' s']; [now repeat constructor|].
  apply Forall_inv in Hs as Hc'. now rewrite Hc'.
Qed.

Lemma normalize_text_tidy (text : pystr) :
  strip is_space (_normalize_text text) = _normalize_text text
  /\ single_spaced (_normalize_text text).
Proof using Type.
  unfold _normalize_text. case_bool_decide as Hnil.
  { split; [reflexivity|]. split; [constructor | reflexivity]. }
  split; [apply strip_idem|].
  apply single_spaced_strip.
  assert (forall patterns t,
            single_spaced t ->
            single_spaced
              (fold_left (fun t m => re_sub_to_end m t) patterns t))
    as Hfold.
  { induction patterns as [|m patterns IH]; intros t Ht; [exact Ht|].
    simpl. apply IH. now apply single_spaced_cut. }
  apply Hfold. do 2 apply single_spaced_strip.
  apply collapse_whitespace_spaced.
Qed.

(** X17.  The text [_normalize_text] returns has no white space at either
    end, every white-space character in it is a plain space, and no two of
    them are adjacent: line breaks, tabs and runs of spaces are gone.  A
    text of white space only normalizes to the empty text. *)
Theorem normalize_text_spacing (text : pystr) :
  strip is_space (_normalize_text text) = _normalize_text text
  /\ single_spaced (_normalize_text text)
  /\ (Forall (fun c => is_space c = true) text -> _normalize_text text = []).
Proof using Type.
  destruct (normalize_text_tidy text) as [Hstrip Hspaced].
  split; [exact Hstrip|]. split; [exact Hspaced|].
  intros Hblank. unfold _normalize_text. case_bool_decide; [reflexivity|].
  apply collapse_whitespace_blank in Hblank.
  apply strip_nil_iff in Hblank. rewrite Hblank. reflexivity.
Qed.

(** ** Texts handed to [_add_faq]

    Every call of [_add_faq] passes an answer that [_normalize_text]
    returned, and a question that it returned, in the heading strategy
    with its ordinal taken off.  A property of the state that survives the
    calls with such arguments survives the extraction. *)

Section ClosedGuarded.

Variable P : scraper -> Prop.
Variable url : pystr.
Variables Gq Ga : pystr -> Prop.

Hypothesis Gq_text : forall x, Gq (_normalize_text x).
Hypothesis Gq_ordinal : forall x, Gq x -> Gq (strip_ordinal x).
Hypothesis Ga_text : forall x, Ga (_normalize_text x).
Hypothesis P_add :
  forall self q a, Gq q -> Ga a -> P self -> P (_add_faq self q a url).

Lemma guarded_call self (guard : bool) q a :
  Gq q -> Ga a -> P self -> P (if guard then _add_faq self q a url else self).
Proof using P_add. intros Hq Ha HP. destruct guard; auto. Qed.

Lemma scan_paragraphs_guarded paragraphs bound i self :
  P self -> P (scan_paragraphs self paragraphs url bound i).
Proof using Gq_text Ga_text P_add.
  funelim (scan_paragraphs self paragraphs url bound i); intros HP.
  - destruct (looks_like_question (nth i paragraphs [])).
    + apply H; [assumption..|]. cbv zeta. now apply guarded_call.
    + now apply H0.
  - assumption.
Qed.

Lemma schema_items_guarded items self :
  P self -> P (schema_items self items url).
Proof using Gq_text Ga_text P_add.
  revert self. induction items as [|[name text| |] rest IH];
    intros self HP; simpl; try assumption; [|now apply IH].
  apply IH. now apply guarded_call.
Qed.

Lemma extract_from_faq_element_guarded elem self :
  P self -> P (_extract_from_faq_element self elem url).
Proof using Gq_text Gq_ordinal Ga_text P_add.
  intros HP.
  unfold _extract_from_faq_element, extract_paragraphs, extract_markers,
    extract_dls, extract_headings, extract_containers, extract_details.
  cbv zeta. apply scan_paragraphs_guarded.
  apply fold_left_closed.
  { intros s [i q] Hs. destruct (e_md_answers elem !! i); [|assumption].
    now apply guarded_call. }
  apply fold_left_closed.
  { intros s dl. apply fold_left_closed. intros s' [i dt] Hs.
    destruct (dl_dds dl !! i); [|assumption]. now apply guarded_call. }
  apply fold_left_closed.
  { intros s h Hs. destruct (_is_faq_heading _); [assumption|].
    cbv zeta. apply guarded_call; auto. }
  apply fold_left_closed.
  { intros s c Hs. destruct (c_question c); [|assumption].
    destruct (c_answer c); [|assumption]. now apply guarded_call. }
  apply fold_left_closed; [|assumption].
  intros s d Hs. destruct (d_summary d); [|assumption].
  now apply guarded_call.
Qed.

Lemma extract_faqs_from_page_guarded soup self :
  P self -> P (_extract_faqs_from_page self soup url).
Proof using Gq_text Gq_ordinal Ga_text P_add.
  intros HP. unfold _extract_faqs_from_page.
  apply fold_left_closed.
  - intros s section Hs.
    assert (P (fold_left
                 (fun self node =>
                    match node with
                    | Paragraph _ => self
                    | Element elem => _extract_from_faq_element self elem url
                    end) section s)) as Hnodes.
    { apply fold_left_closed; [|assumption].
      intros s' [text|elem] Hs'; [assumption|].
      now apply extract_from_faq_element_guarded. }
    case_bool_decide; [assumption|].
    now apply scan_paragraphs_guarded.
  - unfold _extract_schema_faqs. apply fold_left_closed; [|assumption].
    intros s items. apply schema_items_guarded.
Qed.

End ClosedGuarded.

Lemma single_spaced_drop_while p s :
  single_spaced s -> single_spaced (drop_while p s).
Proof using Type.
  intros Hs. apply (single_spaced_suffix (take_while p s)).
  now rewrite drop_while_app_take_while.
Qed.

Lemma strip_ordinal_spaced x : single_spaced x -> single_spaced (strip_ordinal x).
Proof using Type.
  intros Hx. unfold strip_ordinal.
  destruct (negb _ && _); [|assumption].
  apply single_spaced_drop_while.
  apply (single_spaced_suffix (take 1 (drop_while is_decimal x))).
  rewrite take_drop. now apply single_spaced_drop_while.
Qed.

Lemma clean_question_spaced q : single_spaced q -> single_spaced (clean_question q).
Proof using Type.
  intros Hq. unfold clean_question. apply single_spaced_strip.
  assert (single_spaced (strip is_space (strip_string_prefix q))) as Hprefix.
  { apply single_spaced_strip. unfold strip_string_prefix.
    assert (single_spaced
              match q with
              | [] => []
              | c :: rest => if char_in (py "bB") c then rest else q
              end) as Hb.
    { destruct q as [|c rest]; [assumption|].
      destruct (char_in (py "bB") c); [|assumption].
      now apply single_spaced_tail in Hq. }
    destruct (match q with
              | [] => []
              | c :: rest => if char_in (py "bB") c then rest else q
              end) as [|c rest]; [assumption|].
    destruct (char_in [34; 39] c); [|assumption].
    now apply single_spaced_tail in Hb. }
  unfold strip_leading_number.
  destruct (negb _ && _); [|assumption].
  now do 2 apply single_spaced_drop_while.
Qed.

(** X18.  The texts of the records a crawl returns are normalized: in
    every question and answer each white-space character is a plain space
    and no two are adjacent, and no answer starts or ends with white
    space. *)
Theorem returned_texts_single_spaced (base dom : pystr) (max : Z) :
  Forall (fun r =>
            single_spaced (question r)
            /\ single_spaced (answer r)
            /\ strip is_space (answer r) = answer r)
    (faqs (scrape_sync (new_scraper base dom max))).
Proof using Type.
  apply (scrape_sync_state_invariant
           (fun s => Forall (fun r =>
                               single_spaced (question r)
                               /\ single_spaced (answer r)
                               /\ strip is_space (answer r) = answer r)
                       (all_faqs s))
           (fun _ => True)).
  - intros s url soup links HP _.
    apply (extract_faqs_from_page_guarded
             (fun s => Forall (fun r =>
                                 single_spaced (question r)
                                 /\ single_spaced (answer r)
                                 /\ strip is_space (answer r) = answer r)
                         (all_faqs s))
             url single_spaced
             (fun a => single_spaced a /\ strip is_space a = a));
      [| | | |exact HP].
    + intros x. apply normalize_text_tidy.
    + apply strip_ordinal_spaced.
    + intros x. split; apply normalize_text_tidy.
    + intros self q a Hq [Ha Hstrip] Hall.
      destruct (add_faq_stored self q a url) as [-> | (-> & _)];
        [assumption|].
      apply Forall_app. split; [assumption|].
      constructor; [|constructor]. simpl.
      split; [now apply clean_question_spaced | now split].
  - intros s url _ _ HP. exact HP.
  - intros s HP. exact HP.
  - intros s url soup links _ _. apply Forall_forall. intros l _. exact I.
  - constructor.
Qed.

(** ** Pairing by position *)

(** A loop over [enumerate(xs)] that looks up [ys[i]] and skips the turn
    when there is none runs over the pairs of [zip(xs, ys)]. *)
Lemma fold_indexed_pairs {A B} (g : scraper -> A -> B -> scraper)
  (ys : list B) (xs : list A) (k : nat) (self : scraper) :
  fold_left (fun self '(i, x) =>
               match ys !! i with
               | Some y => g self x y
               | None => self
               end)
    (imap (fun i => pair (k + i)%nat) xs) self
  = fold_left (fun self '(x, y) => g self x y) (zip xs (drop k ys)) self.
Proof using Type.
  revert k self. induction xs as [|x xs IH]; intros k self; [reflexivity|].
  rewrite imap_cons. cbn [fold_left]. rewrite Nat.add_0_r.
  rewrite (imap_ext _ (fun i => pair (S k + i)%nat))
    by (intros i y _; simpl; f_equal; lia).
  rewrite IH. destruct (ys !! k) as [y|] eqn:Hy.
  - now rewrite (drop_S ys y k Hy).
  - apply lookup_ge_None in Hy.
    rewrite !drop_ge by lia. now destruct xs.
Qed.

(** What the definition-list strategy does with a term and its
    definition, and the marker strategy with a question and its answer. *)
Definition add_dl_pair (url : pystr) (self : scraper) (dt dd : pystr)
  : scraper :=
  let question := _normalize_text dt in
  let answer := _normalize_text dd in
  if both_nonempty question answer
  then _add_faq self question answer url else self.

Definition add_marker_pair (url : pystr) (self : scraper) (q a : pystr)
  : scraper :=
  let q_clean := _normalize_text q in
  let a_clean := _normalize_text a in
  if both_nonempty q_clean a_clean && (20 <? length a_clean)%nat
  then _add_faq self q_clean a_clean url else self.

(** X21.  The definition-list strategy pairs the terms and the
    definitions of a list by position, and the marker strategy its
    questions and answers: the i-th goes with the i-th, and the terms
    (questions) beyond the last definition (answer) are ignored. *)
Theorem strategies_pair_by_position self elem url :
  extract_dls self elem url
  = fold_left
      (fun self dl =>
         fold_left (fun self '(dt, dd) => add_dl_pair url self dt dd)
           (zip (dl_dts dl) (dl_dds dl)) self)
      (e_dls elem) self
  /\ extract_markers self elem url
     = fold_left (fun self '(q, a) => add_marker_pair url self q a)
         (zip (e_md_questions elem) (e_md_answers elem)) self.
Proof using Type.
  split.
  - unfold extract_dls. revert self.
    induction (e_dls elem) as [|dl dls IH]; intros self; [reflexivity|].
    cbn [fold_left]. rewrite <- IH. f_equal.
    apply (fold_indexed_pairs (add_dl_pair url) (dl_dds dl) (dl_dts dl) 0).
  - apply (fold_indexed_pairs (add_marker_pair url) (e_md_answers elem)
             (e_md_questions elem) 0).
Qed.

(** ** Numbered questions *)

Lemma rstrip_app_tail p s tail :
  Forall (fun c => p c = true) tail -> rstrip p (s ++ tail) = rstrip p s.
Proof using Type.
  induction tail as [|x tail IH] using rev_ind; intros Hall;
    [now rewrite app_nil_r|].
  apply Forall_app in Hall as [Htail Hx]. apply Forall_inv in Hx.
  rewrite app_assoc, rstrip_snoc by assumption. now apply IH.
Qed.

Lemma rstrip_app_keep p pre s :
  rstrip p s <> [] -> rstrip p (pre ++ s) = pre ++ rstrip p s.
Proof using Type.
  intros Hne. destruct (rstrip_decompose p s) as (tail & Heq & Htail).
  destruct (exists_last Hne) as (init & d & Hlast).
  pose proof (rstrip_last p s init d Hlast) as Hd.
  rewrite Hlast in *. rewrite Heq.
  rewrite !app_assoc, rstrip_app_tail by assumption.
  now apply rstrip_keeps.
Qed.

Lemma ascii_alpha_plain c :
  is_ascii_alpha c = true ->
  is_space c = false /\ char_in (py ").:") c = false.
Proof using Type.
  unfold is_ascii_alpha, is_ascii_upper, is_ascii_lower.
  rewrite orb_true_iff, !andb_true_iff, !N.leb_le. intros Hc. split.
  - apply not_true_is_false. unfold is_space.
    rewrite !orb_true_iff, !andb_true_iff, !N.leb_le, !N.eqb_eq. lia.
  - apply not_true_is_false. unfold char_in.
    change (py ").:") with [41; 46; 58]. cbn [existsb].
    rewrite !orb_true_iff, !N.eqb_eq. lia.
Qed.

(** X19.  A question that starts with a number loses it: the digits and
    the closing marks after them ([)], [.], [:], white space) are removed
    when an ASCII letter follows, and what is stored is the rest,
    trimmed, with its first letter kept even when that is a [b]. *)
Theorem clean_question_drops_number (digits marks rest : pystr) (c : char) :
  digits <> [] ->
  Forall (fun d => is_decimal d = true /\ is_space d = false
                   /\ char_in (py "bB") d = false
                   /\ char_in [34; 39] d = false) digits ->
  Forall (fun m => (char_in (py ").:") m || is_space m) = true
                   /\ is_decimal m = false) marks ->
  is_ascii_alpha c = true ->
  is_decimal c = false ->
  clean_question (digits ++ marks ++ c :: rest) = strip is_space (c :: rest).
Proof using Type.
  intros Hne Hdigits Hmarks Hc Hcd.
  destruct (ascii_alpha_plain c Hc) as [Hcs Hcm].
  destruct digits as [|d digits]; [contradiction|].
  apply Forall_cons in Hdigits as Hd. destruct Hd as [(_ & Hds & Hdb & Hdq) _].
  (* the trimmed rest *)
  assert (exists r, rstrip is_space (c :: rest) = c :: r) as [r Hr].
  { destruct (rstrip_decompose is_space (c :: rest)) as (tail & Heq & Htail).
    destruct (rstrip is_space (c :: rest)) as [|x r]; [|].
    - simpl in Heq. subst tail. apply Forall_inv in Htail. congruence.
    - injection Heq as -> _. now exists r. }
  assert (strip is_space (c :: rest) = c :: r) as ->.
  { unfold strip, lstrip. now rewrite drop_while_none. }
  unfold clean_question.
  assert (strip_string_prefix ((d :: digits) ++ marks ++ c :: rest)
          = (d :: digits) ++ marks ++ c :: rest) as ->.
  { unfold strip_string_prefix. rewrite <- app_comm_cons.
    now rewrite Hdb, Hdq. }
  assert (strip is_space ((d :: digits) ++ marks ++ c :: rest)
          = (d :: digits) ++ marks ++ c :: r) as ->.
  { unfold strip, lstrip. rewrite <- app_comm_cons.
    rewrite drop_while_none by exact Hds.
    rewrite app_comm_cons, app_assoc, rstrip_app_keep, Hr, <- app_assoc;
      [reflexivity | rewrite Hr; discriminate]. }
  assert (strip_leading_number ((d :: digits) ++ marks ++ c :: r) = c :: r)
    as ->.
  { unfold strip_leading_number.
    assert (exists x k, marks ++ c :: r = x :: k /\ is_decimal x = false)
      as (x & k & Hxk & Hx).
    { destruct marks as [|m marks]; [now exists c, r|].
      apply Forall_inv in Hmarks as [_ Hm]. now exists m, (marks ++ c :: r). }
    rewrite Hxk.
    destruct (take_while_app_stop is_decimal (d :: digits) x k) as [-> ->];
      [|exact Hx|].
    { eapply Forall_impl; [exact Hdigits|]. now intros y [Hy _]. }
    rewrite <- Hxk.
    destruct (take_while_app_stop
                (fun c => char_in (py ").:") c || is_space c) marks c r)
      as [_ ->].
    { eapply Forall_impl; [exact Hmarks|]. now intros y [Hy _]. }
    { now rewrite Hcm, Hcs. }
    cbn [hd]. rewrite Hc. rewrite bool_decide_eq_false_2 by discriminate.
    reflexivity. }
  unfold strip, lstrip. rewrite drop_while_none by exact Hcs.
  rewrite <- Hr. apply rstrip_idem.
Qed.

(** ** An anchor with the text [FAQ]

    The extractor keeps one link for each URL, with the text of the first
    anchor that has it, and no link to a visited URL.  So an anchor of the
    homepage with the text [FAQ] is among the extracted links when no
    anchor before it has its URL and that URL is not the base URL. *)

Lemma collect_links_app self anchors anchors' collected :
  collect_links self (anchors ++ anchors') = Some collected ->
  exists found found',
    collect_links self anchors = Some found
    /\ collect_links self anchors' = Some found'
    /\ collected = found ++ found'.
Proof using Type.
  revert collected. induction anchors as [|[href text] rest IH];
    intros collected; simpl.
  - intros Hc. exists [], collected. now repeat split.
  - destruct (_normalize_url self href) as [full_url|]; [|discriminate].
    simpl. destruct (_is_valid_internal_url self full_url) as [valid|];
      [|discriminate].
    simpl.
    destruct (collect_links self (rest ++ anchors')) as [tail|];
      [|discriminate].
    simpl. intros [= <-].
    destruct (IH tail eq_refl) as (found & found' & -> & Hfound' & ->).
    simpl.
    destruct (valid && negb (bool_decide (full_url ∈ visited_urls self)));
      eexists _, found'; (split; [reflexivity|]); now split.
Qed.

(** The second loop keeps the first link of a URL. *)
Lemma unique_links_first seen before url text after :
  url ∉ seen -> url ∉ map fst before ->
  (url, text) ∈ unique_links seen (before ++ (url, text) :: after).
Proof using Type.
  revert seen. induction before as [|[url' text'] before IH];
    intros seen Hseen Hbefore; simpl.
  - rewrite bool_decide_eq_false_2 by exact Hseen. now left.
  - simpl in Hbefore. apply not_elem_of_cons in Hbefore as [Hne Hbefore].
    case_bool_decide; [now apply IH|].
    right. apply IH; [|exact Hbefore].
    intros [Heq%elem_of_singleton | Hold]%elem_of_union; contradiction.
Qed.

Lemma faq_anchor_is_extracted self before href text after collected u :
  collect_links self (before ++ (href, text) :: after) = Some collected ->
  _normalize_url self href = Some u ->
  _is_valid_internal_url self u = Some true ->
  u ∉ visited_urls self ->
  Forall (fun a => _normalize_url self a.1 <> Some u) before ->
  (u, str_lower text) ∈ unique_links ∅ collected.
Proof using Type.
  intros Hc Hnorm Hvalid Hfresh Hfirst.
  destruct (collect_links_app self _ _ _ Hc)
    as (found & found' & Hfound & Hfound' & ->).
  simpl in Hfound'. rewrite Hnorm in Hfound'. simpl in Hfound'.
  rewrite Hvalid in Hfound'. simpl in Hfound'.
  destruct (collect_links self after) as [tail|]; [|discriminate].
  simpl in Hfound'. rewrite bool_decide_eq_false_2 in Hfound' by exact Hfresh.
  simpl in Hfound'. apply (inj Some) in Hfound'. subst found'.
  apply unique_links_first; [apply not_elem_of_empty|].
  intros Hin. apply list_elem_of_In, in_map_iff in Hin as (l & Hl & Hin).
  apply list_elem_of_In in Hin.
  apply (collect_links_spec self before found Hfound) in Hin
    as (h & t & Hht & Hn & _).
  rewrite Forall_forall in Hfirst. apply (Hfirst (h, t) Hht).
  simpl. now rewrite Hn, Hl.
Qed.

(** Without a fetched homepage there is no record. *)
Lemma failed_homepage_no_records (base dom : pystr) (max : Z) :
  _fetch_page_sync (visit base (new_scraper base dom max)) base = None ->
  all_faqs (scrape_sync_state (new_scraper base dom max)) = [].
Proof using Type.
  intros Hfetch. unfold scrape_sync_state, fetch_homepage.
  change (_fetch_page_sync
            (visit (base_url (new_scraper base dom max))
               (new_scraper base dom max))
            (base_url (visit (base_url (new_scraper base dom max))
                         (new_scraper base dom max))))
    with (_fetch_page_sync (visit base (new_scraper base dom max)) base).
  rewrite Hfetch. simpl. now rewrite crawl_all_step.
Qed.

(** The records of a crawl come from requested pages. *)
Lemma record_sources_logged (base dom : pystr) (max : Z) :
  Forall (fun r => sourceUrl r
                   ∈ crawl_log (scrape_sync_state (new_scraper base dom max)))
    (all_faqs (scrape_sync_state (new_scraper base dom max))).
Proof using Type.
  apply (scrape_sync_state_invariant
           (fun s => Forall (fun r => sourceUrl r ∈ crawl_log s) (all_faqs s))
           (fun _ => True)).
  - intros s url soup links HP _.
    destruct (extract_faqs_from_page_frontier (visit url s) soup url)
      as (_ & _ & _ & _ & _ & ->).
    destruct (extract_faqs_from_page_source (visit url s) soup url)
      as (added & -> & Hadded).
    apply Forall_app. split; [exact HP|].
    eapply Forall_impl; [exact Hadded|]. simpl. intros r ->.
    apply elem_of_app. right. now left.
  - intros s url _ _ HP. simpl.
    eapply Forall_impl; [exact HP|]. simpl. intros r Hr.
    apply elem_of_app. now left.
  - intros s HP. exact HP.
  - intros s url soup links _ _. apply Forall_forall. intros l _. exact I.
  - constructor.
Qed.

(** C4 (as amended).  When the homepage has an anchor whose text is
    exactly [FAQ], whose [href] normalizes to a URL other than the base
    URL, and before which no anchor of the homepage normalizes to the same
    URL, and a returned record comes from the page of that URL, then the
    pages requested are the homepage and then the extracted homepage links
    classified as FAQ links, each once and in order, and nothing else (the
    full-site loop does not run); and [faqPageFound] is true. *)
Theorem faq_first_short_circuit (base dom : pystr) (max : Z)
  (doc : document) (before after : list (pystr * pystr)) (href u : pystr) :
  web base = Some doc ->
  doc_anchors doc = before ++ (href, py "FAQ") :: after ->
  _normalize_url (new_scraper base dom max) href = Some u ->
  u <> base ->
  Forall (fun a => _normalize_url (new_scraper base dom max) a.1 <> Some u)
    before ->
  (exists r, r ∈ faqs (scrape_sync (new_scraper base dom max))
             /\ sourceUrl r = u) ->
  crawl_log (scrape_sync_state (new_scraper base dom max))
    = base :: map fst (homepage_faq_links (new_scraper base dom max))
  /\ faqPageFound (scrape_sync (new_scraper base dom max)) = true.
Proof using str_lower_ascii.
  intros Hweb Hanchors Hnorm Hbase Hfirst Hrecord.
  apply (faq_link_short_circuit base dom max u); [|exact Hrecord].
  destruct Hrecord as (r & Hr & Hu).
  change (r ∈ all_faqs (scrape_sync_state (new_scraper base dom max))) in Hr.
  (* the page of the record was requested as a link: its URL is valid *)
  assert (_is_valid_internal_url (new_scraper base dom max) u = Some true)
    as Hvalid.
  { destruct (crawl_log_valid base dom max) as (rest & Hlog & Hrest).
    pose proof (record_sources_logged base dom max) as Hsrc.
    rewrite Forall_forall in Hsrc. specialize (Hsrc r Hr).
    rewrite Hu, Hlog in Hsrc.
    apply elem_of_cons in Hsrc as [Heq | Hin]; [contradiction|].
    rewrite Forall_forall in Hrest. now apply Hrest. }
  unfold homepage_links, fetch_homepage.
  change (_fetch_page_sync
            (visit (base_url (new_scraper base dom max))
               (new_scraper base dom max))
            (base_url (visit (base_url (new_scraper base dom max))
                         (new_scraper base dom max))))
    with (_fetch_page_sync (visit base (new_scraper base dom max)) base).
  destruct (_fetch_page_sync (visit base (new_scraper base dom max)) base)
    as [[soup links]|] eqn:Hfetch.
  2: { rewrite (failed_homepage_no_records base dom max Hfetch) in Hr.
       inversion Hr. }
  cbn [snd]. revert Hfetch. unfold _fetch_page_sync, _extract_links_with_text.
  rewrite Hweb. cbn [mbind option_bind].
  change (doc_anchors (decompose_scripts doc)) with (doc_anchors doc).
  rewrite Hanchors.
  destruct (collect_links (visit base (new_scraper base dom max))
              (before ++ (href, py "FAQ") :: after))
    as [collected|] eqn:Hc; [|discriminate].
  cbn [fmap option_fmap option_map mbind option_bind]. intros [= _ <-].
  apply (faq_anchor_is_extracted (visit base (new_scraper base dom max))
           before href (py "FAQ") after collected u Hc).
  - exact Hnorm.
  - exact Hvalid.
  - change (visited_urls (visit base (new_scraper base dom max)))
      with ({[base]} ∪ (∅ : gset pystr)).
    rewrite union_empty_r_L, elem_of_singleton. exact Hbase.
  - exact Hfirst.
Qed.

End Scraper.

(** ** Script elements and the crawl

    [_fetch_page_sync] removes every [script] element before anything is
    read from the page, the JSON-LD blocks among them. *)

Section Scripts.

Variable str_lower : pystr -> pystr.
Variable is_decimal : char -> bool.
Variable netloc_ok : pystr -> bool.
Variables web web' : pystr -> option document.

(** The two sites differ in their script elements at most. *)
Hypothesis same_but_scripts :
  forall url, decompose_scripts <$> web url = decompose_scripts <$> web' url.

Lemma fetch_page_sync_scripts self url :
  _fetch_page_sync str_lower netloc_ok web self url
  = _fetch_page_sync str_lower netloc_ok web' self url.
Proof using same_but_scripts.
  unfold _fetch_page_sync. pose proof (same_but_scripts url) as Hurl.
  destruct (web url) as [doc|], (web' url) as [doc'|]; simpl in *;
    try discriminate; [|reflexivity].
  apply (inj Some) in Hurl. now rewrite Hurl.
Qed.

Lemma crawl_step_scripts self to_crawl :
  crawl_step str_lower is_decimal netloc_ok web self to_crawl
  = crawl_step str_lower is_decimal netloc_ok web' self to_crawl.
Proof using same_but_scripts.
  unfold crawl_step. destruct to_crawl as [|[url text] rest]; [reflexivity|].
  now rewrite fetch_page_sync_scripts.
Qed.

Lemma crawl_all_scripts self to_crawl :
  crawl_all str_lower is_decimal netloc_ok web self to_crawl
  = crawl_all str_lower is_decimal netloc_ok web' self to_crawl.
Proof using same_but_scripts.
  funelim (crawl_all str_lower is_decimal netloc_ok web self to_crawl);
    rewrite (crawl_all_step _ _ _ web' self to_crawl), <- crawl_step_scripts;
    match goal with
    | Hstep : crawl_step _ _ _ _ _ _ = _ |- _ => rewrite Hstep
    end; [assumption | reflexivity].
Qed.

Lemma scrape_sync_scripts self :
  scrape_sync str_lower is_decimal netloc_ok web self
  = scrape_sync str_lower is_decimal netloc_ok web' self.
Proof using same_but_scripts.
  unfold scrape_sync. f_equal. unfold scrape_sync_state.
  assert (fetch_homepage str_lower is_decimal netloc_ok web self
          = fetch_homepage str_lower is_decimal netloc_ok web' self) as ->.
  { unfold fetch_homepage. now rewrite fetch_page_sync_scripts. }
  destruct (fetch_homepage str_lower is_decimal netloc_ok web' self)
    as [home links].
  assert (forall faq_links s,
            fold_left (crawl_faq_link str_lower is_decimal netloc_ok web)
              faq_links s
            = fold_left (crawl_faq_link str_lower is_decimal netloc_ok web')
                faq_links s) as Hfaq.
  { induction faq_links as [|l rest IH]; intros s; [reflexivity|].
    simpl. rewrite IH. f_equal. unfold crawl_faq_link.
    now rewrite fetch_page_sync_scripts. }
  rewrite Hfaq.
  case_bool_decide; [apply crawl_all_scripts | reflexivity].
Qed.

End Scripts.

(** X20.  JSON-LD blocks are never read during a crawl: the document a
    fetch hands on has none left, so [_extract_schema_faqs] does nothing on
    it, and a crawl returns the same result on the site with every script
    element removed. *)
Theorem json_ld_is_not_read (str_lower : pystr -> pystr)
  (is_decimal : char -> bool) (netloc_ok : pystr -> bool)
  (web : pystr -> option document) (self : scraper) :
  scrape_sync str_lower is_decimal netloc_ok web self
  = scrape_sync str_lower is_decimal netloc_ok
      (fun url => decompose_scripts <$> web url) self
  /\ forall url soup links,
       _fetch_page_sync str_lower netloc_ok web self url = Some (soup, links) ->
       doc_ld_json soup = []
       /\ forall s u, _extract_schema_faqs str_lower is_decimal s soup u = s.
Proof.
  split.
  - apply scrape_sync_scripts. intros url. now destruct (web url).
  - intros url soup links. unfold _fetch_page_sync.
    destruct (web url) as [doc|]; [|discriminate]. simpl.
    destruct (_extract_links_with_text _ _ _ _); [|discriminate].
    simpl. intros [= <- _]. split; reflexivity.
Qed.

(** ** The scraper on the sample sites *)

Local Abbreviation lower := ascii_lower.
Local Abbreviation digit := is_ascii_digit.
Local Abbreviation host := plain_netloc.

(** The state [FAQScraper("https://example.com", max)] starts from. *)
Definition example_scraper (max : Z) : scraper :=
  new_scraper example_base (py "example.com") max.

Lemma example_scraper_init max :
  FAQScraper host example_base max = Some (example_scraper max).
Proof. reflexivity. Qed.

Lemma ascii_lower_law (s : pystr) :
  Forall (fun c => is_ascii c = true) s -> lower s = ascii_lower s.
Proof. reflexivity. Qed.

(** Proves a decidable closed proposition by evaluating its decision. *)
Ltac decide_by_evaluation :=
  match goal with
  | |- ?P => apply (bool_decide_eq_true_1 P); vm_compute; reflexivity
  end.

(** C1, counterexample.  With [max_pages = 1] the homepage and its two FAQ
    links make three pages; with [max_pages = 0] the homepage alone is one
    page too many. *)
Lemma pages_processed_exceeds_max_pages :
  (fun r => (pagesProcessed r, (Z.of_nat (pagesProcessed r) <=? 1)%Z))
    <$> run_scraper lower digit host site_two_faq_links example_base 1
  = Some (3%nat, false)
  /\ (fun r => (pagesProcessed r, (Z.of_nat (pagesProcessed r) <=? 0)%Z))
       <$> run_scraper lower digit host site_faq_on_homepage example_base 0
     = Some (1%nat, false).
Proof. split; vm_compute; reflexivity. Qed.

(** The end-to-end scenario of C2: two accordions with one summary and
    two answers leave one record, the first. *)
Example twin_accordions_one_record :
  all_faqs (extract_details lower digit (example_scraper 50) twin_accordions
              example_base)
  = [{| question := py "Do you ship abroad?";
        answer := py "Yes, to every country.";
        sourceUrl := example_base |}].
Proof. vm_compute. reflexivity. Qed.


(** C3, counterexample.  The accordion, the container and the definition
    list each store a record whose answer has at most 20 characters. *)
Lemma short_answers_are_stored :
  map (fun r => (question r, answer r, (length (answer r) <=? 20)%nat))
    (all_faqs (_extract_from_faq_element lower digit (example_scraper 50)
                 short_answers_element example_base))
  = [(py "Do you ship abroad?", py "Yes.", true);
     (py "Where are you based?", py "In Lisbon.", true);
     (py "When do you open?", py "At nine.", true)].
Proof. vm_compute. reflexivity. Qed.

(** C4 on the site with one FAQ link. *)
Lemma faq_first_short_circuit_witness :
  crawl_log (scrape_sync_state lower digit host site_one_faq_link
               (example_scraper 10))
  = example_base
    :: map fst (homepage_faq_links lower digit host site_one_faq_link
                  (example_scraper 10))
  /\ faqPageFound (scrape_sync lower digit host site_one_faq_link
                     (example_scraper 10)) = true.
Proof.
  apply (faq_first_short_circuit lower digit host site_one_faq_link
           ascii_lower_law example_base (py "example.com") 10
           (link_page [("/faq", "FAQ"); ("/about", "About")])
           [] [(py "/about", py "About")] (py "/faq")
           (py "https://example.com/faq")).
  - reflexivity.
  - reflexivity.
  - reflexivity.
  - decide_by_evaluation.
  - constructor.
  - exists {| question := py "Do you ship abroad?"; answer := py "Yes.";
              sourceUrl := py "https://example.com/faq" |}.
    split; [decide_by_evaluation | reflexivity].
Defined.

(** C4, counterexample, in three parts.  First: the link with the text
    [FAQ] yields a record, and another page linked from the homepage, also
    classified as an FAQ link, is fetched as well.  Second: the anchor
    with the text [FAQ] comes after an anchor with the same URL and the
    text [Help]; the extractor keeps the first, no link is an FAQ link, the
    full-site loop fetches both linked pages, a record comes from the page
    of the anchor, and [faqPageFound] is false.  Third: the anchor with
    the text [FAQ] leads to the page the crawl started at; it is no link
    at all, the record of that page is returned, and [faqPageFound] is
    false. *)
Lemma faq_anchor_does_not_short_circuit :
  (homepage_links lower digit host site_two_faq_links (example_scraper 10)
   = [(py "https://example.com/faq", py "faq");
      (py "https://example.com/questions", py "ask us");
      (py "https://example.com/about", py "about")]
   /\ map sourceUrl
        (faqs (scrape_sync lower digit host site_two_faq_links
                 (example_scraper 10)))
      = [py "https://example.com/faq"; py "https://example.com/questions"]
   /\ crawl_log (scrape_sync_state lower digit host site_two_faq_links
                   (example_scraper 10))
      = [example_base; py "https://example.com/faq";
         py "https://example.com/questions"])
  /\ (site_shadowed_faq_anchor example_base
      = Some (link_page [("/help", "Help"); ("/help", "FAQ");
                         ("/about", "About")])
      /\ _normalize_url host (example_scraper 10) (py "/help")
         = Some (py "https://example.com/help")
      /\ homepage_links lower digit host site_shadowed_faq_anchor
           (example_scraper 10)
         = [(py "https://example.com/help", py "help");
            (py "https://example.com/about", py "about")]
      /\ map sourceUrl
           (faqs (scrape_sync lower digit host site_shadowed_faq_anchor
                    (example_scraper 10)))
         = [py "https://example.com/help"]
      /\ crawl_log (scrape_sync_state lower digit host
                      site_shadowed_faq_anchor (example_scraper 10))
         = [example_base; py "https://example.com/help";
            py "https://example.com/about"]
      /\ faqPageFound (scrape_sync lower digit host site_shadowed_faq_anchor
                         (example_scraper 10)) = false)
  /\ (FAQScraper host (py "https://example.com/faq") 10
      = Some (new_scraper (py "https://example.com/faq") (py "example.com") 10)
      /\ doc_anchors <$> site_faq_start_page (py "https://example.com/faq")
         = Some [(py "/faq", py "FAQ"); (py "/about", py "About")]
      /\ _normalize_url host
           (new_scraper (py "https://example.com/faq") (py "example.com") 10)
           (py "/faq")
         = Some (py "https://example.com/faq")
      /\ homepage_links lower digit host site_faq_start_page
           (new_scraper (py "https://example.com/faq") (py "example.com") 10)
         = [(py "https://example.com/about", py "about")]
      /\ map sourceUrl
           (faqs (scrape_sync lower digit host site_faq_start_page
                    (new_scraper (py "https://example.com/faq")
                       (py "example.com") 10)))
         = [py "https://example.com/faq"]
      /\ crawl_log (scrape_sync_state lower digit host site_faq_start_page
                      (new_scraper (py "https://example.com/faq")
                         (py "example.com") 10))
         = [py "https://example.com/faq"]
      /\ faqPageFound (scrape_sync lower digit host site_faq_start_page
                         (new_scraper (py "https://example.com/faq")
                            (py "example.com") 10)) = false).
Proof. repeat split; vm_compute; reflexivity. Qed.

(** C5, counterexample.  The FAQ-focused branch is taken and its link is
    visited, but the fetch fails and [faqPageFound] stays false. *)
Lemma visited_faq_link_not_found :
  homepage_faq_links lower digit host site_broken_faq_link
    (example_scraper 10)
  = [(py "https://example.com/faq", py "faq")]
  /\ bool_decide
       (py "https://example.com/faq"
        ∈ visited_urls
            (scrape_sync_state lower digit host site_broken_faq_link
               (example_scraper 10))) = true
  /\ crawl_log (scrape_sync_state lower digit host site_broken_faq_link
                  (example_scraper 10))
     = [example_base; py "https://example.com/faq"]
  /\ faqPageFound (scrape_sync lower digit host site_broken_faq_link
                     (example_scraper 10)) = false.
Proof. repeat split; vm_compute; reflexivity. Qed.

(** C6, counterexample.  The empty text has no ASCII letter and no
    non-ASCII character, and is not English. *)
Lemma empty_text_is_not_english :
  length (filter (fun c => is_ascii_alpha c) (py "")) = 0%nat
  /\ length (filter (fun c => negb (is_ascii c)) (py "")) = 0%nat
  /\ _is_english (py "") = false.
Proof. repeat split. Qed.

(** C7, counterexample.  Stripping the slash uncovers a parameter part. *)
Lemma normalize_url_not_idempotent :
  _normalize_url host (example_scraper 10) (py "https://example.com/a;b/")
  = Some (py "https://example.com/a;b")
  /\ _normalize_url host (example_scraper 10) (py "https://example.com/a;b")
     = Some (py "https://example.com/a").
Proof. split; vm_compute; reflexivity. Qed.

(** C7 on a relative link. *)
Lemma normalize_url_idempotent_witness :
  _normalize_url host (example_scraper 10) (py "https://example.com/faq")
  = Some (py "https://example.com/faq").
Proof.
  apply (normalize_url_idempotent host (example_scraper 10) (py "/faq/")
           (py "https://example.com/faq/") (py "https://example.com/faq"));
    vm_compute; reflexivity.
Defined.

(** C8 on [/support/billing]. *)
Lemma depth_bound_witness :
  _is_valid_internal_url host (example_scraper 10)
    (py "https://example.com/support/billing") = Some false.
Proof.
  apply (proj1 (depth_bound host (example_scraper 10)
                  (py "https://example.com/support/billing")
                  {| Urllib.scheme := py "https";
                     Urllib.netloc := py "example.com";
                     Urllib.path := py "/support/billing";
                     Urllib.params := []; Urllib.query := [];
                     Urllib.fragment := [] |} eq_refl)).
  vm_compute. lia.
Defined.

(** A path of one segment is a valid internal URL. *)
Example single_segment_is_valid :
  _is_valid_internal_url host (example_scraper 10)
    (py "https://example.com/support") = Some true.
Proof. vm_compute. reflexivity. Qed.

(** C9 on a question that starts with [B]. *)
Lemma add_faq_drops_leading_b_witness :
  strip_string_prefix (py "Billing questions?") = py "illing questions?"
  /\ all_faqs (_add_faq lower digit (example_scraper 10)
                 (py "Billing questions?")
                 (py "Invoices are sent by e-mail.") example_base)
     = [{| question := py "illing questions?";
           answer := py "Invoices are sent by e-mail.";
           sourceUrl := example_base |}].
Proof.
  destruct (add_faq_drops_leading_b lower digit (example_scraper 10)
              (ch "B") (py "illing questions?")
              (py "Invoices are sent by e-mail.") example_base
              (or_intror eq_refl)) as (Hprefix & _ & _).
  split; [exact Hprefix | vm_compute; reflexivity].
Defined.

(** C10 on the site whose homepage holds the FAQ. *)
Lemma homepage_faqs_skip_crawl_witness :
  crawl_log (scrape_sync_state lower digit host site_faq_on_homepage
               (example_scraper 10)) = [example_base]
  /\ faqs (scrape_sync lower digit host site_faq_on_homepage
             (example_scraper 10))
     = all_faqs (fetch_homepage lower digit host site_faq_on_homepage
                   (example_scraper 10)).1
  /\ pagesProcessed (scrape_sync lower digit host site_faq_on_homepage
                       (example_scraper 10)) = 1%nat
  /\ faqPageFound (scrape_sync lower digit host site_faq_on_homepage
                     (example_scraper 10)) = false.
Proof.
  apply (homepage_faqs_skip_crawl lower digit host site_faq_on_homepage
           example_base (py "example.com") 10).
  - vm_compute. discriminate.
  - vm_compute. reflexivity.
Defined.

(** ** The further properties on the sample sites *)

(** X1 on a homepage with two links. *)
Lemma extracted_links_spec_witness :
  NoDup (map fst [(py "https://example.com/faq", py "faq");
                  (py "https://example.com/about", py "about")])
  /\ forall url,
       url ∈ map fst [(py "https://example.com/faq", py "faq");
                      (py "https://example.com/about", py "about")] <->
       (url ∉ visited_urls (example_scraper 10))
       /\ _is_valid_internal_url host (example_scraper 10) url = Some true
       /\ exists href text,
            (href, text)
            ∈ doc_anchors (link_page [("/faq", "FAQ"); ("/about", "About");
                                      ("/faq/", "Questions")])
            /\ _normalize_url host (example_scraper 10) href = Some url.
Proof.
  destruct (extracted_links_spec lower host (example_scraper 10)
              (link_page [("/faq", "FAQ"); ("/about", "About");
                          ("/faq/", "Questions")])
              [(py "https://example.com/faq", py "faq");
               (py "https://example.com/about", py "about")] eq_refl)
    as (Hnodup & _ & Hiff).
  split; [exact Hnodup | exact Hiff].
Defined.

(** X2 on the homepage with the broken anchor: the accordion on it is
    never read. *)
Lemma bad_href_fails_fetch_witness :
  _fetch_page_sync lower host site_bad_link (example_scraper 10) example_base
  = None.
Proof.
  apply (bad_href_fails_fetch lower host site_bad_link (example_scraper 10)
           example_base
           {| doc_anchors := [(py "http://[", py "Broken")];
              doc_ld_json := [];
              doc_sections :=
                doc_sections (accordion_page "Do you ship abroad?" "Yes.") |}
           (py "http://[") (py "Broken")).
  - reflexivity.
  - now left.
  - reflexivity.
Defined.

Example broken_anchor_loses_the_page :
  faqs (scrape_sync lower digit host site_bad_link (example_scraper 10)) = [].
Proof. vm_compute. reflexivity. Qed.

(** X9 on the site that does not answer. *)
Lemma unreachable_homepage_witness :
  scrape_sync lower digit host site_down (example_scraper 10)
  = {| website := example_base; faqs := []; pagesProcessed := 1;
       totalFaqsFound := 0; faqPageFound := false |}
  /\ crawl_log (scrape_sync_state lower digit host site_down
                  (example_scraper 10)) = [example_base].
Proof.
  apply (unreachable_homepage lower digit host site_down example_base
           (py "example.com") 10).
  reflexivity.
Defined.

(** X12 on a tracking parameter, a fragment and a trailing slash. *)
Lemma normalize_url_ignores_witness :
  _normalize_url host (example_scraper 10)
    (py "https://example.com/faq" ++ ch "?" :: py "utm_source=mail")
  = _normalize_url host (example_scraper 10) (py "https://example.com/faq")
  /\ _normalize_url host (example_scraper 10)
       (py "https://example.com/faq" ++ ch "#" :: py "shipping")
     = _normalize_url host (example_scraper 10) (py "https://example.com/faq")
  /\ _normalize_url host (example_scraper 10)
       (py "https://example.com/faq" ++ py "/")
     = _normalize_url host (example_scraper 10) (py "https://example.com/faq").
Proof.
  destruct (normalize_url_ignores host (example_scraper 10)
              (py "https://example.com/faq") eq_refl)
    as (Hquery & Hfragment & Hslash); [decide_by_evaluation|].
  split; [apply Hquery|]. split; [apply Hfragment|].
  apply Hslash. decide_by_evaluation.
Defined.

(** X13 on a relative link with a query and a fragment. *)
Lemma normalized_url_shape_witness :
  exists sch net path,
    py "https://example.com/faq" = sch ++ py "://" ++ net ++ path
    /\ http_scheme sch
    /\ Forall (fun c => c <> ch "/" /\ c <> ch "?" /\ c <> ch "#") net
    /\ (exists r, path = ch "/" :: r)
    /\ (path = py "/" \/ exists init c, path = init ++ [c] /\ c <> ch "/")
    /\ Forall (fun c => c <> ch "?" /\ c <> ch "#")
         (py "https://example.com/faq").
Proof.
  apply (normalized_url_shape host (example_scraper 10)
           (py "/faq/?page=2#top") (py "https://example.com/faq/?page=2#top")
           (py "https://example.com/faq"));
    vm_compute; reflexivity.
Defined.

(** X14 on the sample base URL. *)
Lemma homepage_link_is_fresh_witness :
  _normalize_url host (example_scraper 10) example_base
  = Some (example_base ++ py "/")
  /\ (example_base ++ py "/"
      ∉ visited_urls (fetch_homepage lower digit host site_self_link
                        (example_scraper 10)).1).
Proof.
  apply (homepage_link_is_fresh lower digit host site_self_link example_base
           (py "example.com") 10 (py "https") (py "example.com")).
  - now right.
  - decide_by_evaluation.
  - now right.
  - reflexivity.
Defined.

(** A homepage that links to itself is requested twice. *)
Example homepage_is_fetched_twice :
  crawl_log (scrape_sync_state lower digit host site_self_link
               (example_scraper 10))
  = [py "https://example.com"; py "https://example.com/"].
Proof. vm_compute. reflexivity. Qed.

(** X19 on [12. What is it?]. *)
Lemma clean_question_drops_number_witness :
  clean_question digit (py "12" ++ py ". " ++ ch "W" :: py "hat is it?")
  = strip is_space (ch "W" :: py "hat is it?").
Proof.
  apply (clean_question_drops_number digit (py "12") (py ". ")
           (py "hat is it?") (ch "W")).
  - discriminate.
  - decide_by_evaluation.
  - decide_by_evaluation.
  - reflexivity.
  - reflexivity.
Defined.

(** A numbered question that starts with [B] keeps its first letter. *)
Example numbered_question_keeps_b :
  clean_question digit (py "3) Billing questions?") = py "Billing questions?".
Proof. vm_compute. reflexivity. Qed.

(** The block of [schema_page] holds a record, which a crawl of the site
    never returns. *)
Example schema_faqs_are_lost :
  map question
    (all_faqs (_extract_schema_faqs lower digit (example_scraper 10)
                 schema_page example_base))
  = [py "Do you ship abroad?"]
  /\ faqs (scrape_sync lower digit host site_with_schema (example_scraper 10))
     = [].
Proof. split; vm_compute; reflexivity. Qed.

(** X22 on the site whose homepage links to itself, with a budget of one
    page. *)
Lemma single_page_budget_witness :
  crawl_log (scrape_sync_state lower digit host site_self_link
               (example_scraper 1)) = [example_base]
  /\ pagesProcessed (scrape_sync lower digit host site_self_link
                       (example_scraper 1)) = 1%nat.
Proof.
  apply (single_page_budget lower digit host site_self_link example_base
           (py "example.com") 1).
  - lia.
  - vm_compute. reflexivity.
Defined.

(** X24 on the link [faq]. *)
Lemma relative_link_resolves_witness :
  _normalize_url host (example_scraper 10) (ch "/" :: py "faq")
  = Some (example_base ++ ch "/" :: py "faq")
  /\ _normalize_url host (example_scraper 10) (py "faq")
     = Some (example_base ++ ch "/" :: py "faq").
Proof.
  apply (relative_link_resolves host (example_scraper 10) (py "https")
           (py "example.com") (py "faq")).
  - now right.
  - decide_by_evaluation.
  - now right.
  - reflexivity.
  - repeat (constructor; [repeat split; (reflexivity || discriminate)|]).
    constructor.
  - discriminate.
  - discriminate.
Defined.

(** The link [billing] on the page [/support] is requested as
    [/billing]. *)
Example relative_link_ignores_its_page :
  crawl_log (scrape_sync_state lower digit host site_nested_link
               (example_scraper 10))
  = [py "https://example.com"; py "https://example.com/support";
     py "https://example.com/billing"].
Proof. vm_compute. reflexivity. Qed.
